(** * Text helpers of [ai_data_science_team/tools/regex.py]

    A shallow embedding of the five helpers of the module
    ([relocate_imports_inside_function], [add_comments_to_top],
    [format_agent_name], [format_recommended_steps], [get_generic_summary])
    together with the fragment of Python's [str] and [re] they call.

    Scope of the model.  A Python [str] is modelled as a list of Rocq
    [ascii] characters, read as the code points 0..127; on that range
    [str.isspace], the regex classes [\s], [\S], [\w], [.] and
    [str.upper]/[str.lower] are the ones defined below. *)

From Stdlib Require Import List Ascii String Bool Arith Lia ZArith DecimalString.
Import ListNotations.

Set Implicit Arguments.

(** ** Python [str] *)

Definition str := list ascii.

Definition nl : ascii := "010"%char.
Definition tab : ascii := "009"%char.

(** Reading of a literal the way Python reads it: backslash-n is a newline,
    backslash-t a tab, backslash-backslash a backslash. *)
Fixpoint unescape (s : string) : str :=
  match s with
  | EmptyString => []
  | String "\" (String "n" t) => nl :: unescape t
  | String "\" (String "t" t) => tab :: unescape t
  | String "\" (String "\" t) => "\"%char :: unescape t
  | String c t => c :: unescape t
  end.

Notation "'py' s" := (unescape s%string) (at level 9, s at level 0, only parsing).

Definition eqc (a b : ascii) : bool := Ascii.eqb a b.

Definition code (c : ascii) : nat := nat_of_ascii c.

(** [str.isspace] on one character, also the regex class [\s]:
    TAB, LF, VT, FF, CR, the separators 28..31 and the space. *)
Definition isspace (c : ascii) : bool :=
  let n := code c in
  ((9 <=? n) && (n <=? 13)) || ((28 <=? n) && (n <=? 32)).

Definition is_lower (c : ascii) : bool := let n := code c in (97 <=? n) && (n <=? 122).
Definition is_upper (c : ascii) : bool := let n := code c in (65 <=? n) && (n <=? 90).
Definition is_digit (c : ascii) : bool := let n := code c in (48 <=? n) && (n <=? 57).

(** The regex class [\w]: letters, digits and the underscore. *)
Definition isword (c : ascii) : bool :=
  is_lower c || is_upper c || is_digit c || eqc c "_".

Definition upper_char (c : ascii) : ascii :=
  if is_lower c then ascii_of_nat (code c - 32) else c.

Definition lower_char (c : ascii) : ascii :=
  if is_upper c then ascii_of_nat (code c + 32) else c.

Definition upper (s : str) : str := map upper_char s.
Definition lower (s : str) : str := map lower_char s.

(** [str.isascii]: every code point is below 128.  On such a text
    [str.upper] and [str.lower] change the ASCII letters, one character
    for one, and nothing else. *)
Definition isascii (s : str) : bool := forallb (fun c => code c <? 128) s.

Fixpoint str_eqb (a b : str) : bool :=
  match a, b with
  | [], [] => true
  | x :: a', y :: b' => eqc x y && str_eqb a' b'
  | _, _ => false
  end.

Fixpoint dropWhile (p : ascii -> bool) (s : str) : str :=
  match s with
  | c :: t => if p c then dropWhile p t else s
  | [] => []
  end.

Definition lstrip (s : str) : str := dropWhile isspace s.
Definition rstrip (s : str) : str := rev (dropWhile isspace (rev s)).

(** [s.strip()] *)
Definition strip (s : str) : str := rstrip (lstrip s).

Fixpoint starts_with (p s : str) : bool :=
  match p, s with
  | [], _ => true
  | x :: p', y :: s' => eqc x y && starts_with p' s'
  | _ :: _, [] => false
  end.

(** [sub in s] *)
Fixpoint contains (sub s : str) : bool :=
  starts_with sub s ||
  match s with
  | [] => false
  | _ :: t => contains sub t
  end.

(** [s.replace(old, new)] for a non-empty [old]: occurrences are replaced
    from left to right, without overlap.  [skip] counts the characters of the
    occurrence just replaced that are still to be passed over. *)
Fixpoint replace_from (old new : str) (skip : nat) (s : str) : str :=
  match s with
  | [] => []
  | c :: t =>
      match skip with
      | S k => replace_from old new k t
      | 0 => if starts_with old s
             then new ++ replace_from old new (List.length old - 1) t
             else c :: replace_from old new 0 t
      end
  end.

Definition replace (old new s : str) : str := replace_from old new 0 s.

(** [s.split(sep)] for a one-character separator. *)
Fixpoint split (sep : ascii) (s : str) : list str :=
  match s with
  | [] => [[]]
  | c :: t =>
      if eqc c sep then [] :: split sep t
      else match split sep t with
           | l :: ls => (c :: l) :: ls
           | [] => [[c]]
           end
  end.

(** [sep.join(xs)] *)
Fixpoint join (sep : str) (xs : list str) : str :=
  match xs with
  | [] => []
  | [x] => x
  | x :: rest => x ++ sep ++ join sep rest
  end.

(** Slices [s[:n]] and [s[n:]] for [0 <= n]. *)
Definition upto (n : nat) (s : str) : str := firstn n s.
Definition from (n : nat) (s : str) : str := skipn n s.

(** ** The fragment of [re] the module uses

    Patterns are kept as syntax trees and run by a backtracking matcher
    with the priorities of Python's engine: the left alternative first,
    greedy repetitions longest first, lazy ones shortest first.  All the
    repetitions in the module's patterns are over one-character classes. *)

Module Re.

Inductive re : Type :=
| Lit (c : ascii)                                  (* a literal character *)
| Cls (p : ascii -> bool)                          (* a one-character class *)
| Bol                                              (* ^ under re.MULTILINE *)
| Eol                                              (* $ under re.MULTILINE *)
| Cat (a b : re)
| Alt (a b : re)
| Rep (greedy : bool) (min : nat) (p : ascii -> bool)  (* x*, x+, x*? *)
| Grp (r : re).                                    (* the capturing group 1 *)

(** A position of the subject: its index, the character before it and the
    text from it on; [grp] is the span of group 1 when it has matched. *)
Record mstate : Type := MState {
  pos : nat;
  prev : option ascii;
  rest : str;
  grp : option (nat * nat)
}.

Definition cont := mstate -> option mstate.

Definition orelse (a : option mstate) (b : unit -> option mstate) : option mstate :=
  match a with
  | Some r => Some r
  | None => b tt
  end.

Definition step_char (p : ascii -> bool) (st : mstate) (k : cont) : option mstate :=
  match rest st with
  | c :: t => if p c then k (MState (S (pos st)) (Some c) t (grp st)) else None
  | [] => None
  end.

Definition at_bol (st : mstate) : bool :=
  match prev st with
  | None => true
  | Some c => eqc c nl
  end.

Definition at_eol (st : mstate) : bool :=
  match rest st with
  | [] => true
  | c :: _ => eqc c nl
  end.

Fixpoint rep (greedy : bool) (p : ascii -> bool) (k : cont) (g : option (nat * nat))
    (min : nat) (i : nat) (pv : option ascii) (s : str) : option mstate :=
  let here (_ : unit) :=
    match min with
    | 0 => k (MState i pv s g)
    | S _ => None
    end in
  let more (_ : unit) :=
    match s with
    | c :: t => if p c then rep greedy p k g (Nat.pred min) (S i) (Some c) t else None
    | [] => None
    end in
  if greedy then orelse (more tt) here else orelse (here tt) more.

Fixpoint run (r : re) (st : mstate) (k : cont) : option mstate :=
  match r with
  | Lit c => step_char (eqc c) st k
  | Cls p => step_char p st k
  | Bol => if at_bol st then k st else None
  | Eol => if at_eol st then k st else None
  | Cat a b => run a st (fun st' => run b st' k)
  | Alt a b => orelse (run a st k) (fun _ => run b st k)
  | Rep greedy min p => rep greedy p k (grp st) min (pos st) (prev st) (rest st)
  | Grp a => run a st (fun st' => k (MState (pos st') (prev st') (rest st')
                                         (Some (pos st, pos st'))))
  end.

(** One match: where it starts, where it ends and the span of group 1. *)
Record found : Type := Found {
  m_start : nat;
  m_end : nat;
  m_grp : option (nat * nat)
}.

(** An attempt at position [i].  With [adv] set (the engine's
    [must_advance], after an empty match) an empty match is refused. *)
Definition attempt (r : re) (adv : bool) (i : nat) (pv : option ascii) (s : str)
  : option found :=
  match run r (MState i pv s None)
            (fun st => if adv && (pos st =? i) then None else Some st) with
  | Some st => Some (Found i (pos st) (grp st))
  | None => None
  end.

(** [re.search]: the first position, from the left, where an attempt
    succeeds. *)
Fixpoint search_from (r : re) (i : nat) (pv : option ascii) (s : str) : option found :=
  match attempt r false i pv s with
  | Some m => Some m
  | None =>
      match s with
      | c :: t => search_from r (S i) (Some c) t
      | [] => None
      end
  end.

Definition search (r : re) (s : str) : option found := search_from r 0 None s.

(** The successive matches of [re.finditer], which [re.findall] and
    [re.sub] share: after a match the scan resumes at its end ([skip]
    counts the characters still inside it); after an empty match the same
    position is retried once with [must_advance]. *)
Fixpoint scan (r : re) (skip : nat) (i : nat) (pv : option ascii) (s : str) : list found :=
  match skip with
  | S k =>
      match s with
      | c :: t => scan r k (S i) (Some c) t
      | [] => []
      end
  | 0 =>
      let next (_ : unit) :=
        match s with
        | c :: t => scan r 0 (S i) (Some c) t
        | [] => []
        end in
      let resume (m : found) :=
        match s with
        | c :: t => m :: scan r (m_end m - i - 1) (S i) (Some c) t
        | [] => [m]
        end in
      match attempt r false i pv s with
      | None => next tt
      | Some m =>
          if m_end m =? i
          then m :: match attempt r true i pv s with
                    | Some m' => resume m'
                    | None => next tt
                    end
          else resume m
      end
  end.

Definition finditer (r : re) (s : str) : list found := scan r 0 0 None s.

Definition group1 (s : str) (m : found) : str :=
  match m_grp m with
  | Some (a, b) => upto (b - a) (from a s)
  | None => []
  end.

(** [re.findall] for a pattern with one group: the texts of group 1. *)
Definition findall (r : re) (s : str) : list str := map (group1 s) (finditer r s).

(** [re.sub] with a literal replacement: the text between the matches,
    with [repl] in place of each match.  [i] is the index of the first
    character of [s] in the subject. *)
Fixpoint splice (repl : str) (ms : list found) (i : nat) (s : str) : str :=
  match ms with
  | [] => s
  | m :: ms' =>
      upto (m_start m - i) s ++ repl ++ splice repl ms' (m_end m) (from (m_end m - i) s)
  end.

Definition sub (r : re) (repl : str) (s : str) : str := splice repl (finditer r s) 0 s.

(** Pattern building blocks. *)
Fixpoint lit (s : str) : re :=
  match s with
  | [] => Rep true 0 (fun _ => false)
  | [c] => Lit c
  | c :: t => Cat (Lit c) (lit t)
  end.

Fixpoint seq (rs : list re) : re :=
  match rs with
  | [] => Rep true 0 (fun _ => false)
  | [r] => r
  | r :: t => Cat r (seq t)
  end.

Definition space : ascii -> bool := isspace.                       (* \s *)
Definition nonspace (c : ascii) : bool := negb (isspace c).        (* \S *)
Definition word : ascii -> bool := isword.                         (* \w *)
Definition not_nl (c : ascii) : bool := negb (eqc c nl).           (* . and [^\n] *)

Definition star (p : ascii -> bool) : re := Rep true 0 p.
Definition plus (p : ascii -> bool) : re := Rep true 1 p.
Definition lazy_star (p : ascii -> bool) : re := Rep false 0 p.

End Re.

Import Re.

(** ** [relocate_imports_inside_function] *)

(** [^\s*(import\s+[^\n]+|from\s+\S+\s+import\s+[^\n]+)\s*$], used with
    [re.MULTILINE]. *)
Definition import_pattern : re :=
  seq [ Bol; star space;
        Grp (Alt (seq [lit (py "import"); plus space; plus not_nl])
                 (seq [lit (py "from"); plus space; plus nonspace; plus space;
                       lit (py "import"); plus space; plus not_nl]));
        star space; Eol ].

(** [(def\s+\w+\s*\(.*?\):)]; the group spans the whole match. *)
Definition function_pattern : re :=
  Grp (seq [ lit (py "def"); plus space; plus word; star space; Lit "(";
             lazy_star not_nl; Lit ")"; Lit ":" ]).

Definition indent : str := py "\n    ".

Definition code_without_imports (code_text : str) : str :=
  strip (sub import_pattern [] code_text).

Definition relocate_imports_inside_function (code_text : str) : str :=
  let imports := findall import_pattern code_text in
  let cwi := code_without_imports code_text in
  match search function_pattern cwi with
  | Some m =>
      let function_start := m_end m in
      let imports_code := indent ++ join indent imports in
      upto function_start cwi ++ imports_code ++ from function_start cwi
  | None => code_text
  end.

(** ** [add_comments_to_top] *)

(** What [datetime.now()] returns; the clock is an argument of the model. *)
Record datetime : Type := DateTime {
  year : nat; month : nat; day : nat;
  hour : nat; minute : nat; second : nat
}.

Definition digit (n : nat) : ascii := ascii_of_nat (48 + n mod 10).
Definition pad2 (n : nat) : str := [digit (n / 10); digit n].
Definition pad4 (n : nat) : str := [digit (n / 1000); digit (n / 100); digit (n / 10); digit n].

(** [d.strftime('%Y-%m-%d %H:%M:%S')] *)
Definition strftime (d : datetime) : str :=
  pad4 (year d) ++ py "-" ++ pad2 (month d) ++ py "-" ++ pad2 (day d) ++ py " "
  ++ pad2 (hour d) ++ py ":" ++ pad2 (minute d) ++ py ":" ++ pad2 (second d).

Definition disclaimer : str :=
  py "# Disclaimer: This function was generated by AI. Please review before using.".

Definition default_agent_name : str := py "data_wrangler".

Definition add_comments_to_top (now : datetime) (code_text agent_name : str) : str :=
  let time_created := strftime now in
  let header_comments :=
    [ disclaimer;
      py "# Agent Name: " ++ agent_name;
      py "# Time Created: " ++ time_created ++ py "\n";
      [] ] in
  let header_block := join [nl] header_comments in
  header_block ++ code_text.

(** ** [format_agent_name] *)

Definition format_agent_name (agent_name : str) : str :=
  let formatted_name := upper (replace (py "_") (py " ") (strip agent_name)) in
  py "---" ++ formatted_name ++ py "----".

(** ** [format_recommended_steps] *)

Definition default_heading : str := py "# Recommended Steps:".

Definition is_empty (s : str) : bool :=
  match s with
  | [] => true
  | _ :: _ => false
  end.

(** The [while] loop popping the empty lines at the start. *)
Fixpoint pop_blank (lines : list str) : list str :=
  match lines with
  | l :: t => if is_empty (strip l) then pop_blank t else lines
  | [] => []
  end.

(** One turn of the [for] loop on the pair [(seen_heading, new_lines)]. *)
Definition steps_turn (heading : str) (st : bool * list str) (line : str)
  : bool * list str :=
  let (seen_heading, new_lines) := st in
  if str_eqb (strip line) heading then
    if seen_heading then (seen_heading, new_lines)
    else (true, new_lines ++ [line])
  else (seen_heading, new_lines ++ [line]).

Definition steps_lines (raw_text heading : str) : list str :=
  let lines := pop_blank (split nl (strip raw_text)) in
  let (seen_heading, new_lines) := fold_left (steps_turn heading) lines (false, []) in
  if negb seen_heading then heading :: new_lines else new_lines.

Definition format_recommended_steps (raw_text heading : str) : str :=
  join [nl] (steps_lines raw_text heading).

(** ** [get_generic_summary] *)

(** [str(value)]: the values of a report are of any type that converts to
    text. *)
Class PyStr (V : Type) : Type := py_str : V -> str.

Definition str_of_Z (z : Z) : str :=
  list_ascii_of_string (NilZero.string_of_int (Z.to_int z)).

#[export] Instance PyStr_str : PyStr str := fun s => s.
#[export] Instance PyStr_Z : PyStr Z := str_of_Z.
#[export] Instance PyStr_bool : PyStr bool :=
  fun b => if b then py "True" else py "False".

(** The values [json.loads] gives at the leaves: text, integers, booleans
    and [None]. *)
Inductive pyval : Type :=
| VStr (s : str)
| VInt (z : Z)
| VBool (b : bool)
| VNone.

#[export] Instance PyStr_pyval : PyStr pyval := fun v =>
  match v with
  | VStr s => s
  | VInt z => py_str z
  | VBool b => py_str b
  | VNone => py "None"
  end.

(** A [dict] with text keys, its items in iteration order. *)
Definition dict (V : Type) : Type := list (str * V).

Fixpoint dict_get {V : Type} (key : str) (d : dict V) : option V :=
  match d with
  | [] => None
  | (k, v) :: t => if str_eqb k key then Some v else dict_get key t
  end.

Definition title_key : str := py "report_title".
Definition default_title : str := py "Untitled Report".
Definition default_lang : str := py "python".

Definition is_code_key (key : str) : bool :=
  let key_lower := lower key in
  contains (py "code") key_lower || contains (py "function") key_lower.

Definition section_heading (key : str) : str :=
  py "\n## " ++ upper (format_agent_name key).

(** One turn of the [for] loop over the items, on the list [lines]. *)
Definition summary_turn {V : Type} `{PyStr V} (code_lang : str)
    (lines : list str) (item : str * V) : list str :=
  let (key, value) := item in
  if str_eqb key title_key then lines
  else if is_code_key key then
    (lines ++ [section_heading key])
      ++ [py "```" ++ code_lang ++ py "\n" ++ py_str value ++ py "\n```"]
  else
    (lines ++ [section_heading key]) ++ [py_str value].

Definition summary_title {V : Type} `{PyStr V} (report_dict : dict V) : str :=
  match dict_get title_key report_dict with
  | Some v => py_str v
  | None => default_title
  end.

Definition summary_lines {V : Type} `{PyStr V} (report_dict : dict V)
    (code_lang : str) : list str :=
  let title := summary_title report_dict in
  let lines := [py "# " ++ title] in
  fold_left (summary_turn code_lang) report_dict lines.

Definition get_generic_summary {V : Type} `{PyStr V} (report_dict : dict V)
    (code_lang : str) : str :=
  join [nl] (summary_lines report_dict code_lang).

(** ** The helpers as the specification words them *)

(** The label as the specification words it: trimmed, every underscore
    turned into one space, upper-cased, between three and four hyphens. *)
Definition underscore_to_space (c : ascii) : ascii :=
  if eqc c "_" then " "%char else c.

Definition spec_format_name (s : str) : str :=
  py "---" ++ map upper_char (map underscore_to_space (strip s)) ++ py "----".

(** The shape [YYYY-MM-DD HH:MM:SS] of a timestamp. *)
Definition is_timestamp (s : str) : bool :=
  match s with
  | [y1; y2; y3; y4; h1; m1; m2; h2; d1; d2; sp; a1; a2; c1; b1; b2; c2; e1; e2] =>
      forallb is_digit [y1; y2; y3; y4; m1; m2; d1; d2; a1; a2; b1; b2; e1; e2]
      && eqc h1 "-" && eqc h2 "-" && eqc sp " " && eqc c1 ":" && eqc c2 ":"
  | _ => false
  end.

(** The report as the specification words it: the title heading, then,
    for every item but the title's, a heading and the value as text,
    fenced when the key names code. *)
Definition fence (code_lang text : str) : str :=
  py "```" ++ code_lang ++ py "\n" ++ text ++ py "\n```".

Definition render {V : Type} `{PyStr V} (code_lang : str) (item : str * V) : list str :=
  [ section_heading (fst item);
    if is_code_key (fst item) then fence code_lang (py_str (snd item))
    else py_str (snd item) ].

Definition not_title {V : Type} (item : str * V) : bool :=
  negb (str_eqb (fst item) title_key).

Definition spec_summary_lines {V : Type} `{PyStr V} (d : dict V) (code_lang : str)
  : list str :=
  (py "# " ++ match dict_get title_key d with
              | Some v => py_str v
              | None => py "Untitled Report"
              end)
  :: flat_map (render code_lang) (filter not_title d).

(** The step list as the specification words it.  A line is a heading
    line when its trimmed content equals the heading; the first heading
    line is kept and the later ones are dropped. *)
Definition is_heading (heading line : str) : bool := str_eqb (strip line) heading.

Definition other_line (heading line : str) : bool := negb (is_heading heading line).

Fixpoint keep_first (heading : str) (lines : list str) : list str :=
  match lines with
  | [] => []
  | l :: t =>
      if is_heading heading l then l :: filter (other_line heading) t
      else l :: keep_first heading t
  end.

Definition count_heading (heading : str) (lines : list str) : nat :=
  List.length (filter (is_heading heading) lines).

(** The reading of the specification in which the lines are those of the
    text as given: only the blank lines at the start go, then the
    duplicate headings. *)
Definition spec_steps_lines (raw_text heading : str) : list str :=
  let lines := pop_blank (split nl raw_text) in
  if existsb (is_heading heading) lines then keep_first heading lines
  else heading :: lines.

(** A family of texts with one function definition: lines [import <module>],
    then one signature line [def <name>(<params>):] and nothing after it. *)
Definition import_line (m : str) : str := py "import " ++ m.

Definition signature (name params : str) : str :=
  py "def " ++ name ++ py "(" ++ params ++ py "):".

Definition source_lines (modules : list str) : str :=
  List.concat (map (fun m => import_line m ++ [nl]) modules).

Definition bodyless_source (modules : list str) (name params : str) : str :=
  source_lines modules ++ signature name params.

Definition bodyless_target (modules : list str) (name params : str) : str :=
  signature name params ++ indent ++ join indent (map import_line modules).

(** What may follow [import ]: a text on one line that does not start
    with white space. *)
Definition is_module_text (m : str) : bool :=
  match m with
  | [] => false
  | c :: t => negb (isspace c) && forallb not_nl t
  end.

Definition is_name (name : str) : bool :=
  negb (is_empty name) && forallb isword name.

Definition is_param_char (c : ascii) : bool := not_nl c && negb (eqc c ")").

(** The character before a position reached by reading [x]. *)
Definition prev_after (pv : option ascii) (x : str) : option ascii :=
  fold_left (fun _ c => Some c) x pv.

(** The matches of the import pattern in a source and in a target of the
    family, from index [i] on. *)
Fixpoint source_founds (i : nat) (modules : list str) : list found :=
  match modules with
  | [] => []
  | m :: t =>
      let e := i + List.length (import_line m) in
      Found i e (Some (i, e)) :: source_founds (S e) t
  end.

Fixpoint target_founds (i : nat) (modules : list str) : list found :=
  match modules with
  | [] => []
  | m :: t =>
      let e := i + 5 + List.length (import_line m) in
      Found (S i) e (Some (i + 5, e)) :: target_founds e t
  end.

(** The indented import lines of a target, and what is left of the
    import lines once they are taken out. *)
Definition target_lines (modules : list str) : str :=
  List.concat (map (fun m => indent ++ import_line m) modules).

Definition blank_lines (modules : list str) : str := map (fun _ => nl) modules.

(** The characters [re.sub] with an empty replacement keeps: those that
    are in no match.  The recursion is the one of [scan]. *)
Fixpoint kept (r : re) (skip i : nat) (pv : option ascii) (s : str) : str :=
  match s with
  | [] => []
  | c :: t =>
      match skip with
      | S k => kept r k (S i) (Some c) t
      | 0 =>
          match attempt r false i pv s with
          | None => c :: kept r 0 (S i) (Some c) t
          | Some m =>
              if m_end m =? i
              then match attempt r true i pv s with
                   | Some m' => kept r (m_end m' - i - 1) (S i) (Some c) t
                   | None => c :: kept r 0 (S i) (Some c) t
                   end
              else kept r (m_end m - i - 1) (S i) (Some c) t
          end
      end
  end.

(** White space other than the newline. *)
Definition isblank (c : ascii) : bool := isspace c && not_nl c.

(** The matches of the import pattern in a relocated text whose last
    import is followed by [k] empty lines: the last match takes them. *)
Fixpoint target_founds_last (k i : nat) (m : str) (t : list str) : list found :=
  let e := i + 5 + List.length (import_line m) in
  match t with
  | [] => [Found (S i) (e + k) (Some (i + 5, e))]
  | m2 :: t' => Found (S i) e (Some (i + 5, e)) :: target_founds_last k e m2 t'
  end.

(** A relocated text: the signature line, the indented imports, [k] empty
    lines and the body. *)
Definition relocated (modules : list str) (name params : str) (k : nat) (body : str)
  : str :=
  signature name params ++ indent ++ join indent (map import_line modules)
  ++ repeat nl k ++ nl :: body.

(** A body whose first line is not blank, and one that does not end in
    white space. *)
Definition starts_with_text (body : str) : bool :=
  match dropWhile isblank body with
  | c :: _ => negb (isspace c)
  | [] => false
  end.

Definition ends_with_text (body : str) : bool :=
  match rev body with
  | c :: _ => negb (isspace c)
  | [] => false
  end.

(** ** Single-function texts *)

(** A run of blanks: white space other than the newline, at least one
    character. *)
Definition is_blanks (w : str) : bool := negb (is_empty w) && forallb isblank w.

(** A module path: at least one character, none of them white space. *)
Definition is_token (m : str) : bool := negb (is_empty m) && forallb nonspace m.

(** The content of a line before the signature, without the white space
    in front of it: an import statement [import<blanks><names>], an import
    statement [from<blanks><module><blanks>import<blanks><names>], or any
    other text. *)
Inductive line : Type :=
| ImportLine (sp names : str)
| FromLine (sp1 module sp2 sp3 names : str)
| PlainLine (text : str).

Definition line_text (l : line) : str :=
  match l with
  | ImportLine sp names => py "import" ++ sp ++ names
  | FromLine sp1 module sp2 sp3 names =>
      py "from" ++ sp1 ++ module ++ sp2 ++ py "import" ++ sp3 ++ names
  | PlainLine text => text
  end.

Definition is_statement (l : line) : bool :=
  match l with
  | PlainLine _ => false
  | _ => true
  end.

(** [text] starts with the word [w]: with [w] followed by white space or
    by the end of the line. *)
Definition starts_word (w text : str) : bool :=
  starts_with w text
  && match skipn (List.length w) text with
     | [] => true
     | c :: _ => isspace c
     end.

(** The names of a statement run to the end of the line and start with a
    character that is no white space.  A plain line starts with such a
    character too, stays on one line, does not start with the word
    [import] or [from] and does not hold [def]. *)
Definition line_ok (l : line) : bool :=
  match l with
  | ImportLine sp names => is_blanks sp && is_module_text names
  | FromLine sp1 module sp2 sp3 names =>
      is_blanks sp1 && is_token module && is_blanks sp2 && is_blanks sp3
      && is_module_text names
  | PlainLine text =>
      is_module_text text
      && negb (starts_word (py "import") text)
      && negb (starts_word (py "from") text)
      && negb (contains (py "def") text)
  end.

(** The lines of a text, each with the white space that follows its
    newline (empty lines, blank lines and the indentation of the next
    line), and then the text [fin]. *)
Fixpoint chain (ls : list (line * str)) (fin : str) : str :=
  match ls with
  | [] => fin
  | (l, g) :: t => line_text l ++ nl :: g ++ chain t fin
  end.

Definition lines_ok (ls : list (line * str)) : bool :=
  forallb (fun p => line_ok (fst p) && forallb isspace (snd p)) ls.

(** A text with one function: white space, lines, the signature line and
    white space after it. *)
Definition single_function (g0 : str) (ls : list (line * str))
    (name params tail : str) : str :=
  g0 ++ chain ls (signature name params ++ tail).

(** The import statements of the lines, in their order. *)
Definition statements (ls : list (line * str)) : list str :=
  map (fun p => line_text (fst p)) (filter (fun p => is_statement (fst p)) ls).

(** Texts without import statement that end with [fin]: plain lines, each
    after white space, then [fin] after white space. *)
Inductive plain_text (fin : str) : str -> Prop :=
| plain_fin (g : str) :
    Forall (fun c => isspace c = true) g -> plain_text fin (g ++ fin)
| plain_line (g text t : str) :
    Forall (fun c => isspace c = true) g ->
    line_ok (PlainLine text) = true ->
    plain_text fin t ->
    plain_text fin (g ++ text ++ nl :: t).

(** Where the white space read after a statement may end: at the end of
    the text, or in front of the newline that is followed by the
    indentation and the first character of the next line. *)
Definition line_end (tail : str) : Prop :=
  tail = []
  \/ exists Y c r, tail = nl :: Y ++ c :: r
                   /\ Forall (fun a => isblank a = true) Y /\ isspace c = false.

(** The text [s] does not start with the word [w]: it does not start
    with [w], or [w] is followed by a character that is no white space. *)
Definition no_word (w s : str) : Prop :=
  starts_with w s = false \/ exists c r, s = w ++ c :: r /\ isspace c = false.

Definition statement_ok (l : line) : Prop := line_ok l = true /\ is_statement l = true.

(** * Properties *)

(** C1: on the text [import os / def foo(): / pass] the import line is taken
    out and put back, indented by four spaces, right after the signature
    line. *)
Theorem relocate_example :
  relocate_imports_inside_function (py "import os\ndef foo():\n    pass")
  = py "def foo():\n    import os\n    pass".
Proof. vm_compute. reflexivity. Qed.

(** ** Characters and text equality *)

Lemma eqc_eq (a b : ascii) : eqc a b = true <-> a = b.
Proof. apply Ascii.eqb_eq. Qed.

Lemma eqc_refl (a : ascii) : eqc a a = true.
Proof. apply Ascii.eqb_refl. Qed.

Lemma eqc_neq (a b : ascii) : eqc a b = false <-> a <> b.
Proof. apply Ascii.eqb_neq. Qed.

Lemma str_eqb_eq (a b : str) : str_eqb a b = true <-> a = b.
Proof.
  revert b; induction a as [|x a IH]; intros [|y b]; simpl; split; intro E;
    try reflexivity; try discriminate.
  - apply andb_true_iff in E as [E1 E2].
    apply eqc_eq in E1. apply IH in E2. congruence.
  - injection E as -> ->. rewrite eqc_refl. apply IH. reflexivity.
Qed.

Lemma str_eqb_refl (a : str) : str_eqb a a = true.
Proof. apply str_eqb_eq. reflexivity. Qed.

Lemma str_eqb_neq (a b : str) : str_eqb a b = false <-> a <> b.
Proof.
  split.
  - intros E ->. rewrite str_eqb_refl in E. discriminate.
  - intro N. destruct (str_eqb a b) eqn:E; [|reflexivity].
    apply str_eqb_eq in E. contradiction.
Qed.

(** ** Joining *)

Lemma join_cons (sep x : str) (xs : list str) :
  join sep (x :: xs) = x ++ match xs with [] => [] | _ :: _ => sep ++ join sep xs end.
Proof. destruct xs; simpl; [rewrite app_nil_r|]; reflexivity. Qed.

Lemma join_app (sep : str) (xs ys : list str) :
  xs <> [] -> ys <> [] -> join sep (xs ++ ys) = join sep xs ++ sep ++ join sep ys.
Proof.
  intros Hx Hy. induction xs as [|x xs IH]; [contradiction|].
  destruct xs as [|x' xs].
  - destruct ys; [contradiction|]. reflexivity.
  - rewrite <- app_comm_cons, join_cons, IH by discriminate.
    rewrite (join_cons sep x (x' :: xs)).
    cbn [app]. rewrite <- !app_assoc. reflexivity.
Qed.

(** ** The import relocator when no signature is found *)



(** ** The name formatter *)

Lemma replace_underscore (s : str) :
  replace (py "_") (py " ") s = map underscore_to_space s.
Proof.
  unfold replace.
  change (py "_") with ["_"%char]. change (py " ") with [" "%char].
  induction s as [|c t IH]; [reflexivity|].
  cbn [replace_from starts_with map List.length Nat.sub].
  unfold underscore_to_space at 1.
  replace (eqc "_" c) with (eqc c "_") by apply Ascii.eqb_sym.
  destruct (eqc c "_"); cbn [andb app]; rewrite IH; reflexivity.
Qed.

(** C4: the name formatter is the function of the specification on every
    text, the empty one included, and gives the documented label on
    [data_wrangler]. *)
Theorem format_agent_name_spec :
  (forall s, format_agent_name s = spec_format_name s)
  /\ format_agent_name (py "data_wrangler") = py "---DATA WRANGLER----"
  /\ format_agent_name [] = py "-------".
Proof.
  split; [|split; vm_compute; reflexivity].
  intro s. unfold format_agent_name, spec_format_name, upper.
  rewrite replace_underscore. reflexivity.
Qed.

(** ** The header annotator *)

Lemma starts_with_app (p s : str) : starts_with p (p ++ s) = true.
Proof. induction p as [|c p IH]; [reflexivity|]. simpl. rewrite eqc_refl. exact IH. Qed.

Lemma is_digit_digit (n : nat) : is_digit (digit n) = true.
Proof.
  unfold is_digit, digit, code.
  assert (Hlt : n mod 10 < 10) by (apply Nat.mod_upper_bound; discriminate).
  rewrite nat_ascii_embedding by lia.
  apply andb_true_iff. split; apply Nat.leb_le; lia.
Qed.

Lemma strftime_shape (d : datetime) : is_timestamp (strftime d) = true.
Proof.
  unfold strftime, pad4, pad2. cbn [app unescape is_timestamp forallb].
  rewrite !is_digit_digit. reflexivity.
Qed.

Lemma add_comments_to_top_text (now : datetime) (code_text agent_name : str) :
  add_comments_to_top now code_text agent_name
  = disclaimer ++ py "\n"
    ++ (py "# Agent Name: " ++ agent_name) ++ py "\n"
    ++ (py "# Time Created: " ++ strftime now) ++ py "\n"
    ++ py "\n"
    ++ code_text.
Proof.
  unfold add_comments_to_top. cbn [join]. rewrite app_nil_r.
  rewrite <- !app_assoc. reflexivity.
Qed.

(** ** The report summarizer *)

Lemma join_middle (sep x : str) (l1 l2 : list str) :
  join sep (l1 ++ x :: l2)
  = List.concat (map (fun y => y ++ sep) l1) ++ join sep (x :: l2).
Proof.
  induction l1 as [|y l1 IH]; [reflexivity|].
  rewrite <- app_comm_cons, join_cons.
  destruct (l1 ++ x :: l2) eqn:E.
  - destruct l1; discriminate.
  - rewrite IH. cbn [map List.concat]. rewrite <- !app_assoc. reflexivity.
Qed.

Section Summary.

Context {V : Type} `{PyStr V}.

Lemma summary_turn_render (code_lang : str) (lines : list str) (item : str * V) :
  summary_turn code_lang lines item
  = lines ++ (if not_title item then render code_lang item else []).
Proof.
  destruct item as [key value]. unfold summary_turn, not_title, render.
  cbn [fst snd]. destruct (str_eqb key title_key); cbn [negb].
  - rewrite app_nil_r. reflexivity.
  - destruct (is_code_key key); rewrite <- app_assoc; reflexivity.
Qed.

Lemma summary_fold (code_lang : str) (d : dict V) (lines : list str) :
  fold_left (summary_turn code_lang) d lines
  = lines ++ flat_map (render code_lang) (filter not_title d).
Proof.
  revert lines. induction d as [|item d IH]; intro lines; cbn [fold_left filter].
  - cbn. rewrite app_nil_r. reflexivity.
  - rewrite IH, summary_turn_render.
    destruct (not_title item); cbn [flat_map].
    + rewrite <- app_assoc. reflexivity.
    + rewrite app_nil_r. reflexivity.
Qed.

Lemma summary_lines_spec (d : dict V) (code_lang : str) :
  summary_lines d code_lang = spec_summary_lines d code_lang.
Proof.
  unfold summary_lines, spec_summary_lines. rewrite summary_fold. reflexivity.
Qed.

Lemma not_title_true (key : str) (value : V) :
  key <> title_key -> not_title (key, value) = true.
Proof.
  intro N. unfold not_title. cbn [fst].
  apply str_eqb_neq in N. rewrite N. reflexivity.
Qed.

Lemma summary_code_section (d : dict V) (code_lang key : str) (value : V)
  (Hin : In (key, value) d) (Hkey : key <> title_key)
  (Hcode : is_code_key key = true) :
  exists before after,
    get_generic_summary d code_lang
    = (py "# " ++ summary_title d) ++ py "\n" ++ before
      ++ section_heading key ++ py "\n"
      ++ (py "```" ++ code_lang ++ py "\n" ++ py_str value ++ py "\n```")
      ++ after.
Proof.
  apply in_split in Hin as (d1 & d2 & ->).
  unfold get_generic_summary. rewrite summary_lines_spec.
  unfold spec_summary_lines. fold (summary_title (d1 ++ (key, value) :: d2)).
  rewrite filter_app. cbn [filter]. rewrite not_title_true by assumption.
  rewrite flat_map_app. cbn [flat_map].
  unfold render at 2. cbn [fst snd]. rewrite Hcode. cbn [app].
  set (L1 := flat_map (render code_lang) (filter not_title d1)).
  set (L2 := flat_map (render code_lang) (filter not_title d2)).
  exists (List.concat (map (fun y => y ++ [nl]) L1)).
  exists (match L2 with [] => [] | _ :: _ => [nl] ++ join [nl] L2 end).
  rewrite join_cons.
  destruct (L1 ++ section_heading key :: fence code_lang (py_str value) :: L2) eqn:E.
  { destruct L1; discriminate. }
  rewrite <- E. rewrite join_middle, join_cons, join_cons.
  unfold fence. change (py "\n") with [nl].
  rewrite <- !app_assoc. reflexivity.
Qed.

End Summary.

(** C8: an item whose key, lower-cased, contains [code] or [function] and
    is not the title's is rendered as its heading followed by its value
    inside a fence tagged with the language, after the title heading; the
    documented report gives the documented text. *)
Theorem summary_code_fenced :
  (forall (V : Type) (P : PyStr V) (d : dict V) (code_lang key : str) (value : V),
      In (key, value) d -> key <> title_key -> is_code_key key = true ->
      exists before after,
        get_generic_summary d code_lang
        = (py "# " ++ summary_title d) ++ py "\n" ++ before
          ++ section_heading key ++ py "\n"
          ++ (py "```" ++ code_lang ++ py "\n" ++ py_str value ++ py "\n```")
          ++ after)
  /\ (forall key, is_code_key key
                  = contains (py "code") (lower key)
                    || contains (py "function") (lower key))
  /\ get_generic_summary
       [(py "report_title", py "X"); (py "my_code", py "print(1)")] default_lang
     = py "# X\n\n## ---MY CODE----\n```python\nprint(1)\n```".
Proof.
  split; [|split].
  - intros V P d code_lang key value Hin Hkey Hcode.
    apply summary_code_section; assumption.
  - reflexivity.
  - vm_compute. reflexivity.
Qed.

Lemma summary_code_fenced_witness :
  exists before after,
    get_generic_summary
      [(py "report_title", py "X"); (py "my_code", py "print(1)")] default_lang
    = (py "# " ++ py "X") ++ py "\n" ++ before
      ++ section_heading (py "my_code") ++ py "\n"
      ++ (py "```" ++ default_lang ++ py "\n" ++ py "print(1)" ++ py "\n```")
      ++ after.
Proof.
  apply (proj1 summary_code_fenced str PyStr_str
           [(py "report_title", py "X"); (py "my_code", py "print(1)")]
           default_lang (py "my_code") (py "print(1)")).
  - right. left. reflexivity.
  - intro E. apply str_eqb_eq in E. vm_compute in E. discriminate.
  - vm_compute. reflexivity.
Defined.


(** ** The import relocator when there is no import *)

Lemma sub_no_match (r : re) (repl s : str) : finditer r s = [] -> sub r repl s = s.
Proof. unfold sub. intros ->. reflexivity. Qed.

Lemma findall_nil (r : re) (s : str) : findall r s = [] -> finditer r s = [].
Proof. unfold findall. apply map_eq_nil. Qed.

Lemma upto_from (n : nat) (s : str) : upto n s ++ from n s = s.
Proof. apply firstn_skipn. Qed.

Lemma insert_length (n : nat) (x s : str) :
  List.length (upto n s ++ x ++ from n s) = List.length s + List.length x.
Proof.
  rewrite !length_app. rewrite <- (upto_from n s) at 3. rewrite length_app. lia.
Qed.

Lemma relocate_signature_no_import (code_text : str) (m : found) :
  findall import_pattern code_text = [] ->
  search function_pattern (strip code_text) = Some m ->
  relocate_imports_inside_function code_text
  = upto (m_end m) (strip code_text) ++ py "\n    " ++ from (m_end m) (strip code_text).
Proof.
  intros Himp Hdef. unfold relocate_imports_inside_function, code_without_imports.
  rewrite (@sub_no_match import_pattern [] code_text (@findall_nil _ _ Himp)), Hdef, Himp.
  cbn [join]. unfold indent. rewrite app_nil_r. reflexivity.
Qed.




(** ** Trimming and lines *)

Lemma dropWhile_snoc (p : ascii -> bool) (a : str) (c : ascii) :
  dropWhile p (a ++ [c])
  = if forallb p a then (if p c then [] else [c]) else dropWhile p a ++ [c].
Proof.
  induction a as [|x a IH]; cbn [app dropWhile forallb].
  - destruct (p c); reflexivity.
  - destruct (p x); cbn [andb]; [exact IH | reflexivity].
Qed.

Lemma rstrip_cons (c : ascii) (t : str) :
  rstrip (c :: t)
  = if forallb isspace (rev t) then (if isspace c then [] else [c])
    else c :: rstrip t.
Proof.
  unfold rstrip. cbn [rev]. rewrite dropWhile_snoc.
  destruct (forallb isspace (rev t)).
  - destruct (isspace c); reflexivity.
  - rewrite rev_app_distr. reflexivity.
Qed.

Lemma dropWhile_head (p : ascii -> bool) (s : str) (c : ascii) (t : str) :
  dropWhile p s = c :: t -> p c = false.
Proof.
  induction s as [|x s IH]; cbn [dropWhile]; [discriminate|].
  destruct (p x) eqn:E; [exact IH|]. intro Hx. injection Hx as -> _. exact E.
Qed.

Lemma strip_head (s : str) (c : ascii) (t : str) :
  strip s = c :: t -> isspace c = false.
Proof.
  unfold strip, lstrip. destruct (dropWhile isspace s) as [|c0 t0] eqn:E.
  - discriminate.
  - apply dropWhile_head in E. rewrite rstrip_cons.
    rewrite E. destruct (forallb isspace (rev t0)); intro Hx; injection Hx as -> _; exact E.
Qed.

Lemma strip_cons_nonspace (c : ascii) (t : str) :
  isspace c = false -> strip (c :: t) <> [].
Proof.
  intro E. unfold strip, lstrip. cbn [dropWhile]. rewrite E, rstrip_cons, E.
  destruct (forallb isspace (rev t)); discriminate.
Qed.

Lemma split_nonempty (sep : ascii) (s : str) : split sep s <> [].
Proof.
  destruct s as [|c t]; cbn [split]; [discriminate|].
  destruct (eqc c sep); [discriminate|]. destruct (split sep t); discriminate.
Qed.

Lemma split_cons_other (sep c : ascii) (t : str) :
  c <> sep ->
  exists l ls, split sep t = l :: ls /\ split sep (c :: t) = (c :: l) :: ls.
Proof.
  intro N. cbn [split]. apply eqc_neq in N. rewrite N.
  destruct (split sep t) as [|l ls] eqn:E.
  - exfalso. exact (split_nonempty _ _ E).
  - exists l, ls. split; reflexivity.
Qed.

Lemma split_no_sep (sep : ascii) (s : str) :
  Forall (fun l => ~ In sep l) (split sep s).
Proof.
  induction s as [|c t IH]; cbn [split].
  - constructor; [intros []|constructor].
  - destruct (eqc c sep) eqn:E.
    + constructor; [intros []|exact IH].
    + apply eqc_neq in E. destruct (split sep t) as [|l ls].
      * constructor; [|constructor]. intros [H|[]]. congruence.
      * inversion IH as [|? ? Hl Hls]; subst. constructor; [|exact Hls].
        intros [H|H]; [congruence|contradiction].
Qed.

Lemma split_one (sep : ascii) (a : str) : ~ In sep a -> split sep a = [a].
Proof.
  induction a as [|c a IH]; intro N; [reflexivity|].
  cbn [split]. destruct (eqc c sep) eqn:E.
  - apply eqc_eq in E. subst. exfalso. apply N. left. reflexivity.
  - rewrite IH; [reflexivity|]. intro H. apply N. right. exact H.
Qed.

Lemma split_app_sep (sep : ascii) (a b : str) :
  ~ In sep a -> split sep (a ++ sep :: b) = a :: split sep b.
Proof.
  induction a as [|c a IH]; intro N; cbn [app split].
  - rewrite eqc_refl. reflexivity.
  - destruct (eqc c sep) eqn:E.
    + apply eqc_eq in E. subst. exfalso. apply N. left. reflexivity.
    + rewrite IH; [reflexivity|]. intro H. apply N. right. exact H.
Qed.

Lemma split_join (sep : ascii) (ls : list str) :
  Forall (fun l => ~ In sep l) ls -> ls <> [] -> split sep (join [sep] ls) = ls.
Proof.
  induction ls as [|x ls IH]; intros F N; [contradiction|].
  inversion F as [|? ? Hx Hls]; subst.
  destruct ls as [|y ls].
  - cbn [join]. apply split_one. exact Hx.
  - rewrite join_cons. cbn [app]. rewrite split_app_sep by exact Hx.
    rewrite IH; [reflexivity | exact Hls | discriminate].
Qed.

(** After [strip] the loop over the empty lines at the start has nothing
    to pop, unless the whole text is blank. *)
Lemma pop_blank_stripped (raw_text : str) :
  pop_blank (split nl (strip raw_text))
  = if is_empty (strip raw_text) then [] else split nl (strip raw_text).
Proof.
  destruct (strip raw_text) as [|c t] eqn:E; [reflexivity|].
  cbn [is_empty]. apply strip_head in E.
  assert (N : c <> nl) by (intros ->; discriminate).
  destruct (split_cons_other t N) as (l & ls & _ & ->).
  cbn [pop_blank].
  destruct (strip (c :: l)) eqn:S; [|reflexivity].
  exfalso. exact (@strip_cons_nonspace c l E S).
Qed.

(** ** The header annotator, line by line *)

Lemma digit_not_nl (n : nat) : digit n <> nl.
Proof.
  intro E. pose proof (is_digit_digit n) as D. rewrite E in D. discriminate D.
Qed.

Lemma strftime_one_line (d : datetime) : ~ In nl (strftime d).
Proof.
  unfold strftime, pad4, pad2. cbn [app unescape In]. intro H.
  repeat (destruct H as [H|H];
          [first [exact (@digit_not_nl _ H) | discriminate H]|]).
  exact H.
Qed.

(** X14: for an agent name on one line, the lines of the annotated text
    are the disclaimer, the agent line, the time line, an empty line, then
    the lines of the code. *)
Lemma add_comments_to_top_lines (now : datetime) (code_text agent_name : str) :
  ~ In nl agent_name ->
  split nl (add_comments_to_top now code_text agent_name)
  = disclaimer
    :: (py "# Agent Name: " ++ agent_name)
    :: (py "# Time Created: " ++ strftime now)
    :: [] :: split nl code_text.
Proof.
  intro Hagent.
  rewrite add_comments_to_top_text. change (py "\n") with [nl]. cbn [app].
  rewrite split_app_sep
    by (intro H; vm_compute in H;
        repeat (destruct H as [H|H]; [discriminate H|]); exact H).
  rewrite split_app_sep.
  2:{ intro H. apply in_app_or in H as [H|H]; [|exact (Hagent H)].
      vm_compute in H. repeat (destruct H as [H|H]; [discriminate H|]). exact H. }
  rewrite split_app_sep.
  2:{ intro H. apply in_app_or in H as [H|H]; [|exact (@strftime_one_line now H)].
      vm_compute in H. repeat (destruct H as [H|H]; [discriminate H|]). exact H. }
  cbn [split]. rewrite eqc_refl. reflexivity.
Qed.

Lemma add_comments_to_top_lines_witness :
  split nl (add_comments_to_top (DateTime 2024 3 7 9 5 0)
              (py "def f():\n    pass") default_agent_name)
  = disclaimer
    :: (py "# Agent Name: " ++ default_agent_name)
    :: (py "# Time Created: " ++ strftime (DateTime 2024 3 7 9 5 0))
    :: [] :: split nl (py "def f():\n    pass").
Proof.
  apply add_comments_to_top_lines.
  intro H. vm_compute in H. repeat (destruct H as [H|H]; [discriminate H|]). exact H.
Defined.

(** C7, as the claim states it, fails for an agent name that holds a
    newline: the name spreads over two lines, so no line of the output is
    the agent line of the claim, and the third line is the rest of the
    name, not the time line. *)
Lemma add_comments_to_top_newline_name :
  split nl (add_comments_to_top (DateTime 2024 3 7 9 5 0) (py "x = 1") (py "a\nb"))
  = [ py "# Disclaimer: This function was generated by AI. Please review before using.";
      py "# Agent Name: a";
      py "b";
      py "# Time Created: 2024-03-07 09:05:00";
      [];
      py "x = 1" ]
  /\ ~ In (py "# Agent Name: a\nb")
         (split nl (add_comments_to_top (DateTime 2024 3 7 9 5 0) (py "x = 1")
                      (py "a\nb"))).
Proof.
  split; [vm_compute; reflexivity|].
  intro H. vm_compute in H.
  repeat (destruct H as [H|H]; [discriminate H|]). exact H.
Qed.

(** C7 (amended): for an agent name without newline, the annotated text is
    the disclaimer as written in the source, a newline, the agent line, a
    newline, the time line, two newlines and the code as it was given;
    its lines are the disclaimer line, the agent line, the time line, one
    empty line and the lines of the code; and the time has the shape
    [YYYY-MM-DD HH:MM:SS]. *)
Theorem add_comments_to_top_header (now : datetime) (code_text agent_name : str)
  (Hagent : ~ In nl agent_name) :
  add_comments_to_top now code_text agent_name
  = py "# Disclaimer: This function was generated by AI. Please review before using.\n"
    ++ py "# Agent Name: " ++ agent_name ++ py "\n"
    ++ py "# Time Created: " ++ strftime now ++ py "\n"
    ++ py "\n"
    ++ code_text
  /\ split nl (add_comments_to_top now code_text agent_name)
     = py "# Disclaimer: This function was generated by AI. Please review before using."
       :: (py "# Agent Name: " ++ agent_name)
       :: (py "# Time Created: " ++ strftime now)
       :: [] :: split nl code_text
  /\ is_timestamp (strftime now) = true.
Proof.
  assert (E : add_comments_to_top now code_text agent_name
              = py "# Disclaimer: This function was generated by AI. Please review before using."
                ++ nl :: (py "# Agent Name: " ++ agent_name)
                ++ nl :: (py "# Time Created: " ++ strftime now)
                ++ nl :: nl :: code_text).
  { rewrite add_comments_to_top_text. unfold disclaimer.
    change (py "\n") with [nl]. rewrite <- !app_assoc. reflexivity. }
  split; [|split; [|apply strftime_shape]].
  - rewrite E. cbn [unescape app]. rewrite <- ?app_assoc. reflexivity.
  - rewrite E.
    rewrite split_app_sep
      by (intro H; vm_compute in H;
          repeat (destruct H as [H|H]; [discriminate H|]); exact H).
    rewrite split_app_sep.
    2:{ intro H. apply in_app_or in H as [H|H]; [|exact (Hagent H)].
        vm_compute in H. repeat (destruct H as [H|H]; [discriminate H|]). exact H. }
    rewrite split_app_sep.
    2:{ intro H. apply in_app_or in H as [H|H]; [|exact (@strftime_one_line now H)].
        vm_compute in H. repeat (destruct H as [H|H]; [discriminate H|]). exact H. }
    cbn [split]. rewrite eqc_refl. reflexivity.
Qed.

Lemma add_comments_to_top_header_witness :
  add_comments_to_top (DateTime 2024 3 7 9 5 0) (py "def f():\n    pass") (py "data_wrangler")
  = py "# Disclaimer: This function was generated by AI. Please review before using.\n# Agent Name: data_wrangler\n# Time Created: 2024-03-07 09:05:00\n\ndef f():\n    pass"
  /\ split nl (add_comments_to_top (DateTime 2024 3 7 9 5 0) (py "def f():\n    pass")
                 (py "data_wrangler"))
     = [ py "# Disclaimer: This function was generated by AI. Please review before using.";
         py "# Agent Name: data_wrangler";
         py "# Time Created: 2024-03-07 09:05:00";
         [];
         py "def f():";
         py "    pass" ]
  /\ is_timestamp (py "2024-03-07 09:05:00") = true.
Proof.
  apply (@add_comments_to_top_header (DateTime 2024 3 7 9 5 0) (py "def f():\n    pass")
           (py "data_wrangler")).
  intro H. vm_compute in H. repeat (destruct H as [H|H]; [discriminate H|]). exact H.
Defined.

(** ** The step-list normalizer *)

Section Steps.

Variable heading : str.

Lemma steps_fold (lines : list str) (seen : bool) (acc : list str) :
  fold_left (steps_turn heading) lines (seen, acc)
  = (seen || existsb (is_heading heading) lines,
     acc ++ if seen then filter (other_line heading) lines
            else keep_first heading lines).
Proof.
  revert seen acc. induction lines as [|l t IH]; intros seen acc.
  - cbn. rewrite orb_false_r. destruct seen; rewrite app_nil_r; reflexivity.
  - cbn [fold_left steps_turn existsb filter keep_first].
    unfold other_line at 1.
    change (str_eqb (strip l) heading) with (is_heading heading l).
    destruct (is_heading heading l) eqn:E; cbn [negb].
    + destruct seen.
      * rewrite IH. reflexivity.
      * rewrite IH. cbn [orb]. rewrite <- app_assoc. reflexivity.
    + rewrite IH. cbn [orb]. rewrite <- app_assoc.
      destruct seen; reflexivity.
Qed.

Lemma steps_lines_eq (raw_text : str) :
  let lines := pop_blank (split nl (strip raw_text)) in
  steps_lines raw_text heading
  = (if existsb (is_heading heading) lines then [] else [heading])
    ++ keep_first heading lines.
Proof.
  intro lines. unfold steps_lines. fold lines. rewrite steps_fold.
  cbn [orb app]. destruct (existsb (is_heading heading) lines); reflexivity.
Qed.

Lemma keep_first_absent (lines : list str) :
  existsb (is_heading heading) lines = false -> keep_first heading lines = lines.
Proof.
  induction lines as [|l t IH]; [reflexivity|].
  cbn [existsb keep_first]. intro E. apply orb_false_iff in E as [E1 E2].
  rewrite E1, IH by exact E2. reflexivity.
Qed.

Lemma filter_heading_others (lines : list str) :
  filter (is_heading heading) (filter (other_line heading) lines) = [].
Proof.
  induction lines as [|l t IH]; [reflexivity|].
  cbn [filter]. unfold other_line at 1.
  destruct (is_heading heading l) eqn:E; cbn [negb filter]; [exact IH|].
  rewrite E. exact IH.
Qed.

Lemma filter_others_others (lines : list str) :
  filter (other_line heading) (filter (other_line heading) lines)
  = filter (other_line heading) lines.
Proof.
  induction lines as [|l t IH]; [reflexivity|].
  cbn [filter]. destruct (other_line heading l) eqn:E; [|exact IH].
  cbn [filter]. rewrite E, IH. reflexivity.
Qed.

(** The lines that are not heading lines all stay, as they are and in
    their order. *)
Lemma keep_first_others (lines : list str) :
  filter (other_line heading) (keep_first heading lines)
  = filter (other_line heading) lines.
Proof.
  induction lines as [|l t IH]; [reflexivity|].
  cbn [keep_first]. destruct (is_heading heading l) eqn:E.
  - assert (O : other_line heading l = false)
      by (unfold other_line; rewrite E; reflexivity).
    cbn [filter]. rewrite O. apply filter_others_others.
  - assert (O : other_line heading l = true)
      by (unfold other_line; rewrite E; reflexivity).
    cbn [filter]. rewrite O, IH. reflexivity.
Qed.

(** Of the heading lines only the first stays. *)
Lemma keep_first_headings (lines : list str) :
  filter (is_heading heading) (keep_first heading lines)
  = firstn 1 (filter (is_heading heading) lines).
Proof.
  induction lines as [|l t IH]; [reflexivity|].
  cbn [keep_first]. destruct (is_heading heading l) eqn:E.
  - cbn [filter]. rewrite E, filter_heading_others. reflexivity.
  - cbn [filter]. rewrite E. exact IH.
Qed.

Lemma exists_filter_nonempty (lines : list str) :
  existsb (is_heading heading) lines = true ->
  filter (is_heading heading) lines <> [].
Proof.
  induction lines as [|l t IH]; [discriminate|].
  cbn [existsb filter]. destruct (is_heading heading l); [discriminate|exact IH].
Qed.

Lemma absent_filter_empty (lines : list str) :
  existsb (is_heading heading) lines = false ->
  filter (is_heading heading) lines = [].
Proof.
  induction lines as [|l t IH]; [reflexivity|].
  cbn [existsb filter]. destruct (is_heading heading l); [discriminate|exact IH].
Qed.

Lemma keep_first_no_sep (lines : list str) :
  Forall (fun l => ~ In nl l) lines ->
  Forall (fun l => ~ In nl l) (keep_first heading lines).
Proof.
  induction lines as [|l t IH]; intro F; [constructor|].
  inversion F as [|? ? Hl Ht]; subst. cbn [keep_first].
  destruct (is_heading heading l); constructor; try exact Hl.
  - apply Forall_forall. intros x Hx. apply filter_In in Hx as [Hx _].
    rewrite Forall_forall in Ht. exact (Ht x Hx).
  - exact (IH Ht).
Qed.

Lemma pop_blank_no_sep (lines : list str) :
  Forall (fun l => ~ In nl l) lines ->
  Forall (fun l => ~ In nl l) (pop_blank lines).
Proof.
  induction lines as [|l t IH]; intro F; [constructor|].
  cbn [pop_blank]. destruct (is_empty (strip l)); [|exact F].
  inversion F; subst. apply IH. assumption.
Qed.

Lemma steps_lines_split (raw_text : str) :
  ~ In nl heading ->
  split nl (format_recommended_steps raw_text heading)
  = match steps_lines raw_text heading with
    | [] => [[]]
    | l :: ls => l :: ls
    end.
Proof.
  intro Hnl. unfold format_recommended_steps.
  destruct (steps_lines raw_text heading) as [|l ls] eqn:E; [reflexivity|].
  apply split_join; [|discriminate].
  rewrite <- E, steps_lines_eq.
  apply Forall_app. split.
  - destruct (existsb _ _); constructor; [exact Hnl|constructor].
  - apply keep_first_no_sep, pop_blank_no_sep, split_no_sep.
Qed.

End Steps.

(** C5, as amended: for a heading without newline and without white space
    at its ends, exactly one line of the output is a heading line; when
    the trimmed text has heading lines its first one stays in place and
    the later ones go, and when it has none the heading becomes the first
    line. *)
Theorem steps_heading_once (raw_text heading : str)
  (Hnl : ~ In nl heading) (Htrim : strip heading = heading) :
  let lines := pop_blank (split nl (strip raw_text)) in
  let out := split nl (format_recommended_steps raw_text heading) in
  count_heading heading out = 1
  /\ (existsb (is_heading heading) lines = true -> out = keep_first heading lines)
  /\ (existsb (is_heading heading) lines = false -> out = heading :: lines).
Proof.
  intros lines out.
  assert (Hout : out = match steps_lines raw_text heading with
                       | [] => [[]] | l :: ls => l :: ls end)
    by (apply steps_lines_split; exact Hnl).
  assert (Hsl := steps_lines_eq heading raw_text). cbn zeta in Hsl. fold lines in Hsl.
  assert (Hh : is_heading heading heading = true).
  { unfold is_heading. rewrite Htrim. apply str_eqb_refl. }
  destruct (existsb (is_heading heading) lines) eqn:Ex.
  - cbn [app] in Hsl.
    assert (Hne : keep_first heading lines <> []).
    { intro C. apply (exists_filter_nonempty _ _ Ex).
      assert (K := keep_first_headings heading lines). rewrite C in K. cbn in K.
      destruct (filter (is_heading heading) lines); [reflexivity|discriminate]. }
    assert (Hk : out = keep_first heading lines).
    { rewrite Hout, Hsl. destruct (keep_first heading lines); [contradiction|reflexivity]. }
    split; [|split; [intros _; exact Hk|discriminate]].
    unfold count_heading. rewrite Hk, keep_first_headings.
    assert (F := exists_filter_nonempty _ _ Ex).
    destruct (filter (is_heading heading) lines); [contradiction|reflexivity].
  - cbn [app] in Hsl. rewrite (keep_first_absent _ _ Ex) in Hsl.
    assert (Hk : out = heading :: lines) by (rewrite Hout, Hsl; reflexivity).
    split; [|split; [discriminate|intros _; exact Hk]].
    unfold count_heading. rewrite Hk. cbn [filter]. rewrite Hh.
    rewrite (absent_filter_empty _ _ Ex). reflexivity.
Qed.

Lemma steps_heading_once_witness :
  let raw_text := py "\n  intro\n# Recommended Steps:\n1. a\n # Recommended Steps: \n2. b\n\n" in
  ~ In nl default_heading
  /\ strip default_heading = default_heading
  /\ format_recommended_steps raw_text default_heading
     = py "intro\n# Recommended Steps:\n1. a\n2. b"
  /\ count_heading default_heading
       (split nl (format_recommended_steps raw_text default_heading)) = 1.
Proof.
  intro raw_text.
  assert (Hnl : ~ In nl default_heading).
  { intro H. vm_compute in H. repeat (destruct H as [H|H]; [discriminate H|]). exact H. }
  assert (Htrim : strip default_heading = default_heading) by (vm_compute; reflexivity).
  split; [exact Hnl|]. split; [exact Htrim|]. split; [vm_compute; reflexivity|].
  exact (proj1 (@steps_heading_once raw_text default_heading Hnl Htrim)).
Defined.

(** C5, as stated, fails: a heading with white space at an end is put in
    front and no line of the output is a heading line; and with the empty
    heading a text whose lines after the first are blank gets the heading
    in front instead of keeping its first blank line in place. *)
Lemma steps_heading_not_once :
  count_heading (py " # H") (split nl (format_recommended_steps (py "x") (py " # H"))) = 0
  /\ existsb (is_heading []) (split nl (py "x\n\n")) = true
  /\ format_recommended_steps (py "x\n\n") [] = py "\nx".
Proof. repeat split; vm_compute; reflexivity. Qed.

(** C6, as amended: the text is trimmed as a whole first, then split into
    lines; of those lines only the heading lines after the first are
    dropped, all the others stay as they are and in their order, and the
    heading is put in front when no line is a heading line. *)
Theorem steps_frame (raw_text heading : str) :
  let lines := if is_empty (strip raw_text) then [] else split nl (strip raw_text) in
  steps_lines raw_text heading
  = (if existsb (is_heading heading) lines then [] else [heading])
    ++ keep_first heading lines
  /\ format_recommended_steps raw_text heading
     = join [nl] ((if existsb (is_heading heading) lines then [] else [heading])
                  ++ keep_first heading lines)
  /\ filter (other_line heading) (keep_first heading lines)
     = filter (other_line heading) lines
  /\ filter (is_heading heading) (keep_first heading lines)
     = firstn 1 (filter (is_heading heading) lines).
Proof.
  intro lines.
  assert (E : steps_lines raw_text heading
              = (if existsb (is_heading heading) lines then [] else [heading])
                ++ keep_first heading lines).
  { rewrite steps_lines_eq. rewrite pop_blank_stripped. reflexivity. }
  split; [exact E|]. split; [unfold format_recommended_steps; rewrite E; reflexivity|].
  split; [apply keep_first_others | apply keep_first_headings].
Qed.

(** C6, as stated, fails: the white space before the first line and the
    blank lines at the end are removed, where the specification keeps
    them. *)
Lemma steps_trailing_blank_lines_lost :
  format_recommended_steps (py "  a\n\n") default_heading
  = py "# Recommended Steps:\na"
  /\ join [nl] (spec_steps_lines (py "  a\n\n") default_heading)
     = py "# Recommended Steps:\n  a\n\n"
  /\ format_recommended_steps (py "  a\n\n") default_heading
     <> join [nl] (spec_steps_lines (py "  a\n\n") default_heading).
Proof.
  split; [vm_compute; reflexivity|]. split; [vm_compute; reflexivity|].
  intro C. vm_compute in C. discriminate C.
Qed.

(** ** Applying the import relocator twice *)


(** ** The matcher on texts that are partly unknown *)

Lemma step_char_hit p i pv c t g (k : cont) :
  p c = true -> step_char p (MState i pv (c :: t) g) k = k (MState (S i) (Some c) t g).
Proof. intro E. unfold step_char. cbn [rest pos grp]. rewrite E. reflexivity. Qed.

Lemma step_char_miss p i pv c t g (k : cont) :
  p c = false -> step_char p (MState i pv (c :: t) g) k = None.
Proof. intro E. unfold step_char. cbn [rest]. rewrite E. reflexivity. Qed.

Lemma orelse_left a b r : a = Some r -> orelse a b = Some r.
Proof. intros ->. reflexivity. Qed.

Ltac hit := rewrite step_char_hit by reflexivity; cbn beta; cbn [pos prev rest grp].

Lemma rep_greedy_cons p k g min i pv c t :
  rep true p k g min i pv (c :: t)
  = orelse (if p c then rep true p k g (Nat.pred min) (S i) (Some c) t else None)
           (fun _ => match min with 0 => k (MState i pv (c :: t) g) | S _ => None end).
Proof. reflexivity. Qed.

Lemma rep_greedy_stop p k g i pv s :
  match s with [] => True | c :: _ => p c = false end ->
  rep true p k g 0 i pv s = k (MState i pv s g).
Proof.
  destruct s as [|c t]; intro E; [reflexivity|].
  rewrite rep_greedy_cons, E. reflexivity.
Qed.

(** A greedy repetition that can take all of [x] and no more, and after
    which the rest of the pattern matches, takes all of [x]. *)
Lemma rep_greedy_all (p : ascii -> bool) (k : cont) (g : option (nat * nat))
    (x after : str) (r : mstate) :
  Forall (fun c => p c = true) x ->
  match after with [] => True | c :: _ => p c = false end ->
  forall min i pv,
    min <= List.length x ->
    k (MState (List.length x + i) (prev_after pv x) after g) = Some r ->
    rep true p k g min i pv (x ++ after) = Some r.
Proof.
  intros Hx Hafter. induction Hx as [|c x Hc Hx IH]; intros min i pv Hmin Hk.
  - cbn [app List.length Nat.add prev_after fold_left] in *.
    assert (min = 0) by lia. subst.
    rewrite rep_greedy_stop by exact Hafter. exact Hk.
  - cbn [app]. rewrite rep_greedy_cons, Hc.
    rewrite (IH (Nat.pred min) (S i) (Some c)); [reflexivity| cbn [List.length] in Hmin; lia |].
    cbn [List.length] in Hk. rewrite Nat.add_succ_r. exact Hk.
Qed.

(** A lazy repetition steps over [x] when the rest of the pattern cannot
    start at any character of [x] and matches after it. *)
Lemma rep_lazy_all (p : ascii -> bool) (k : cont) (g : option (nat * nat))
    (x after : str) (r : mstate) :
  Forall (fun c => p c = true) x ->
  (forall st c t, rest st = c :: t -> In c x -> k st = None) ->
  forall i pv,
    k (MState (List.length x + i) (prev_after pv x) after g) = Some r ->
    rep false p k g 0 i pv (x ++ after) = Some r.
Proof.
  intros Hx. induction Hx as [|c x Hc Hx IH]; intros Hk i pv Hend.
  - cbn [app List.length Nat.add prev_after fold_left] in *.
    destruct after; cbn [rep orelse]; rewrite Hend; reflexivity.
  - cbn [app rep].
    rewrite (Hk (MState i pv (c :: x ++ after) g) c (x ++ after));
      [|reflexivity|left; reflexivity].
    cbn [orelse]. rewrite Hc. cbn [Nat.pred]. apply IH.
    + intros st c' t E I. apply (Hk st c' t E). right. exact I.
    + cbn [List.length] in Hend. rewrite Nat.add_succ_r. exact Hend.
Qed.

Lemma nonspace_not_nl c : isspace c = false -> not_nl c = true.
Proof.
  intro E. unfold not_nl. destruct (eqc c nl) eqn:N; [|reflexivity].
  apply eqc_eq in N. subst. discriminate.
Qed.

Lemma not_nl_neq c : not_nl c = true <-> c <> nl.
Proof. unfold not_nl. rewrite negb_true_iff. apply eqc_neq. Qed.

Lemma word_nonspace c : isword c = true -> isspace c = false.
Proof.
  destruct c as [[] [] [] [] [] [] [] []]; vm_compute; congruence.
Qed.

Lemma prev_after_app pv x y : prev_after pv (x ++ y) = prev_after (prev_after pv x) y.
Proof. unfold prev_after. apply fold_left_app. Qed.

Lemma prev_after_not_nl c x :
  c <> nl -> Forall (fun a => not_nl a = true) x ->
  exists c', prev_after (Some c) x = Some c' /\ c' <> nl.
Proof.
  intros N F. revert c N. induction F as [|a x Ha F IH]; intros c N.
  - exists c. split; [reflexivity|exact N].
  - cbn [prev_after fold_left]. apply IH. apply not_nl_neq. exact Ha.
Qed.

(** ** The import pattern at one position *)

Lemma attempt_not_bol adv i c s :
  c <> nl -> attempt import_pattern adv i (Some c) s = None.
Proof.
  intro N. apply eqc_neq in N. unfold attempt, import_pattern.
  cbn [seq run at_bol prev]. rewrite N. reflexivity.
Qed.

Lemma attempt_at_def adv i pv s :
  attempt import_pattern adv i pv ("d"%char :: s) = None.
Proof.
  unfold attempt, import_pattern.
  cbn [seq lit unescape run plus star lazy_star app].
  destruct (at_bol _); [|reflexivity].
  cbn [pos prev rest grp].
  rewrite rep_greedy_stop by reflexivity. cbn beta.
  rewrite !step_char_miss by reflexivity. reflexivity.
Qed.

Lemma attempt_import_line i pv c0 m' c1 r :
  at_bol (MState i pv [] None) = true ->
  isspace c0 = false -> Forall (fun c => not_nl c = true) m' -> isspace c1 = false ->
  attempt import_pattern false i pv (py "import " ++ c0 :: m' ++ nl :: c1 :: r)
  = Some (Found i (i + List.length (import_line (c0 :: m')))
            (Some (i, i + List.length (import_line (c0 :: m'))))).
Proof.
  intros Hb H0 Hm H1.
  eassert (E : run import_pattern
                 (MState i pv (py "import " ++ c0 :: m' ++ nl :: c1 :: r) None)
                 (fun st => if false && (pos st =? i) then None else Some st) = Some _).
  { unfold import_pattern. cbn [seq lit unescape run plus star lazy_star app].
    change (at_bol _) with (at_bol (MState i pv [] None)). rewrite Hb.
    cbn [pos prev rest grp].
    apply (@rep_greedy_all space _ None [] _ _ (Forall_nil _)); [reflexivity|cbn; lia|].
    cbn beta. cbn [List.length Nat.add prev_after fold_left].
    apply orelse_left. do 6 hit.
    apply (@rep_greedy_all space _ None [" "%char] (c0 :: m' ++ nl :: c1 :: r));
      [repeat constructor | exact H0 | cbn; lia |].
    cbn beta. cbn [List.length Nat.add prev_after fold_left pos prev rest grp].
    apply (@rep_greedy_all not_nl _ None (c0 :: m') (nl :: c1 :: r));
      [constructor; [apply nonspace_not_nl; exact H0 | exact Hm]
      | reflexivity | cbn; lia |].
    cbn beta. cbn [pos prev rest grp].
    rewrite rep_greedy_cons. change (space nl) with true. cbv iota.
    rewrite rep_greedy_stop by exact H1.
    cbn beta. cbn [at_eol rest].
    replace (eqc c1 nl) with false
      by (symmetry; apply eqc_neq, not_nl_neq, nonspace_not_nl, H1).
    cbn [orelse at_eol rest pos andb]. rewrite eqc_refl. reflexivity. }
  unfold attempt. rewrite E. cbn [pos grp]. unfold import_line.
  cbn [unescape app List.length].
  replace (S (List.length m') + S (S (S (S (S (S (S i)))))))
    with (i + S (S (S (S (S (S (S (S (List.length m'))))))))) by lia.
  reflexivity.
Qed.

Lemma attempt_indented_import i c0 m' after :
  isspace c0 = false -> Forall (fun c => not_nl c = true) m' ->
  (after = [] \/ exists r, after = py "\n    i" ++ r) ->
  attempt import_pattern false i (Some nl) (py "    import " ++ c0 :: m' ++ after)
  = Some (Found i (i + 4 + List.length (import_line (c0 :: m')))
            (Some (i + 4, i + 4 + List.length (import_line (c0 :: m'))))).
Proof.
  intros H0 Hm Hafter.
  eassert (E : run import_pattern
                 (MState i (Some nl) (py "    import " ++ c0 :: m' ++ after) None)
                 (fun st => if false && (pos st =? i) then None else Some st) = Some _).
  { unfold import_pattern. cbn [seq lit unescape run plus star lazy_star app].
    change (at_bol _) with true. cbv iota. cbn [pos prev rest grp].
    apply (@rep_greedy_all space _ None (py "    ") _ _);
      [repeat constructor | reflexivity | cbn; lia |].
    cbn beta. cbn [unescape List.length Nat.add prev_after fold_left].
    apply orelse_left. do 6 hit.
    apply (@rep_greedy_all space _ None [" "%char] (c0 :: m' ++ after));
      [repeat constructor | exact H0 | cbn; lia |].
    cbn beta. cbn [List.length Nat.add prev_after fold_left pos prev rest grp].
    apply (@rep_greedy_all not_nl _ None (c0 :: m') after);
      [constructor; [apply nonspace_not_nl; exact H0 | exact Hm]
      | destruct Hafter as [->|[r ->]]; [exact I|reflexivity] | cbn; lia |].
    cbn beta. cbn [pos prev rest grp].
    destruct Hafter as [->|[r ->]].
    - rewrite rep_greedy_stop by exact I. reflexivity.
    - cbn [unescape app].
      do 5 (rewrite rep_greedy_cons; change (space _) with true; cbv iota).
      rewrite rep_greedy_stop by reflexivity.
      cbn. reflexivity. }
  unfold attempt. rewrite E. cbn [pos grp]. unfold import_line.
  cbn [unescape app List.length].
  replace (S (List.length m') + S (S (S (S (S (S (S (S (S (S (S i)))))))))))
    with (i + 4 + S (S (S (S (S (S (S (S (List.length m'))))))))) by lia.
  replace (S (S (S (S i)))) with (i + 4) by lia.
  reflexivity.
Qed.

(** ** Scanning for the matches *)

Lemma scan_at r i pv c t :
  scan r 0 i pv (c :: t)
  = match attempt r false i pv (c :: t) with
    | None => scan r 0 (S i) (Some c) t
    | Some m =>
        if m_end m =? i
        then m :: match attempt r true i pv (c :: t) with
                  | Some m' => m' :: scan r (m_end m' - i - 1) (S i) (Some c) t
                  | None => scan r 0 (S i) (Some c) t
                  end
        else m :: scan r (m_end m - i - 1) (S i) (Some c) t
    end.
Proof. reflexivity. Qed.

Lemma scan_skip r x after k i pv :
  scan r (List.length x + k) i pv (x ++ after)
  = scan r k (List.length x + i) (prev_after pv x) after.
Proof.
  revert i pv. induction x as [|c x IH]; intros i pv; [reflexivity|].
  cbn [List.length Nat.add app scan]. rewrite IH, Nat.add_succ_r. reflexivity.
Qed.

Lemma scan_end_not_bol i c : c <> nl -> scan import_pattern 0 i (Some c) [] = [].
Proof. intro N. cbn [scan]. rewrite attempt_not_bol by exact N. reflexivity. Qed.

(** The import pattern matches nowhere inside a line. *)
Lemma scan_inside_line x after i c :
  c <> nl -> Forall (fun a => not_nl a = true) x ->
  scan import_pattern 0 i (Some c) (x ++ after)
  = scan import_pattern 0 (List.length x + i) (prev_after (Some c) x) after.
Proof.
  intros N F. revert i c N. induction F as [|a x Ha F IH]; intros i c N; [reflexivity|].
  cbn [app]. rewrite scan_at, attempt_not_bol by exact N.
  rewrite IH by (apply not_nl_neq; exact Ha).
  cbn [List.length Nat.add prev_after fold_left]. rewrite Nat.add_succ_r. reflexivity.
Qed.

(** After a match that covers [c :: x] the scan goes on behind it. *)
Lemma scan_found r i pv c x after F :
  attempt r false i pv (c :: x ++ after) = Some F ->
  m_end F = i + S (List.length x) ->
  scan r 0 i pv (c :: x ++ after)
  = F :: scan r 0 (List.length x + S i) (prev_after (Some c) x) after.
Proof.
  intros A E. rewrite scan_at, A.
  replace (m_end F =? i) with false by (symmetry; apply Nat.eqb_neq; lia).
  replace (m_end F - i - 1) with (List.length x + 0) by lia.
  rewrite scan_skip. reflexivity.
Qed.

(** ** The family of texts without body *)

Lemma import_line_length m : List.length (import_line m) = 7 + List.length m.
Proof. unfold import_line. rewrite length_app. reflexivity. Qed.

Lemma module_text_inv m :
  is_module_text m = true ->
  exists c0 m', m = c0 :: m' /\ isspace c0 = false
                /\ Forall (fun c => not_nl c = true) m'.
Proof.
  destruct m as [|c0 m']; [discriminate|]. cbn [is_module_text]. intro H.
  apply andb_true_iff in H as [H0 Hm]. exists c0, m'.
  split; [reflexivity|]. split; [apply negb_true_iff; exact H0|].
  apply Forall_forall. rewrite forallb_forall in Hm. exact Hm.
Qed.

Lemma module_text_one_line m :
  is_module_text m = true -> Forall (fun c => not_nl c = true) m.
Proof.
  intro H. apply module_text_inv in H as (c0 & m' & -> & H0 & Hm).
  constructor; [apply nonspace_not_nl; exact H0|exact Hm].
Qed.

Section Bodyless.

Variables name params : str.
Hypothesis Hname : is_name name = true.
Hypothesis Hparams : forallb is_param_char params = true.

Local Abbreviation sig := (signature name params).

Lemma name_inv :
  exists c0 n', name = c0 :: n' /\ Forall (fun c => isword c = true) name.
Proof.
  unfold is_name in Hname. apply andb_true_iff in Hname as [H1 H2].
  destruct name as [|c0 n'] eqn:E; [discriminate|].
  exists c0, n'. split; [reflexivity|].
  apply Forall_forall. rewrite forallb_forall in H2. exact H2.
Qed.

Lemma params_inv :
  Forall (fun c => not_nl c = true) params
  /\ forall c, In c params -> eqc ")" c = false.
Proof.
  rewrite forallb_forall in Hparams. split.
  - apply Forall_forall. intros c Hc. apply Hparams in Hc.
    apply andb_true_iff in Hc as [Hc _]. exact Hc.
  - intros c Hc. apply Hparams in Hc. apply andb_true_iff in Hc as [_ Hc].
    apply negb_true_iff in Hc. unfold eqc in *. rewrite Ascii.eqb_sym. exact Hc.
Qed.

Lemma sig_head : exists t, sig = "d"%char :: t /\ Forall (fun c => not_nl c = true) t.
Proof.
  unfold sig, signature. cbn [unescape app]. eexists. split; [reflexivity|].
  destruct name_inv as (_ & _ & _ & Hn). destruct params_inv as [Hp _].
  repeat constructor. apply Forall_app. split.
  - eapply Forall_impl; [|exact Hn]. intros c Hc.
    apply nonspace_not_nl, word_nonspace, Hc.
  - constructor; [reflexivity|]. apply Forall_app. split; [exact Hp|].
    repeat constructor.
Qed.

Lemma sig_last : exists t, sig = t ++ [":"%char].
Proof.
  unfold sig, signature. exists (py "def " ++ name ++ py "(" ++ params ++ py ")").
  rewrite <- !app_assoc. reflexivity.
Qed.

(** No import is found in the signature line. *)
Lemma scan_sig after i pv :
  exists c, c <> nl
    /\ scan import_pattern 0 i pv (sig ++ after)
       = scan import_pattern 0 (List.length sig + i) (Some c) after.
Proof.
  destruct sig_head as (t & E & Ht). rewrite E.
  destruct (@prev_after_not_nl "d"%char t) as (c & Ec & Nc);
    [discriminate | exact Ht |].
  exists c. split; [exact Nc|].
  cbn [app]. rewrite scan_at, attempt_at_def.
  rewrite scan_inside_line by (try discriminate; exact Ht).
  rewrite Ec. cbn [List.length Nat.add]. rewrite Nat.add_succ_r. reflexivity.
Qed.

Lemma source_head modules :
  exists c r, source_lines modules ++ sig = c :: r /\ isspace c = false.
Proof.
  destruct modules as [|m t].
  - destruct sig_head as (r & E & _). exists "d"%char, r. split; [exact E|reflexivity].
  - unfold source_lines. cbn [map List.concat]. unfold import_line at 1.
    cbn [unescape app]. eexists _, _. split; reflexivity.
Qed.

Lemma source_lines_cons m modules :
  source_lines (m :: modules) ++ sig
  = import_line m ++ nl :: (source_lines modules ++ sig).
Proof.
  unfold source_lines. cbn [map List.concat]. rewrite <- !app_assoc. reflexivity.
Qed.

(** The matches in a source: one per import line, the line itself. *)
Lemma scan_source modules i pv :
  forallb is_module_text modules = true ->
  at_bol (MState i pv [] None) = true ->
  scan import_pattern 0 i pv (source_lines modules ++ sig) = source_founds i modules.
Proof.
  revert i pv. induction modules as [|m t IH]; intros i pv Hm Hb.
  - cbn [source_lines map List.concat app source_founds].
    destruct (scan_sig [] i pv) as (c & Nc & E).
    rewrite app_nil_r in E. rewrite E. apply scan_end_not_bol. exact Nc.
  - cbn [forallb] in Hm. apply andb_true_iff in Hm as [Hm Ht].
    destruct (module_text_inv _ Hm) as (c0 & m' & -> & H0 & Hm').
    destruct (source_head t) as (c1 & r & Er & H1).
    rewrite source_lines_cons, Er.
    assert (A := @attempt_import_line i pv c0 m' c1 r Hb H0 Hm' H1).
    change (import_line (c0 :: m') ++ nl :: c1 :: r)
      with ("i"%char :: (py "mport " ++ c0 :: m') ++ nl :: c1 :: r).
    rewrite (@scan_found import_pattern i pv "i"%char (py "mport " ++ c0 :: m')
               (nl :: c1 :: r) _ A)
      by (cbn [m_end]; rewrite import_line_length, length_app;
          cbn [unescape List.length]; lia).
    cbn [source_founds]. f_equal.
    destruct (@prev_after_not_nl "i"%char (py "mport " ++ c0 :: m')) as (c & Ec & Nc);
      [discriminate
      |repeat constructor; [apply nonspace_not_nl; exact H0|exact Hm'] |].
    rewrite Ec, scan_at, attempt_not_bol by exact Nc.
    rewrite <- Er, IH by (try exact Ht; reflexivity).
    f_equal. rewrite import_line_length, length_app.
    cbn [unescape List.length]. lia.
Qed.

Lemma firstn_length_app (x y : str) n : n = List.length x -> firstn n (x ++ y) = x.
Proof.
  intros ->. rewrite firstn_app, Nat.sub_diag, firstn_all. cbn. apply app_nil_r.
Qed.

Lemma skipn_length_app (x y : str) n : n = List.length x -> skipn n (x ++ y) = y.
Proof.
  intros ->. rewrite skipn_app, Nat.sub_diag, skipn_all. reflexivity.
Qed.

(** Taking the import lines out of a source leaves their newlines. *)
Lemma splice_source modules i j x :
  List.length x + j = i ->
  splice [] (source_founds i modules) j (x ++ source_lines modules ++ sig)
  = x ++ blank_lines modules ++ sig.
Proof.
  revert i j x. induction modules as [|m t IH]; intros i j x E; [reflexivity|].
  cbn [source_founds splice m_start m_end blank_lines map].
  rewrite source_lines_cons. unfold upto, from.
  rewrite firstn_length_app by lia.
  replace (x ++ import_line m ++ nl :: source_lines t ++ sig)
    with ((x ++ import_line m) ++ [nl] ++ source_lines t ++ sig)
    by (rewrite <- !app_assoc; reflexivity).
  rewrite skipn_length_app by (rewrite length_app; lia).
  rewrite IH by (cbn [List.length]; lia).
  reflexivity.
Qed.

Lemma findall_source modules i x :
  List.length x = i ->
  map (group1 (x ++ source_lines modules ++ sig)) (source_founds i modules)
  = map import_line modules.
Proof.
  revert i x. induction modules as [|m t IH]; intros i x E; [reflexivity|].
  cbn [source_founds map]. f_equal.
  - unfold group1. cbn [m_grp]. unfold upto, from.
    rewrite skipn_length_app by lia. rewrite source_lines_cons.
    apply firstn_length_app. lia.
  - rewrite source_lines_cons.
    replace (x ++ import_line m ++ nl :: source_lines t ++ sig)
      with ((x ++ import_line m ++ [nl]) ++ source_lines t ++ sig)
      by (rewrite <- !app_assoc; reflexivity).
    apply IH. rewrite !length_app. cbn [List.length]. lia.
Qed.

Lemma search_hit r i pv s F :
  attempt r false i pv s = Some F -> search_from r i pv s = Some F.
Proof. intro A. destruct s; cbn [search_from]; rewrite A; reflexivity. Qed.

Lemma sig_app after :
  sig ++ after
  = py "def " ++ name ++ "("%char :: params ++ ")"%char :: ":"%char :: after.
Proof. unfold sig, signature. rewrite <- !app_assoc. reflexivity. Qed.

(** The signature pattern matches the signature line, all of it. *)
Lemma search_sig after :
  match after with [] => True | c :: _ => c = nl end ->
  search function_pattern (sig ++ after)
  = Some (Found 0 (List.length sig) (Some (0, List.length sig))).
Proof.
  intro Hafter.
  destruct name_inv as (c0 & n' & En & Hn). destruct params_inv as [Hp Hclose].
  eassert (E : run function_pattern (MState 0 None (sig ++ after) None)
                 (fun st => if false && (pos st =? 0) then None else Some st) = Some _).
  { rewrite sig_app. unfold function_pattern.
    cbn [seq lit unescape run plus star lazy_star app pos prev rest grp].
    do 3 hit.
    apply (@rep_greedy_all space _ None [" "%char]
             (name ++ "("%char :: params ++ ")"%char :: ":"%char :: after));
      [repeat constructor
      | rewrite En in Hn |- *; apply word_nonspace; inversion Hn; assumption
      | cbn; lia |].
    cbn beta. cbn [List.length Nat.add prev_after fold_left pos prev rest grp].
    apply (@rep_greedy_all word _ None name
             ("("%char :: params ++ ")"%char :: ":"%char :: after));
      [exact Hn | reflexivity | rewrite En; cbn; lia |].
    cbn beta. cbn [pos prev rest grp].
    rewrite rep_greedy_stop by reflexivity. cbn beta. hit.
    apply (@rep_lazy_all not_nl _ None params (")"%char :: ":"%char :: after));
      [exact Hp | |].
    - intros st c t Est Hc. unfold step_char. rewrite Est.
      rewrite (Hclose c Hc). reflexivity.
    - cbn beta. do 2 hit. cbn [andb]. reflexivity. }
  unfold search. apply search_hit. unfold attempt. rewrite E. cbn [pos grp].
  replace (List.length sig)
    with (S (S (List.length params + S (List.length name + 4)))).
  - reflexivity.
  - unfold sig, signature. rewrite !length_app. cbn [unescape List.length]. lia.
Qed.

(** ** Trimming around a text *)

Lemma lstrip_spaces a y :
  Forall (fun c => isspace c = true) a -> lstrip (a ++ y) = lstrip y.
Proof.
  intro F. induction F as [|c a Hc F IH]; [reflexivity|].
  unfold lstrip in *. cbn [app dropWhile]. rewrite Hc. exact IH.
Qed.

Lemma rstrip_spaces y b :
  Forall (fun c => isspace c = true) b -> rstrip (y ++ b) = rstrip y.
Proof.
  intro F. unfold rstrip. rewrite rev_app_distr. f_equal.
  apply (@lstrip_spaces (rev b) (rev y)). apply Forall_rev. exact F.
Qed.

Lemma rstrip_nonspace y c : isspace c = false -> rstrip (y ++ [c]) = y ++ [c].
Proof.
  intro E. unfold rstrip. rewrite rev_app_distr. cbn [rev app dropWhile].
  rewrite E. cbn [rev]. rewrite rev_involutive. reflexivity.
Qed.

Lemma strip_core a c y c' b :
  Forall (fun c => isspace c = true) a -> Forall (fun c => isspace c = true) b ->
  isspace c = false -> isspace c' = false ->
  strip (a ++ (c :: y ++ [c']) ++ b) = c :: y ++ [c'].
Proof.
  intros Ha Hb Hc Hc'. unfold strip. rewrite lstrip_spaces by exact Ha.
  unfold lstrip. cbn [app dropWhile]. rewrite Hc.
  change (c :: (y ++ [c']) ++ b) with ((c :: y ++ [c']) ++ b).
  rewrite rstrip_spaces by exact Hb.
  apply (@rstrip_nonspace (c :: y) c' Hc').
Qed.

Lemma sig_shape : exists y, sig = "d"%char :: y ++ [":"%char].
Proof.
  unfold sig, signature. exists (py "ef " ++ name ++ py "(" ++ params ++ py ")").
  cbn [unescape app]. repeat (rewrite <- app_assoc; cbn [app]). reflexivity.
Qed.

Lemma strip_sig a b :
  Forall (fun c => isspace c = true) a -> Forall (fun c => isspace c = true) b ->
  strip (a ++ sig ++ b) = sig.
Proof.
  intros Ha Hb. destruct sig_shape as (y & ->).
  apply strip_core; try assumption; reflexivity.
Qed.

Lemma blank_lines_spaces modules :
  Forall (fun c => isspace c = true) (blank_lines modules).
Proof. induction modules; constructor; [reflexivity|assumption]. Qed.

(** The first application on a text of the family. *)
Lemma relocate_source modules :
  forallb is_module_text modules = true ->
  relocate_imports_inside_function (source_lines modules ++ sig)
  = sig ++ indent ++ join indent (map import_line modules).
Proof.
  intro Hm.
  assert (Hscan : finditer import_pattern (source_lines modules ++ sig)
                  = source_founds 0 modules)
    by (apply scan_source; [exact Hm|reflexivity]).
  assert (Hcwi : code_without_imports (source_lines modules ++ sig) = sig).
  { unfold code_without_imports, sub. rewrite Hscan.
    pose proof (@splice_source modules 0 0 [] eq_refl) as Hs.
    cbn [app] in Hs. rewrite Hs. rewrite <- (app_nil_r sig) at 1.
    apply strip_sig; [apply blank_lines_spaces|constructor]. }
  unfold relocate_imports_inside_function. rewrite Hcwi.
  pose proof (@search_sig [] I) as Hd. rewrite app_nil_r in Hd. rewrite Hd.
  cbn [m_end]. unfold upto, from.
  rewrite firstn_all, skipn_all, app_nil_r.
  unfold findall. rewrite Hscan.
  pose proof (@findall_source modules 0 [] eq_refl) as Hf.
  cbn [app] in Hf. rewrite Hf. reflexivity.
Qed.

(** ** The second application *)

Lemma target_lines_cons m modules :
  target_lines (m :: modules)
  = nl :: (py "    " ++ import_line m) ++ target_lines modules.
Proof.
  unfold target_lines. cbn [map List.concat]. unfold indent.
  cbn [unescape app]. reflexivity.
Qed.

Lemma target_lines_head modules :
  target_lines modules = [] \/ exists r, target_lines modules = py "\n    i" ++ r.
Proof.
  destruct modules as [|m t]; [left; reflexivity|right].
  rewrite target_lines_cons. unfold import_line. cbn [unescape app].
  eexists. reflexivity.
Qed.

Lemma join_indent (ls : list str) :
  ls <> [] -> indent ++ join indent ls = List.concat (map (fun l => indent ++ l) ls).
Proof.
  induction ls as [|l ls IH]; [contradiction|]. intros _.
  rewrite join_cons. destruct ls as [|l' ls].
  - cbn [map List.concat]. rewrite !app_nil_r. reflexivity.
  - cbn [map List.concat] in *. rewrite <- IH by discriminate.
    rewrite <- !app_assoc. reflexivity.
Qed.

Lemma target_lines_join m modules :
  indent ++ join indent (map import_line (m :: modules)) = target_lines (m :: modules).
Proof.
  rewrite join_indent by discriminate. unfold target_lines.
  rewrite map_map. reflexivity.
Qed.

(** The matches in a target: one per import line, from the start of the
    line to its end, with the import as group. *)
Lemma scan_target modules i c :
  forallb is_module_text modules = true -> c <> nl ->
  scan import_pattern 0 i (Some c) (target_lines modules) = target_founds i modules.
Proof.
  revert i c. induction modules as [|m t IH]; intros i c Hm Nc.
  - apply scan_end_not_bol. exact Nc.
  - cbn [forallb] in Hm. apply andb_true_iff in Hm as [Hm Ht].
    destruct (module_text_inv _ Hm) as (c0 & m' & -> & H0 & Hm').
    rewrite target_lines_cons, scan_at, attempt_not_bol by exact Nc.
    assert (A := @attempt_indented_import (S i) c0 m' (target_lines t) H0 Hm'
                   (target_lines_head t)).
    change ((py "    " ++ import_line (c0 :: m')) ++ target_lines t)
      with (" "%char :: (py "   import " ++ c0 :: m') ++ target_lines t).
    rewrite (@scan_found import_pattern (S i) (Some nl) " "%char
               (py "   import " ++ c0 :: m') (target_lines t) _ A)
      by (cbn [m_end]; rewrite import_line_length, length_app;
          cbn [unescape List.length]; lia).
    cbn [target_founds].
    destruct (@prev_after_not_nl " "%char (py "   import " ++ c0 :: m')) as (c' & Ec & Nc');
      [discriminate
      |repeat constructor; [apply nonspace_not_nl; exact H0|exact Hm'] |].
    rewrite Ec, IH by assumption.
    rewrite import_line_length, length_app. cbn [unescape List.length].
    f_equal; [|f_equal; lia].
    f_equal; [lia|]. f_equal. f_equal; lia.
Qed.

Lemma splice_target modules i j x :
  List.length x + j = i ->
  splice [] (target_founds i modules) j (x ++ target_lines modules)
  = x ++ blank_lines modules.
Proof.
  revert i j x. induction modules as [|m t IH]; intros i j x E;
    [reflexivity|].
  cbn [target_founds splice m_start m_end blank_lines map].
  rewrite target_lines_cons. unfold upto, from.
  replace (x ++ nl :: (py "    " ++ import_line m) ++ target_lines t)
    with ((x ++ [nl]) ++ (py "    " ++ import_line m) ++ target_lines t)
    by (rewrite <- !app_assoc; reflexivity).
  rewrite firstn_length_app by (rewrite length_app; cbn [List.length]; lia).
  rewrite (app_assoc (x ++ [nl]) (py "    " ++ import_line m) (target_lines t)).
  rewrite skipn_length_app
    by (rewrite !length_app; cbn [unescape List.length]; lia).
  pose proof (IH (i + 5 + List.length (import_line m))
                 (i + 5 + List.length (import_line m)) [] eq_refl) as Hs.
  cbn [app] in Hs. rewrite Hs. cbn [app]. rewrite <- app_assoc. reflexivity.
Qed.

Lemma findall_target modules i x :
  List.length x = i ->
  map (group1 (x ++ target_lines modules)) (target_founds i modules)
  = map import_line modules.
Proof.
  revert i x. induction modules as [|m t IH]; intros i x E; [reflexivity|].
  cbn [target_founds map]. rewrite target_lines_cons.
  replace (x ++ nl :: (py "    " ++ import_line m) ++ target_lines t)
    with ((x ++ indent) ++ import_line m ++ target_lines t)
    by (unfold indent; cbn [unescape app]; rewrite <- !app_assoc; reflexivity).
  f_equal.
  - unfold group1. cbn [m_grp]. unfold upto, from.
    rewrite skipn_length_app
      by (rewrite length_app; unfold indent; cbn [unescape List.length]; lia).
    apply firstn_length_app. lia.
  - rewrite (app_assoc (x ++ indent)).
    apply IH. rewrite !length_app. unfold indent. cbn [unescape List.length]. lia.
Qed.

Lemma scan_blank_indent i c :
  c <> nl -> scan import_pattern 0 i (Some c) indent = [].
Proof.
  intro Nc. unfold indent. cbn [unescape].
  rewrite scan_at, attempt_not_bol by exact Nc.
  rewrite scan_at.
  assert (A : attempt import_pattern false (S i) (Some nl)
                 [" "; " "; " "; " "]%char = None) by (vm_compute; reflexivity).
  rewrite A.
  assert (Nsp : " "%char <> nl) by discriminate.
  do 3 (rewrite scan_at; rewrite attempt_not_bol by exact Nsp).
  apply scan_end_not_bol. exact Nsp.
Qed.

Lemma indent_spaces : Forall (fun c => isspace c = true) indent.
Proof. repeat constructor. Qed.

(** The second application on a text of the family gives it back. *)
Lemma relocate_target modules :
  forallb is_module_text modules = true ->
  relocate_imports_inside_function
    (sig ++ indent ++ join indent (map import_line modules))
  = sig ++ indent ++ join indent (map import_line modules).
Proof.
  intro Hm. pose proof (@search_sig [] I) as Hd. rewrite app_nil_r in Hd.
  destruct modules as [|m t].
  - cbn [map join]. rewrite app_nil_r.
    assert (Hscan : finditer import_pattern (sig ++ indent) = []).
    { unfold finditer. destruct (scan_sig indent 0 None) as (c & Nc & ->).
      apply scan_blank_indent. exact Nc. }
    assert (Hstrip : strip (sig ++ indent) = sig)
      by (apply (@strip_sig [] indent); [constructor|apply indent_spaces]).
    unfold relocate_imports_inside_function, code_without_imports, sub, findall.
    rewrite Hscan. cbn [splice map join]. rewrite Hstrip, Hd. cbn [m_end].
    unfold upto, from. rewrite firstn_all, skipn_all, !app_nil_r. reflexivity.
  - rewrite target_lines_join.
    assert (Hscan : finditer import_pattern (sig ++ target_lines (m :: t))
                    = target_founds (List.length sig + 0) (m :: t)).
    { unfold finditer. destruct (scan_sig (target_lines (m :: t)) 0 None) as (c & Nc & ->).
      apply scan_target; assumption. }
    assert (Hcwi : code_without_imports (sig ++ target_lines (m :: t)) = sig).
    { unfold code_without_imports, sub. rewrite Hscan.
      rewrite splice_target by reflexivity.
      apply (@strip_sig [] (blank_lines (m :: t))); [constructor|apply blank_lines_spaces]. }
    unfold relocate_imports_inside_function. rewrite Hcwi, Hd. cbn [m_end].
    unfold upto, from. rewrite firstn_all, skipn_all, app_nil_r.
    unfold findall. rewrite Hscan.
    rewrite findall_target by lia.
    rewrite target_lines_join. reflexivity.
Qed.

End Bodyless.

(** On a text made of lines [import <module>] followed by one signature
    line [def <name>(<params>):] and nothing after it, the relocator gives
    the signature line followed by the imports, indented, and a second
    application gives that same text. *)
Theorem relocate_twice_bodyless (modules : list str) (name params : str)
  (Hmodules : forallb is_module_text modules = true)
  (Hname : is_name name = true)
  (Hparams : forallb is_param_char params = true) :
  let code_text := bodyless_source modules name params in
  relocate_imports_inside_function code_text = bodyless_target modules name params
  /\ relocate_imports_inside_function (relocate_imports_inside_function code_text)
     = relocate_imports_inside_function code_text.
Proof.
  intro code_text.
  assert (E : relocate_imports_inside_function code_text
              = bodyless_target modules name params)
    by (apply relocate_source; assumption).
  split; [exact E|]. rewrite E. apply relocate_target; assumption.
Qed.

Lemma relocate_twice_bodyless_witness :
  let code_text := py "import os\nimport numpy as np\ndef clean(df, n=3):" in
  relocate_imports_inside_function code_text
  = py "def clean(df, n=3):\n    import os\n    import numpy as np"
  /\ relocate_imports_inside_function (relocate_imports_inside_function code_text)
     = relocate_imports_inside_function code_text.
Proof.
  exact (@relocate_twice_bodyless [py "os"; py "numpy as np"] (py "clean") (py "df, n=3")
           eq_refl eq_refl eq_refl).
Defined.

(** * Further properties *)

(** ** Letter case and white space, character by character *)

Lemma upper_char_not_lower (c : ascii) : is_lower (upper_char c) = false.
Proof. destruct c as [[] [] [] [] [] [] [] []]; reflexivity. Qed.

Lemma upper_char_upper (c : ascii) : upper_char (upper_char c) = upper_char c.
Proof. destruct c as [[] [] [] [] [] [] [] []]; reflexivity. Qed.

Lemma upper_char_lower (c : ascii) : upper_char (lower_char c) = upper_char c.
Proof. destruct c as [[] [] [] [] [] [] [] []]; reflexivity. Qed.

Lemma lower_char_upper (c : ascii) : lower_char (upper_char c) = lower_char c.
Proof. destruct c as [[] [] [] [] [] [] [] []]; reflexivity. Qed.

Lemma lower_char_lower (c : ascii) : lower_char (lower_char c) = lower_char c.
Proof. destruct c as [[] [] [] [] [] [] [] []]; reflexivity. Qed.

Lemma isspace_upper (c : ascii) : isspace (upper_char c) = isspace c.
Proof. destruct c as [[] [] [] [] [] [] [] []]; reflexivity. Qed.

Lemma isspace_lower (c : ascii) : isspace (lower_char c) = isspace c.
Proof. destruct c as [[] [] [] [] [] [] [] []]; reflexivity. Qed.

Lemma label_char_clean (c : ascii) :
  upper_char (underscore_to_space c) <> "_"%char
  /\ is_lower (upper_char (underscore_to_space c)) = false.
Proof. destruct c as [[] [] [] [] [] [] [] []]; split; (discriminate || reflexivity). Qed.

Lemma label_char_upper (c : ascii) :
  upper_char (underscore_to_space (upper_char c)) = upper_char (underscore_to_space c).
Proof. destruct c as [[] [] [] [] [] [] [] []]; reflexivity. Qed.

Lemma label_char_lower (c : ascii) :
  upper_char (underscore_to_space (lower_char c)) = upper_char (underscore_to_space c).
Proof. destruct c as [[] [] [] [] [] [] [] []]; reflexivity. Qed.

(** ** Trimming commutes with maps that keep white space *)

Lemma dropWhile_map (f : ascii -> ascii) (s : str) :
  (forall c, isspace (f c) = isspace c) ->
  dropWhile isspace (map f s) = map f (dropWhile isspace s).
Proof.
  intro Hf. induction s as [|c t IH]; [reflexivity|].
  cbn [map dropWhile]. rewrite Hf. destruct (isspace c); [exact IH|reflexivity].
Qed.

Lemma strip_map (f : ascii -> ascii) (s : str) :
  (forall c, isspace (f c) = isspace c) -> strip (map f s) = map f (strip s).
Proof.
  intro Hf. unfold strip, rstrip, lstrip.
  rewrite dropWhile_map by exact Hf. rewrite <- map_rev.
  rewrite dropWhile_map by exact Hf. rewrite map_rev. reflexivity.
Qed.

Lemma dropWhile_all (p : ascii -> bool) (s : str) :
  Forall (fun c => p c = true) s -> dropWhile p s = [].
Proof.
  intro F. induction F as [|c t Hc F IH]; [reflexivity|].
  cbn [dropWhile]. rewrite Hc. exact IH.
Qed.

Lemma lstrip_cases (s : str) :
  (lstrip s = [] /\ Forall (fun c => isspace c = true) s)
  \/ exists a c t, s = a ++ c :: t /\ Forall (fun c => isspace c = true) a
                   /\ isspace c = false /\ lstrip s = c :: t.
Proof.
  unfold lstrip. induction s as [|x s IH].
  - left. split; [reflexivity|constructor].
  - cbn [dropWhile]. destruct (isspace x) eqn:E.
    + destruct IH as [[H F]|(a & c & t & -> & Fa & Hc & H)].
      * left. split; [exact H|constructor; assumption].
      * right. exists (x :: a), c, t. repeat split; try assumption.
        constructor; assumption.
    + right. exists [], x, s. repeat split; try assumption. constructor.
Qed.

(** White space around a text does not change what [strip] gives. *)
Lemma strip_outer (a s b : str) :
  Forall (fun c => isspace c = true) a -> Forall (fun c => isspace c = true) b ->
  strip (a ++ s ++ b) = strip s.
Proof.
  intros Ha Hb. unfold strip. rewrite lstrip_spaces by exact Ha.
  destruct (lstrip_cases s) as [[H F]|(a' & c & t & -> & Fa & Hc & H)].
  - rewrite H. rewrite lstrip_spaces by exact F.
    unfold lstrip. rewrite dropWhile_all by exact Hb. reflexivity.
  - rewrite H. rewrite <- app_assoc. rewrite lstrip_spaces by exact Fa.
    unfold lstrip. cbn [app dropWhile]. rewrite Hc.
    apply (@rstrip_spaces (c :: t) b Hb).
Qed.

(** ** The name formatter *)

Lemma format_agent_name_map (s : str) :
  format_agent_name s
  = py "---" ++ map (fun c => upper_char (underscore_to_space c)) (strip s) ++ py "----".
Proof.
  unfold format_agent_name, upper. rewrite replace_underscore, map_map. reflexivity.
Qed.

(** X1: for an ASCII name, the label is seven characters longer than
    the trimmed name and holds no underscore and no lower-case letter. *)
Theorem format_agent_name_clean (agent_name : str)
  (Hascii : isascii agent_name = true) :
  List.length (format_agent_name agent_name) = 7 + List.length (strip agent_name)
  /\ Forall (fun c => c <> "_"%char /\ is_lower c = false)
            (format_agent_name agent_name).
Proof.
  rewrite format_agent_name_map. split.
  - rewrite !length_app, length_map. cbn [unescape List.length]. lia.
  - apply Forall_app. split; [repeat constructor; discriminate|].
    apply Forall_app. split; [|repeat constructor; discriminate].
    apply Forall_forall. intros c Hc. apply in_map_iff in Hc as (x & <- & _).
    apply label_char_clean.
Qed.

Lemma format_agent_name_clean_witness :
  List.length (format_agent_name (py " data_wrangler\n"))
  = 7 + List.length (strip (py " data_wrangler\n"))
  /\ Forall (fun c => c <> "_"%char /\ is_lower c = false)
            (format_agent_name (py " data_wrangler\n")).
Proof. apply format_agent_name_clean. reflexivity. Defined.

(** X2: for an ASCII name, the label does not depend on the case of the
    letters of the name. *)
Theorem format_agent_name_case (agent_name : str)
  (Hascii : isascii agent_name = true) :
  format_agent_name (upper agent_name) = format_agent_name agent_name
  /\ format_agent_name (lower agent_name) = format_agent_name agent_name.
Proof.
  rewrite !format_agent_name_map. unfold upper, lower.
  rewrite !strip_map by (first [apply isspace_upper | apply isspace_lower]).
  rewrite !map_map. split; do 2 f_equal; apply map_ext; intro c;
    [apply label_char_upper | apply label_char_lower].
Qed.

Lemma format_agent_name_case_witness :
  format_agent_name (upper (py "Data_Wrangler")) = format_agent_name (py "Data_Wrangler")
  /\ format_agent_name (lower (py "Data_Wrangler")) = format_agent_name (py "Data_Wrangler").
Proof. apply format_agent_name_case. reflexivity. Defined.

(** X3: white space put around a name does not change its label. *)
Theorem format_agent_name_outer_space (before agent_name after : str)
  (Hbefore : forallb isspace before = true)
  (Hafter : forallb isspace after = true) :
  format_agent_name (before ++ agent_name ++ after) = format_agent_name agent_name.
Proof.
  unfold format_agent_name. rewrite strip_outer; [reflexivity| |];
    apply Forall_forall; apply forallb_forall; assumption.
Qed.

Lemma format_agent_name_outer_space_witness :
  format_agent_name (py "\t " ++ py "data_cleaning_agent" ++ py " \n")
  = format_agent_name (py "data_cleaning_agent").
Proof.
  exact (@format_agent_name_outer_space (py "\t ") (py "data_cleaning_agent") (py " \n")
           eq_refl eq_refl).
Defined.

(** ** The report summarizer *)

Lemma upper_label (key : str) : upper (format_agent_name key) = format_agent_name key.
Proof.
  rewrite format_agent_name_map. unfold upper. rewrite !map_app, map_map.
  f_equal. f_equal. apply map_ext. intro c. apply upper_char_upper.
Qed.

Lemma dict_get_app_absent {V : Type} (key : str) (d1 d2 : dict V) :
  dict_get key d1 = None -> dict_get key (d1 ++ d2) = dict_get key d2.
Proof.
  induction d1 as [|[k v] d1 IH]; [reflexivity|].
  cbn [app dict_get]. destruct (str_eqb k key); [discriminate|exact IH].
Qed.

Lemma dict_get_app_present {V : Type} (key : str) (d1 d2 : dict V) (v : V) :
  dict_get key d1 = Some v -> dict_get key (d1 ++ d2) = Some v.
Proof.
  induction d1 as [|[k w] d1 IH]; [discriminate|].
  cbn [app dict_get]. destruct (str_eqb k key); [trivial|exact IH].
Qed.

Lemma dict_get_snoc_other {V : Type} (key k : str) (v : V) (d : dict V) :
  k <> key -> dict_get key (d ++ [(k, v)]) = dict_get key d.
Proof.
  intro N. apply str_eqb_neq in N.
  induction d as [|[k' w] d IH]; cbn [app dict_get].
  - rewrite N. reflexivity.
  - destruct (str_eqb k' key); [reflexivity|exact IH].
Qed.

Section SummaryMore.

Context {V : Type} `{PyStr V}.

(** X4: the heading of an item is [## ] and the label of its key; the
    [upper] applied to the label changes nothing. *)
Theorem section_heading_label (key : str) :
  upper (format_agent_name key) = format_agent_name key
  /\ section_heading key = py "\n## " ++ format_agent_name key.
Proof.
  split; [apply upper_label|]. unfold section_heading. rewrite upper_label. reflexivity.
Qed.

(** X5: for an ASCII key, whether the key names code does not depend on
    the case of its letters. *)
Theorem is_code_key_case (key : str) (Hascii : isascii key = true) :
  is_code_key (upper key) = is_code_key key
  /\ is_code_key (lower key) = is_code_key key.
Proof.
  unfold is_code_key, upper, lower. rewrite !map_map.
  rewrite (map_ext _ lower_char lower_char_upper).
  rewrite (map_ext (fun c => lower_char (lower_char c)) lower_char lower_char_lower).
  split; reflexivity.
Qed.

Lemma is_code_key_case_witness :
  is_code_key (upper (py "My_Function")) = is_code_key (py "My_Function")
  /\ is_code_key (lower (py "My_Function")) = is_code_key (py "My_Function").
Proof. apply is_code_key_case. reflexivity. Defined.

(** X6: the place of the title item among the items does not matter: the
    report is the one with the title item first. *)
Theorem summary_title_position (d1 d2 : dict V) (title : V) (code_lang : str)
  (Habsent : dict_get title_key d1 = None) :
  get_generic_summary (d1 ++ (title_key, title) :: d2) code_lang
  = get_generic_summary ((title_key, title) :: d1 ++ d2) code_lang.
Proof.
  unfold get_generic_summary. rewrite !summary_lines_spec. unfold spec_summary_lines.
  rewrite (@dict_get_app_absent V title_key d1 _ Habsent).
  cbn [dict_get]. rewrite str_eqb_refl.
  rewrite !filter_app. cbn [filter]. unfold not_title at 2 4. cbn [fst].
  rewrite str_eqb_refl. cbn [negb]. rewrite filter_app. reflexivity.
Qed.

(** X7: an item put at the end, under a key that is not the title's, adds
    its two lines at the end of the report and changes nothing before. *)
Theorem summary_append (d : dict V) (key : str) (value : V) (code_lang : str)
  (Hkey : key <> title_key) :
  get_generic_summary (d ++ [(key, value)]) code_lang
  = get_generic_summary d code_lang ++ py "\n" ++ section_heading key ++ py "\n"
    ++ (if is_code_key key
        then py "```" ++ code_lang ++ py "\n" ++ py_str value ++ py "\n```"
        else py_str value).
Proof.
  unfold get_generic_summary. rewrite !summary_lines_spec. unfold spec_summary_lines.
  rewrite (@dict_get_snoc_other V title_key key value d Hkey).
  rewrite filter_app. cbn [filter]. rewrite not_title_true by exact Hkey.
  rewrite flat_map_app. cbn [flat_map render fst snd app].
  rewrite app_comm_cons.
  rewrite join_app by discriminate. cbn [join]. unfold fence.
  change (py "\n") with [nl]. reflexivity.
Qed.

(** X8: the language tag is used for code items only: without a key that
    names code the report is the same under every tag. *)
Theorem summary_lang_unused (d : dict V) (lang1 lang2 : str)
  (Hplain : forallb (fun item => negb (is_code_key (fst item))) d = true) :
  get_generic_summary d lang1 = get_generic_summary d lang2.
Proof.
  unfold get_generic_summary. rewrite !summary_lines_spec. unfold spec_summary_lines.
  do 2 f_equal. induction d as [|item d IH]; [reflexivity|].
  cbn [forallb] in Hplain. apply andb_true_iff in Hplain as [Hi Hd].
  apply negb_true_iff in Hi. cbn [filter].
  destruct (not_title item); [|exact (IH Hd)].
  cbn [flat_map]. rewrite (IH Hd). unfold render. rewrite Hi. reflexivity.
Qed.

(** X9: a report with no item but the title's, the empty one included, is
    the title heading alone. *)
Theorem summary_title_only (d : dict V) (code_lang : str)
  (Honly : forallb (fun item => str_eqb (fst item) title_key) d = true) :
  get_generic_summary d code_lang = py "# " ++ summary_title d.
Proof.
  unfold get_generic_summary. rewrite summary_lines_spec. unfold spec_summary_lines.
  replace (filter not_title d) with (@nil (str * V)); [reflexivity|].
  induction d as [|item d IH]; [reflexivity|].
  cbn [forallb] in Honly. apply andb_true_iff in Honly as [Hi Hd].
  cbn [filter]. unfold not_title at 1. rewrite Hi. exact (IH Hd).
Qed.

End SummaryMore.

Lemma summary_title_position_witness :
  get_generic_summary
    ([(py "rows", VInt 3)] ++ (title_key, VStr (py "Sales"))
       :: [(py "sql_code", VStr (py "select 1"))]) default_lang
  = get_generic_summary
      ((title_key, VStr (py "Sales"))
         :: [(py "rows", VInt 3)] ++ [(py "sql_code", VStr (py "select 1"))])
      default_lang.
Proof.
  apply (@summary_title_position pyval PyStr_pyval). reflexivity.
Defined.

Lemma summary_append_witness :
  get_generic_summary
    ([(title_key, VStr (py "Sales"))] ++ [(py "rows", VInt 3)]) default_lang
  = get_generic_summary [(title_key, VStr (py "Sales"))] default_lang
    ++ py "\n" ++ section_heading (py "rows") ++ py "\n"
    ++ (if is_code_key (py "rows")
        then py "```" ++ default_lang ++ py "\n" ++ py_str (VInt 3) ++ py "\n```"
        else py_str (VInt 3)).
Proof.
  apply (@summary_append pyval PyStr_pyval).
  intro E. vm_compute in E. discriminate E.
Defined.

Lemma summary_lang_unused_witness :
  get_generic_summary [(title_key, VStr (py "Sales")); (py "rows", VInt 3)] (py "python")
  = get_generic_summary [(title_key, VStr (py "Sales")); (py "rows", VInt 3)] (py "sql").
Proof.
  apply (@summary_lang_unused pyval PyStr_pyval). vm_compute. reflexivity.
Defined.

Lemma summary_title_only_witness :
  get_generic_summary (@nil (str * pyval)) default_lang = py "# " ++ summary_title (@nil (str * pyval))
  /\ get_generic_summary [(title_key, VInt 7)] default_lang = py "# 7".
Proof.
  split.
  - apply (@summary_title_only pyval PyStr_pyval). reflexivity.
  - apply (@summary_title_only pyval PyStr_pyval [(title_key, VInt 7)]). reflexivity.
Defined.

(** ** The step-list normalizer *)

Lemma join_split (sep : ascii) (s : str) : join [sep] (split sep s) = s.
Proof.
  induction s as [|c t IH]; [reflexivity|].
  cbn [split]. destruct (eqc c sep) eqn:E.
  - apply eqc_eq in E. subst c. rewrite join_cons.
    destruct (split sep t) eqn:S; [exfalso; exact (split_nonempty _ _ S)|].
    rewrite IH. reflexivity.
  - destruct (split sep t) as [|l ls] eqn:S; [exfalso; exact (split_nonempty _ _ S)|].
    rewrite <- IH, !join_cons. reflexivity.
Qed.

Lemma strip_blank (s : str) : forallb isspace s = true -> strip s = [].
Proof.
  intro F. unfold strip, lstrip. rewrite dropWhile_all; [reflexivity|].
  apply Forall_forall. apply forallb_forall. exact F.
Qed.

Lemma steps_lines_blank (raw_text heading : str) :
  strip raw_text = [] -> format_recommended_steps raw_text heading = heading.
Proof.
  intro E. unfold format_recommended_steps, steps_lines. rewrite E. reflexivity.
Qed.

Lemma filter_heading_none (heading : str) (lines : list str) :
  filter (is_heading heading) lines = [] -> filter (other_line heading) lines = lines.
Proof.
  induction lines as [|l t IH]; [reflexivity|]. cbn [filter]. unfold other_line at 1.
  destruct (is_heading heading l); [discriminate|]. cbn [negb]. intro E.
  rewrite (IH E). reflexivity.
Qed.

Lemma keep_first_single (heading : str) (lines : list str) :
  List.length (filter (is_heading heading) lines) <= 1 ->
  keep_first heading lines = lines.
Proof.
  induction lines as [|l t IH]; [reflexivity|]. cbn [filter keep_first].
  destruct (is_heading heading l).
  - cbn [List.length]. intro L. rewrite filter_heading_none; [reflexivity|].
    destruct (filter (is_heading heading) t); [reflexivity|cbn in L; lia].
  - intro L. rewrite (IH L). reflexivity.
Qed.

Lemma count_exists (heading : str) (lines : list str) :
  count_heading heading lines = 1 -> existsb (is_heading heading) lines = true.
Proof.
  unfold count_heading. intro C.
  destruct (existsb (is_heading heading) lines) eqn:E; [reflexivity|].
  rewrite (absent_filter_empty _ _ E) in C. discriminate C.
Qed.

(** X10: on a text of white space only, the empty text included, the
    result is the heading alone. *)
Theorem steps_blank_text (raw_text heading : str)
  (Hblank : forallb isspace raw_text = true) :
  format_recommended_steps raw_text heading = heading.
Proof. apply steps_lines_blank, strip_blank, Hblank. Qed.

Lemma steps_blank_text_witness :
  format_recommended_steps (py " \n\t\n") default_heading = default_heading.
Proof. apply steps_blank_text. reflexivity. Defined.

(** X11: when no line of the trimmed text is a heading line, the result is
    the heading, a newline and the trimmed text. *)
Theorem steps_heading_added (raw_text heading : str)
  (Htext : strip raw_text <> [])
  (Habsent : existsb (is_heading heading) (split nl (strip raw_text)) = false) :
  format_recommended_steps raw_text heading = heading ++ py "\n" ++ strip raw_text.
Proof.
  unfold format_recommended_steps. rewrite steps_lines_eq, pop_blank_stripped.
  destruct (strip raw_text) as [|c t] eqn:E; [contradiction|]. cbn [is_empty].
  rewrite Habsent, keep_first_absent by exact Habsent.
  cbn [app]. rewrite join_cons.
  destruct (split nl (c :: t)) eqn:S; [exfalso; exact (split_nonempty _ _ S)|].
  rewrite <- S, join_split. reflexivity.
Qed.

Lemma steps_heading_added_witness :
  format_recommended_steps (py "  1. load\n2. clean \n") default_heading
  = default_heading ++ py "\n" ++ strip (py "  1. load\n2. clean \n").
Proof.
  apply steps_heading_added.
  - intro E. vm_compute in E. discriminate E.
  - vm_compute. reflexivity.
Defined.

(** X12: when exactly one line of the trimmed text is a heading line, the
    result is the trimmed text. *)
Theorem steps_single_heading (raw_text heading : str)
  (Hone : count_heading heading (split nl (strip raw_text)) = 1) :
  format_recommended_steps raw_text heading = strip raw_text.
Proof.
  destruct (strip raw_text) as [|c t] eqn:E.
  - rewrite steps_lines_blank by exact E.
    destruct heading as [|h0 ht]; [reflexivity|]. cbn in Hone. discriminate Hone.
  - unfold format_recommended_steps. rewrite steps_lines_eq, pop_blank_stripped, E.
    cbn [is_empty]. rewrite (count_exists _ _ Hone). cbn [app].
    rewrite keep_first_single by (unfold count_heading in Hone; lia).
    apply join_split.
Qed.

Lemma steps_single_heading_witness :
  format_recommended_steps (py "\n# Recommended Steps:\n1. load\n2. clean\n") default_heading
  = strip (py "\n# Recommended Steps:\n1. load\n2. clean\n").
Proof. apply steps_single_heading. vm_compute. reflexivity. Defined.

(** X13: on a text that is not blank the loop that pops the empty lines at
    the start pops nothing, the text being trimmed before it is split. *)
Theorem steps_pop_nothing (raw_text : str) (Htext : strip raw_text <> []) :
  pop_blank (split nl (strip raw_text)) = split nl (strip raw_text).
Proof.
  rewrite pop_blank_stripped. destruct (strip raw_text); [contradiction|reflexivity].
Qed.

Lemma steps_pop_nothing_witness :
  pop_blank (split nl (strip (py "\n\n  1. load\n\n2. clean")))
  = split nl (strip (py "\n\n  1. load\n\n2. clean")).
Proof. apply steps_pop_nothing. intro E. vm_compute in E. discriminate E. Defined.

(** ** Where the rest of a pattern cannot match *)

Lemma rep_none (greedy : bool) (p : ascii -> bool) (k : cont) (g : option (nat * nat))
    (s : str) :
  (forall st', (exists pre, s = pre ++ rest st') -> k st' = None) ->
  forall min i pv, rep greedy p k g min i pv s = None.
Proof.
  induction s as [|c t IH]; intros Hk min i pv.
  - assert (E : k (MState i pv [] g) = None) by (apply Hk; exists []; reflexivity).
    cbn [rep]. destruct greedy, min; cbn [orelse]; try rewrite E; reflexivity.
  - assert (E : k (MState i pv (c :: t) g) = None) by (apply Hk; exists []; reflexivity).
    assert (R : forall min' i' pv', rep greedy p k g min' i' pv' t = None).
    { apply IH. intros st' [pre ->]. apply Hk. exists (c :: pre). reflexivity. }
    cbn [rep]. rewrite R.
    destruct greedy, min, (p c); cbn [orelse]; try rewrite E; reflexivity.
Qed.

(** A pattern followed by something that matches at no later position
    does not match. *)
Lemma run_none (r : re) :
  forall (st : mstate) (k : cont),
    (forall st', (exists pre, rest st = pre ++ rest st') -> k st' = None) ->
    run r st k = None.
Proof.
  induction r as [c|p| | |a IHa b IHb|a IHa b IHb|greedy min p|a IHa];
    intros st k Hk; cbn [run].
  - unfold step_char. destruct (rest st) as [|x t] eqn:E; [reflexivity|].
    destruct (eqc c x); [|reflexivity]. apply Hk. exists [x]. try rewrite E. reflexivity.
  - unfold step_char. destruct (rest st) as [|x t] eqn:E; [reflexivity|].
    destruct (p x); [|reflexivity]. apply Hk. exists [x]. try rewrite E. reflexivity.
  - destruct (at_bol st); [|reflexivity]. apply Hk. exists []. reflexivity.
  - destruct (at_eol st); [|reflexivity]. apply Hk. exists []. reflexivity.
  - apply IHa. intros st' [pre E]. apply IHb. intros st'' [pre' E'].
    apply Hk. exists (pre ++ pre'). rewrite E, E', app_assoc. reflexivity.
  - rewrite (IHa st k Hk), (IHb st k Hk). reflexivity.
  - apply rep_none. exact Hk.
  - apply IHa. intros st' E. apply Hk. exact E.
Qed.

Lemma contains_false_head (w s : str) : contains w s = false -> starts_with w s = false.
Proof.
  destruct s; cbn [contains]; intro E; apply orb_false_iff in E as [E _]; exact E.
Qed.

Lemma contains_false_suffix (w pre t : str) :
  contains w (pre ++ t) = false -> contains w t = false.
Proof.
  induction pre as [|c pre IH]; [trivial|].
  cbn [app contains]. intro E. apply orb_false_iff in E as [_ E]. exact (IH E).
Qed.

Lemma run_lit_none (w : str) :
  w <> [] -> forall st k, starts_with w (rest st) = false -> run (lit w) st k = None.
Proof.
  induction w as [|c w IH]; [contradiction|]. intros _ st k E.
  destruct w as [|c' w].
  - cbn [lit run]. unfold step_char. destruct (rest st) as [|x t]; [reflexivity|].
    cbn [starts_with] in E. rewrite andb_true_r in E. rewrite E. reflexivity.
  - change (lit (c :: c' :: w)) with (Cat (Lit c) (lit (c' :: w))).
    cbn [run]. unfold step_char. destruct (rest st) as [|x t]; [reflexivity|].
    cbn [starts_with] in E. destruct (eqc c x); [|reflexivity].
    apply IH; [discriminate|exact E].
Qed.

Lemma run_cat_lit_none (w : str) (x : re) (st : mstate) (k : cont) :
  w <> [] -> starts_with w (rest st) = false -> run (Cat (lit w) x) st k = None.
Proof. intros N E. cbn [run]. apply run_lit_none; assumption. Qed.

Lemma run_grp_alt_none (a b : re) (st : mstate) (k : cont) :
  (forall k', run a st k' = None) -> (forall k', run b st k' = None) ->
  run (Grp (Alt a b)) st k = None.
Proof. intros Ha Hb. cbn [run]. rewrite Ha, Hb. reflexivity. Qed.

(** ** The import relocator on a text without the word [import] *)

Lemma import_group_none (st : mstate) (k : cont) :
  contains (py "import") (rest st) = false ->
  run (Grp (Alt (seq [lit (py "import"); plus space; plus not_nl])
                (seq [lit (py "from"); plus space; plus nonspace; plus space;
                      lit (py "import"); plus space; plus not_nl]))) st k = None.
Proof.
  intro H. apply run_grp_alt_none; intro k'.
  - apply (@run_cat_lit_none (py "import") (Cat (plus space) (plus not_nl)));
      [discriminate|]. apply contains_false_head. exact H.
  - apply (@run_none
             (Cat (lit (py "from")) (Cat (plus space) (Cat (plus nonspace) (plus space))))
             st
             (fun d => run (Cat (lit (py "import")) (Cat (plus space) (plus not_nl))) d k')).
    intros st' [pre E].
    apply (@run_cat_lit_none (py "import") (Cat (plus space) (plus not_nl)));
      [discriminate|]. apply contains_false_head.
    rewrite E in H. exact (contains_false_suffix _ _ _ H).
Qed.

Lemma attempt_import_none (adv : bool) (i : nat) (pv : option ascii) (s : str) :
  contains (py "import") s = false -> attempt import_pattern adv i pv s = None.
Proof.
  intro H. unfold attempt.
  replace (run import_pattern (MState i pv s None)
             (fun st => if adv && (pos st =? i) then None else Some st))
    with (@None mstate); [reflexivity|]. symmetry.
  apply (@run_none (Cat Bol (star space)) (MState i pv s None)
           (fun d =>
              run (Cat (Grp (Alt (seq [lit (py "import"); plus space; plus not_nl])
                                 (seq [lit (py "from"); plus space; plus nonspace;
                                       plus space; lit (py "import"); plus space;
                                       plus not_nl])))
                       (Cat (star space) Eol)) d
                  (fun st => if adv && (pos st =? i) then None else Some st))).
  cbn [rest]. intros st' [pre E].
  change (run (Grp (Alt (seq [lit (py "import"); plus space; plus not_nl])
                        (seq [lit (py "from"); plus space; plus nonspace;
                              plus space; lit (py "import"); plus space;
                              plus not_nl])))
              st'
              (fun d => run (Cat (star space) Eol) d
                          (fun st => if adv && (pos st =? i) then None else Some st))
          = None).
  apply import_group_none. rewrite E in H. exact (contains_false_suffix _ _ _ H).
Qed.

Lemma scan_import_none (s : str) :
  contains (py "import") s = false ->
  forall i pv, scan import_pattern 0 i pv s = [].
Proof.
  induction s as [|c t IH]; intros H i pv.
  - cbn [scan]. rewrite attempt_import_none by exact H. reflexivity.
  - rewrite scan_at, attempt_import_none by exact H.
    apply IH. exact (contains_false_suffix _ [c] _ H).
Qed.

(** X15: in a text where the word [import] does not occur no import is
    found: the result is the text itself when no signature is found and
    otherwise the stripped text with a newline and four spaces put in
    after the first signature. *)
Theorem relocate_without_import_word (code_text : str)
  (Hword : contains (py "import") code_text = false) :
  findall import_pattern code_text = []
  /\ code_without_imports code_text = strip code_text
  /\ relocate_imports_inside_function code_text
     = match search function_pattern (strip code_text) with
       | Some m => upto (m_end m) (strip code_text) ++ py "\n    "
                   ++ from (m_end m) (strip code_text)
       | None => code_text
       end.
Proof.
  assert (S : finditer import_pattern code_text = [])
    by (apply scan_import_none; exact Hword).
  assert (F : findall import_pattern code_text = [])
    by (unfold findall; rewrite S; reflexivity).
  assert (C : code_without_imports code_text = strip code_text)
    by (unfold code_without_imports; rewrite (@sub_no_match import_pattern [] code_text S);
        reflexivity).
  split; [exact F|]. split; [exact C|].
  unfold relocate_imports_inside_function. rewrite C, F.
  destruct (search function_pattern (strip code_text)); [|reflexivity].
  cbn [join]. unfold indent. rewrite app_nil_r. reflexivity.
Qed.

Lemma relocate_without_import_word_witness :
  relocate_imports_inside_function (py "\ndef area(r):\n    return 3 * r * r\n")
  = py "def area(r):\n    \n    return 3 * r * r".
Proof.
  destruct (@relocate_without_import_word (py "\ndef area(r):\n    return 3 * r * r\n"))
    as (_ & _ & E); [reflexivity|].
  rewrite E. vm_compute. reflexivity.
Defined.

(** ** What [re.sub] keeps *)

Lemma rep_some (greedy : bool) (p : ascii -> bool) (k : cont) (g : option (nat * nat))
    (res : mstate) (s : str) :
  forall min i pv,
    rep greedy p k g min i pv s = Some res ->
    exists st', k st' = Some res /\ i <= pos st'.
Proof.
  induction s as [|c t IH]; intros min i pv.
  - cbn [rep]. destruct greedy, min; cbn [orelse]; try discriminate;
      intro E; (exists (MState i pv [] g); split; [|cbn; lia]);
      destruct (k (MState i pv [] g)); (exact E || discriminate E).
  - cbn [rep]. intro E.
    assert (Hmore : forall r', rep greedy p k g (Nat.pred min) (S i) (Some c) t = Some r' ->
                               r' = res -> exists st', k st' = Some res /\ i <= pos st').
    { intros r' R ->. destruct (IH _ _ _ R) as (st' & K & L).
      exists st'. split; [exact K|lia]. }
    assert (Hhere : k (MState i pv (c :: t) g) = Some res ->
                    exists st', k st' = Some res /\ i <= pos st').
    { intro K. eexists. split; [exact K|cbn; lia]. }
    destruct greedy.
    + destruct (p c); cbn [orelse] in E.
      * destruct (rep true p k g (Nat.pred min) (S i) (Some c) t) as [r'|] eqn:R.
        -- cbn [orelse] in E. injection E as ->. exact (Hmore _ eq_refl eq_refl).
        -- cbn [orelse] in E. destruct min; [exact (Hhere E)|discriminate E].
      * destruct min; [exact (Hhere E)|discriminate E].
    + destruct min.
      * destruct (k (MState i pv (c :: t) g)) as [r'|] eqn:K; cbn [orelse] in E.
        -- injection E as ->. apply Hhere. reflexivity.
        -- destruct (p c); [|discriminate E]. exact (Hmore _ E eq_refl).
      * cbn [orelse] in E. destruct (p c); [|discriminate E]. exact (Hmore _ E eq_refl).
Qed.

(** A match ends where the rest of the pattern matched, not before its
    start. *)
Lemma run_some (r : re) :
  forall (st : mstate) (k : cont) (res : mstate),
    run r st k = Some res ->
    exists st', k st' = Some res /\ pos st <= pos st'.
Proof.
  induction r as [c|p| | |a IHa b IHb|a IHa b IHb|greedy min p|a IHa];
    intros st k res E; cbn [run] in E.
  - unfold step_char in E. destruct (rest st) as [|x t]; [discriminate E|].
    destruct (eqc c x); [|discriminate E]. eexists. split; [exact E|cbn; lia].
  - unfold step_char in E. destruct (rest st) as [|x t]; [discriminate E|].
    destruct (p x); [|discriminate E]. eexists. split; [exact E|cbn; lia].
  - destruct (at_bol st); [|discriminate E]. exists st. split; [exact E|lia].
  - destruct (at_eol st); [|discriminate E]. exists st. split; [exact E|lia].
  - destruct (IHa _ _ _ E) as (st1 & E1 & L1).
    destruct (IHb _ _ _ E1) as (st2 & E2 & L2). exists st2. split; [exact E2|lia].
  - destruct (run a st k) as [r'|] eqn:Ra; cbn [orelse] in E.
    + injection E as ->. exact (IHa _ _ _ Ra).
    + exact (IHb _ _ _ E).
  - apply rep_some in E. exact E.
  - destruct (IHa _ _ _ E) as (st1 & E1 & L1). eexists. split; [exact E1|cbn; exact L1].
Qed.

Lemma attempt_span (r : re) (adv : bool) (i : nat) (pv : option ascii) (s : str)
    (m : found) :
  attempt r adv i pv s = Some m ->
  m_start m = i /\ i <= m_end m /\ (adv = true -> i < m_end m).
Proof.
  unfold attempt.
  destruct (run r (MState i pv s None)
              (fun st => if adv && (pos st =? i) then None else Some st))
    as [st|] eqn:E; [|discriminate].
  intro M. injection M as <-. cbn [m_start m_end].
  apply run_some in E as (st' & K & L). cbn [pos] in L.
  destruct (adv && (pos st' =? i)) eqn:A; [discriminate K|]. injection K as <-.
  split; [reflexivity|]. split; [exact L|].
  intros ->. cbn [andb] in A. apply Nat.eqb_neq in A. lia.
Qed.

Lemma skipn_app_length (x s : str) (n : nat) :
  skipn (List.length x + n) (x ++ s) = skipn n s.
Proof. induction x as [|c x IH]; [reflexivity|exact IH]. Qed.

Lemma splice_nil (ms : list found) (i : nat) : splice [] ms i [] = [].
Proof.
  revert i. induction ms as [|m ms IH]; intro i; [reflexivity|].
  cbn [splice]. unfold upto, from. rewrite firstn_nil, skipn_nil, IH. reflexivity.
Qed.

Lemma splice_cons_at (m : found) (ms : list found) (j : nat) (x s : str) :
  m_start m = List.length x + j -> List.length x + j <= m_end m ->
  splice [] (m :: ms) j (x ++ s)
  = x ++ splice [] ms (m_end m) (skipn (m_end m - (List.length x + j)) s).
Proof.
  intros Hs He. cbn [splice app]. unfold upto, from. f_equal.
  - apply firstn_length_app. lia.
  - f_equal. replace (m_end m - j) with (List.length x + (m_end m - (List.length x + j)))
      by lia. apply skipn_app_length.
Qed.

(** Taking the matches out leaves the characters that are in no match. *)
Lemma splice_scan (r : re) (s : str) :
  (forall i pv j x, List.length x + j = i ->
     splice [] (scan r 0 i pv s) j (x ++ s) = x ++ kept r 0 i pv s)
  /\ (forall k i pv,
        splice [] (scan r (S k) i pv s) (i + S k) (skipn (S k) s) = kept r (S k) i pv s).
Proof.
  induction s as [|c t [IHA IHB]].
  - split; [|intros; reflexivity].
    intros i pv j x E. cbn [scan kept].
    destruct (attempt r false i pv []) as [m|] eqn:A1; [|reflexivity].
    destruct (@attempt_span _ _ _ _ _ _ A1) as (Hs & He & _).
    destruct (m_end m =? i).
    + rewrite splice_cons_at by lia. rewrite skipn_nil, splice_nil. reflexivity.
    + rewrite splice_cons_at by lia. rewrite skipn_nil, splice_nil. reflexivity.
  - assert (H : forall k e i pv, e = i + k ->
               splice [] (scan r k i pv t) e (skipn k t) = kept r k i pv t).
    { intros [|k] e i pv ->; [|apply IHB].
      rewrite Nat.add_0_r. exact (IHA i pv i [] eq_refl). }
    split.
    + intros i pv j x E. rewrite scan_at. cbn [kept].
      destruct (attempt r false i pv (c :: t)) as [m|] eqn:A1.
      * destruct (@attempt_span _ _ _ _ _ _ A1) as (Hs & He & _).
        destruct (m_end m =? i) eqn:Q.
        -- apply Nat.eqb_eq in Q.
           destruct (attempt r true i pv (c :: t)) as [m'|] eqn:A2.
           ++ destruct (@attempt_span _ _ _ _ _ _ A2) as (Hs' & He' & Hadv).
              specialize (Hadv eq_refl).
              rewrite splice_cons_at by lia.
              replace (m_end m - (List.length x + j)) with 0 by lia. cbn [skipn].
              rewrite (@splice_cons_at m' _ (m_end m) [] (c :: t)) by (cbn; lia).
              cbn [app List.length Nat.add].
              replace (m_end m' - m_end m) with (S (m_end m' - i - 1)) by lia.
              cbn [skipn]. f_equal. apply H. lia.
           ++ rewrite splice_cons_at by lia.
              replace (m_end m - (List.length x + j)) with 0 by lia. cbn [skipn].
              rewrite Q. f_equal.
              exact (IHA (S i) (Some c) i [c] (Nat.add_1_l i)).
        -- apply Nat.eqb_neq in Q. rewrite splice_cons_at by lia.
           replace (m_end m - (List.length x + j)) with (S (m_end m - i - 1)) by lia.
           cbn [skipn]. f_equal. apply H. lia.
      * replace (x ++ c :: t) with ((x ++ [c]) ++ t) by (rewrite <- app_assoc; reflexivity).
        rewrite IHA by (rewrite length_app; cbn; lia).
        rewrite <- app_assoc. reflexivity.
    + intros k i pv. cbn [scan skipn kept]. apply H. lia.
Qed.

Lemma sub_kept (r : re) (s : str) : sub r [] s = kept r 0 0 None s.
Proof.
  unfold sub, finditer. exact (proj1 (splice_scan r s) 0 None 0 [] eq_refl).
Qed.

(** ** Words across the places where a match was taken out *)

Lemma starts_with_app_true (w x b : str) :
  starts_with w x = true -> starts_with w (x ++ b) = true.
Proof.
  revert x. induction w as [|a w IH]; intros x E; [reflexivity|].
  destruct x as [|c x]; [discriminate E|]. cbn [app starts_with] in *.
  apply andb_true_iff in E as [E1 E2]. rewrite E1, (IH _ E2). reflexivity.
Qed.

Lemma contains_false_prefix (w m b : str) :
  contains w (m ++ b) = false -> contains w m = false.
Proof.
  induction m as [|c m IH]; intro E.
  - cbn [app] in E. apply contains_false_head in E. cbn [contains]. rewrite orb_false_r.
    destruct (starts_with w []) eqn:S; [|reflexivity].
    assert (T := @starts_with_app_true w [] b S). cbn [app] in T. congruence.
  - cbn [app contains] in *. apply orb_false_iff in E as [E1 E2].
    rewrite (IH E2), orb_false_r.
    destruct (starts_with w (c :: m)) eqn:S; [|reflexivity].
    assert (T := @starts_with_app_true w (c :: m) b S). cbn [app] in T. congruence.
Qed.

Lemma starts_with_line_end (w o y z : str) :
  ~ In nl w -> starts_with w (o ++ nl :: y) = starts_with w (o ++ nl :: z).
Proof.
  revert w. induction o as [|a o IH]; intros w Hw; destruct w as [|x w];
    try reflexivity; cbn [app starts_with].
  - replace (eqc x nl) with false; [reflexivity|].
    symmetry. apply eqc_neq. intros ->. apply Hw. left. reflexivity.
  - rewrite (IH w); [reflexivity|]. intro I. apply Hw. right. exact I.
Qed.

(** A word without newline that is not in a text is not in what is left
    when a piece is taken out right after a newline, or at the start. *)
Lemma contains_junction (w out y z : str) :
  ~ In nl w ->
  (out = [] \/ exists o, out = o ++ [nl]) ->
  contains w (out ++ y) = false -> (exists p, y = p ++ z) ->
  contains w (out ++ z) = false.
Proof.
  intros Hw Hsafe Hy [p ->]. induction out as [|c out IH].
  - exact (@contains_false_suffix w p z Hy).
  - assert (Hout : exists o, c :: out = o ++ [nl])
      by (destruct Hsafe as [E|E]; [discriminate E|exact E]).
    cbn [app contains] in *. apply orb_false_iff in Hy as [H1 H2].
    apply orb_false_iff. split.
    + destruct Hout as [o Eo].
      change (c :: out ++ z) with ((c :: out) ++ z).
      change (c :: out ++ p ++ z) with ((c :: out) ++ p ++ z) in H1.
      rewrite Eo in *. rewrite <- app_assoc in *. cbn [app] in *.
      rewrite (@starts_with_line_end w o z (p ++ z) Hw). exact H1.
    + apply IH; [|exact H2]. destruct out as [|c' out']; [left; reflexivity|right].
      destruct Hout as [o Eo]. destruct o as [|a o]; [discriminate Eo|].
      injection Eo as _ Eo. exists o. exact Eo.
Qed.

Lemma attempt_import_bol (adv : bool) (i : nat) (pv : option ascii) (s : str) (m : found) :
  attempt import_pattern adv i pv s = Some m -> pv = None \/ pv = Some nl.
Proof.
  intro A. destruct pv as [c|]; [|left; reflexivity]. right.
  destruct (eqc c nl) eqn:E; [apply eqc_eq in E; subst; reflexivity|].
  apply eqc_neq in E. rewrite attempt_not_bol in A by exact E. discriminate A.
Qed.

Lemma kept_import_no_word (w : str) (Hw : ~ In nl w) :
  forall (s : str) (skip i : nat) (pv : option ascii) (out : str),
    (skip = 0 -> (out = [] \/ exists o, out = o ++ [nl])
                 \/ exists o c, out = o ++ [c] /\ pv = Some c) ->
    (skip <> 0 -> out = [] \/ exists o, out = o ++ [nl]) ->
    contains w (out ++ skipn skip s) = false ->
    contains w (out ++ kept import_pattern skip i pv s) = false.
Proof.
  induction s as [|c t IH]; intros skip i pv out Hinv Hsafe Hc.
  - rewrite skipn_nil in Hc. exact Hc.
  - assert (Hkeep : contains w (out ++ c :: t) = false ->
                    contains w (out ++ c :: kept import_pattern 0 (S i) (Some c) t) = false).
    { intro Hc'.
      replace (out ++ c :: kept import_pattern 0 (S i) (Some c) t)
        with ((out ++ [c]) ++ kept import_pattern 0 (S i) (Some c) t)
        by (rewrite <- app_assoc; reflexivity).
      apply IH.
      - intros _. right. exists out, c. split; reflexivity.
      - intro N. contradiction.
      - rewrite <- app_assoc. exact Hc'. }
    assert (Hdrop : forall k, (out = [] \/ exists o, out = o ++ [nl]) ->
                      contains w (out ++ skipn k t) = false ->
                      contains w (out ++ kept import_pattern k (S i) (Some c) t) = false).
    { intros k S Hk. apply IH; [intros _; left; exact S|intros _; exact S|exact Hk]. }
    destruct skip as [|k].
    + cbn [skipn] in Hc. cbn [kept].
      assert (Hcut : forall adv m k, attempt import_pattern adv i pv (c :: t) = Some m ->
                       contains w (out ++ kept import_pattern k (S i) (Some c) t) = false).
      { intros adv m k A.
        assert (S : out = [] \/ exists o, out = o ++ [nl]).
        { destruct (Hinv eq_refl) as [S|(o & c' & Eo & Epv)]; [exact S|].
          right. exists o.
          destruct (@attempt_import_bol _ _ _ _ _ A) as [E|E]; rewrite Epv in E;
            [discriminate E|].
          injection E as ->. exact Eo. }
        apply Hdrop; [exact S|].
        apply (@contains_junction w out (c :: t) (skipn k t) Hw S Hc).
        exists (c :: firstn k t). cbn [app]. rewrite firstn_skipn. reflexivity. }
      destruct (attempt import_pattern false i pv (c :: t)) as [m|] eqn:A1;
        [|exact (Hkeep Hc)].
      destruct (m_end m =? i); [|exact (Hcut _ _ _ A1)].
      destruct (attempt import_pattern true i pv (c :: t)) as [m'|] eqn:A2;
        [exact (Hcut _ _ _ A2)|exact (Hkeep Hc)].
    + cbn [skipn] in Hc. cbn [kept]. apply Hdrop; [apply Hsafe; discriminate|exact Hc].
Qed.

(** Taking the imports out creates no occurrence of a word that has no
    newline. *)
Lemma sub_import_no_word (w s : str) :
  ~ In nl w -> contains w s = false -> contains w (sub import_pattern [] s) = false.
Proof.
  intros Hw H. rewrite sub_kept.
  apply (@kept_import_no_word w Hw s 0 0 None []).
  - intros _. left. left. reflexivity.
  - intro N. contradiction.
  - exact H.
Qed.

Lemma lstrip_parts (s : str) : exists a, s = a ++ lstrip s.
Proof.
  unfold lstrip. induction s as [|c s [a IH]]; [exists []; reflexivity|].
  cbn [dropWhile]. destruct (isspace c).
  - exists (c :: a). cbn [app]. rewrite <- IH. reflexivity.
  - exists []. reflexivity.
Qed.

Lemma strip_parts (s : str) : exists a b, s = a ++ strip s ++ b.
Proof.
  destruct (lstrip_parts s) as [a Ea].
  destruct (lstrip_parts (rev (lstrip s))) as [b Eb].
  exists a, (rev b). unfold strip, rstrip. rewrite <- rev_app_distr.
  fold (lstrip (rev (lstrip s))). rewrite <- Eb, rev_involutive. exact Ea.
Qed.

Lemma strip_no_word (w s : str) : contains w s = false -> contains w (strip s) = false.
Proof.
  intro H. destruct (strip_parts s) as (a & b & E). rewrite E in H.
  apply contains_false_suffix in H. exact (contains_false_prefix _ _ _ H).
Qed.

(** ** The import relocator on a text without the word [def] *)

Lemma attempt_def_none (adv : bool) (i : nat) (pv : option ascii) (s : str) :
  starts_with (py "def") s = false -> attempt function_pattern adv i pv s = None.
Proof.
  intro H. unfold attempt.
  replace (run function_pattern (MState i pv s None)
             (fun st => if adv && (pos st =? i) then None else Some st))
    with (@None mstate); [reflexivity|]. symmetry.
  unfold function_pattern.
  change (seq [lit (py "def"); plus space; plus word; star space; Lit "(";
               lazy_star not_nl; Lit ")"; Lit ":"])
    with (Cat (lit (py "def"))
              (seq [plus space; plus word; star space; Lit "(";
                    lazy_star not_nl; Lit ")"; Lit ":"])).
  cbn [run]. apply run_lit_none; [discriminate|exact H].
Qed.

Lemma search_def_none (s : str) :
  contains (py "def") s = false ->
  forall i pv, search_from function_pattern i pv s = None.
Proof.
  induction s as [|c t IH]; intros H i pv; cbn [search_from];
    rewrite attempt_def_none by (apply contains_false_head; exact H);
    [reflexivity|].
  apply IH. exact (contains_false_suffix _ [c] _ H).
Qed.

(** X16: a text in which the word [def] does not occur is given back as
    it is, its imports included. *)
Theorem relocate_without_def_word (code_text : str)
  (Hword : contains (py "def") code_text = false) :
  relocate_imports_inside_function code_text = code_text.
Proof.
  unfold relocate_imports_inside_function, code_without_imports, search.
  rewrite search_def_none; [reflexivity|].
  apply strip_no_word, sub_import_no_word; [|exact Hword].
  intro I. vm_compute in I. repeat (destruct I as [I|I]; [discriminate I|]). exact I.
Qed.

Lemma relocate_without_def_word_witness :
  relocate_imports_inside_function (py "import os\n\nclass A:\n    x = os.sep\nimport sys\n")
  = py "import os\n\nclass A:\n    x = os.sep\nimport sys\n".
Proof. apply relocate_without_def_word. reflexivity. Defined.


(** ** The import relocator on imports, a signature and a body *)

Lemma dropWhile_app_stop (p : ascii -> bool) (l : str) (c : ascii) (l2 : str) :
  p c = false -> dropWhile p (l ++ c :: l2) = dropWhile p l ++ c :: l2.
Proof.
  intro E. induction l as [|x l IH]; cbn [app dropWhile].
  - rewrite E. reflexivity.
  - destruct (p x); [exact IH|reflexivity].
Qed.

Lemma rstrip_after_nonspace (x : str) (c : ascii) (t : str) :
  isspace c = false -> rstrip ((x ++ [c]) ++ t) = (x ++ [c]) ++ rstrip t.
Proof.
  intro E. unfold rstrip. rewrite !rev_app_distr. cbn [rev app].
  rewrite dropWhile_app_stop by exact E.
  rewrite rev_app_distr. cbn [rev]. rewrite rev_involutive.
  rewrite <- app_assoc. reflexivity.
Qed.

Lemma rstrip_head (c : ascii) (t : str) :
  match rstrip (c :: t) with [] => True | x :: _ => x = c end.
Proof.
  rewrite rstrip_cons. destruct (forallb isspace (rev t)); [|reflexivity].
  destruct (isspace c); [exact I|reflexivity].
Qed.

Section WithTail.

Variable tail : str.
Hypothesis Htail_head : exists c r, tail = c :: r /\ isspace c = false.
Hypothesis Htail_scan :
  forall i pv, at_bol (MState i pv [] None) = true -> scan import_pattern 0 i pv tail = [].

Lemma source_tail_head (modules : list str) :
  exists c r, source_lines modules ++ tail = c :: r /\ isspace c = false.
Proof.
  destruct modules as [|m t]; [exact Htail_head|].
  unfold source_lines. cbn [map List.concat]. unfold import_line at 1.
  cbn [unescape app]. eexists _, _. split; reflexivity.
Qed.

Lemma source_tail_cons (m : str) (modules : list str) :
  source_lines (m :: modules) ++ tail
  = import_line m ++ nl :: (source_lines modules ++ tail).
Proof.
  unfold source_lines. cbn [map List.concat]. rewrite <- !app_assoc. reflexivity.
Qed.

Lemma scan_source_tail (modules : list str) (i : nat) (pv : option ascii) :
  forallb is_module_text modules = true ->
  at_bol (MState i pv [] None) = true ->
  scan import_pattern 0 i pv (source_lines modules ++ tail) = source_founds i modules.
Proof.
  revert i pv. induction modules as [|m t IH]; intros i pv Hm Hb.
  - apply Htail_scan. exact Hb.
  - cbn [forallb] in Hm. apply andb_true_iff in Hm as [Hm Ht].
    destruct (module_text_inv _ Hm) as (c0 & m' & -> & H0 & Hm').
    destruct (source_tail_head t) as (c1 & r & Er & H1).
    rewrite source_tail_cons, Er.
    assert (A := @attempt_import_line i pv c0 m' c1 r Hb H0 Hm' H1).
    change (import_line (c0 :: m') ++ nl :: c1 :: r)
      with ("i"%char :: (py "mport " ++ c0 :: m') ++ nl :: c1 :: r).
    rewrite (@scan_found import_pattern i pv "i"%char (py "mport " ++ c0 :: m')
               (nl :: c1 :: r) _ A)
      by (cbn [m_end]; rewrite import_line_length, length_app;
          cbn [unescape List.length]; lia).
    cbn [source_founds]. f_equal.
    destruct (@prev_after_not_nl "i"%char (py "mport " ++ c0 :: m')) as (c & Ec & Nc);
      [discriminate
      |repeat constructor; [apply nonspace_not_nl; exact H0|exact Hm'] |].
    rewrite Ec, scan_at, attempt_not_bol by exact Nc.
    rewrite <- Er, IH by (try exact Ht; reflexivity).
    f_equal. rewrite import_line_length, length_app.
    cbn [unescape List.length]. lia.
Qed.

Lemma splice_source_tail (modules : list str) (i j : nat) (x : str) :
  List.length x + j = i ->
  splice [] (source_founds i modules) j (x ++ source_lines modules ++ tail)
  = x ++ blank_lines modules ++ tail.
Proof.
  revert i j x. induction modules as [|m t IH]; intros i j x E; [reflexivity|].
  cbn [source_founds splice m_start m_end blank_lines map].
  rewrite source_tail_cons. unfold upto, from.
  rewrite firstn_length_app by lia.
  replace (x ++ import_line m ++ nl :: source_lines t ++ tail)
    with ((x ++ import_line m) ++ [nl] ++ source_lines t ++ tail)
    by (rewrite <- !app_assoc; reflexivity).
  rewrite skipn_length_app by (rewrite length_app; lia).
  rewrite IH by (cbn [List.length]; lia).
  reflexivity.
Qed.

Lemma findall_source_tail (modules : list str) (i : nat) (x : str) :
  List.length x = i ->
  map (group1 (x ++ source_lines modules ++ tail)) (source_founds i modules)
  = map import_line modules.
Proof.
  revert i x. induction modules as [|m t IH]; intros i x E; [reflexivity|].
  cbn [source_founds map]. f_equal.
  - unfold group1. cbn [m_grp]. unfold upto, from.
    rewrite skipn_length_app by lia. rewrite source_tail_cons.
    apply firstn_length_app. lia.
  - rewrite source_tail_cons.
    replace (x ++ import_line m ++ nl :: source_lines t ++ tail)
      with ((x ++ import_line m ++ [nl]) ++ source_lines t ++ tail)
      by (rewrite <- !app_assoc; reflexivity).
    apply IH. rewrite !length_app. cbn [List.length]. lia.
Qed.

End WithTail.

Section WithBody.

Variables name params body : str.
Hypothesis Hname : is_name name = true.
Hypothesis Hparams : forallb is_param_char params = true.
Hypothesis Hbody : contains (py "import") body = false.

Local Abbreviation sig := (signature name params).

Lemma body_tail_head : exists c r, sig ++ nl :: body = c :: r /\ isspace c = false.
Proof.
  destruct (@sig_head name params Hname Hparams) as (t & E & _).
  rewrite E. cbn [app]. eexists _, _. split; reflexivity.
Qed.

Lemma body_tail_scan (i : nat) (pv : option ascii) :
  scan import_pattern 0 i pv (sig ++ nl :: body) = [].
Proof.
  destruct (@scan_sig name params Hname Hparams (nl :: body) i pv) as (c & Nc & ->).
  rewrite scan_at, attempt_not_bol by exact Nc.
  apply scan_import_none. exact Hbody.
Qed.

Lemma strip_body_text (modules : list str) :
  strip (blank_lines modules ++ sig ++ nl :: body) = sig ++ rstrip (nl :: body).
Proof.
  destruct (@sig_shape name params) as (y & E). rewrite E.
  unfold strip. rewrite lstrip_spaces by apply blank_lines_spaces.
  unfold lstrip. cbn [app dropWhile]. change (isspace "d") with false. cbv iota.
  change ("d"%char :: (y ++ [":"%char]) ++ nl :: body)
    with ((("d"%char :: y) ++ [":"%char]) ++ nl :: body).
  rewrite rstrip_after_nonspace by reflexivity. reflexivity.
Qed.

Lemma relocate_source_body (modules : list str) :
  forallb is_module_text modules = true ->
  relocate_imports_inside_function (bodyless_source modules name params ++ nl :: body)
  = sig ++ indent ++ join indent (map import_line modules) ++ rstrip (nl :: body).
Proof.
  intro Hmodules. unfold bodyless_source. rewrite <- app_assoc.
  assert (Hscan : finditer import_pattern (source_lines modules ++ sig ++ nl :: body)
                  = source_founds 0 modules).
  { apply scan_source_tail;
      [exact body_tail_head | intros; apply body_tail_scan | exact Hmodules | reflexivity]. }
  assert (Hcwi : code_without_imports (source_lines modules ++ sig ++ nl :: body)
                 = sig ++ rstrip (nl :: body)).
  { unfold code_without_imports, sub. rewrite Hscan.
    pose proof (@splice_source_tail (sig ++ nl :: body) modules 0 0 [] eq_refl) as Hs.
    cbn [app] in Hs. rewrite Hs. apply strip_body_text. }
  unfold relocate_imports_inside_function. rewrite Hcwi.
  rewrite (@search_sig name params Hname Hparams (rstrip (nl :: body)));
    [|pose proof (rstrip_head nl body) as R; destruct (rstrip (nl :: body)); exact R].
  cbn [m_end]. unfold upto, from.
  rewrite firstn_length_app, skipn_length_app by reflexivity.
  unfold findall. rewrite Hscan.
  pose proof (@findall_source_tail (sig ++ nl :: body) modules 0 [] eq_refl) as Hf.
  cbn [app] in Hf. rewrite Hf. rewrite <- !app_assoc. reflexivity.
Qed.


End WithBody.


(** ** Blank lines after an import *)

(** A greedy repetition that can take [x] goes on from behind [x] when
    that succeeds. *)
Lemma rep_greedy_prefix (p : ascii -> bool) (k : cont) (g : option (nat * nat))
    (x after : str) (r : mstate) :
  Forall (fun c => p c = true) x ->
  forall i pv,
    rep true p k g 0 (List.length x + i) (prev_after pv x) after = Some r ->
    rep true p k g 0 i pv (x ++ after) = Some r.
Proof.
  intro Hx. induction Hx as [|c x Hc Hx IH]; intros i pv Hk; [exact Hk|].
  cbn [app]. rewrite rep_greedy_cons, Hc. cbn [Nat.pred].
  rewrite (IH (S i) (Some c)); [reflexivity|].
  cbn [List.length] in Hk. rewrite Nat.add_succ_r. exact Hk.
Qed.

(** A greedy repetition over [x], after which the rest of the pattern
    matches at no place inside or behind [x], gives nothing. *)
Lemma rep_greedy_none (p : ascii -> bool) (k : cont) (g : option (nat * nat))
    (x after : str) :
  match after with [] => True | c :: _ => p c = false end ->
  (forall st x2, (exists x1, x = x1 ++ x2) -> rest st = x2 ++ after -> k st = None) ->
  forall min i pv, rep true p k g min i pv (x ++ after) = None.
Proof.
  intros Hafter. induction x as [|c x IH]; intros Hk min i pv.
  - cbn [app]. assert (K : k (MState i pv after g) = None)
      by (apply (Hk _ []); [exists []; reflexivity|reflexivity]).
    destruct after as [|a t]; cbn [rep orelse].
    + destruct min; [exact K|reflexivity].
    + rewrite Hafter. cbn [orelse]. destruct min; [exact K|reflexivity].
  - cbn [app]. rewrite rep_greedy_cons.
    rewrite IH.
    + assert (K : k (MState i pv (c :: x ++ after) g) = None)
        by (apply (Hk _ (c :: x)); [exists []; reflexivity|reflexivity]).
      destruct (p c), min; cbn [orelse]; (exact K || reflexivity).
    + intros st x2 [x1 E] R. apply (Hk st x2); [|exact R].
      exists (c :: x1). rewrite E. reflexivity.
Qed.

(** The white space after an import up to the end of a line: of several
    newlines followed by a line that is not blank, all but the last are
    taken. *)
Lemma rep_space_eol (kf : cont) (g : option (nat * nat)) (k : nat) (ws : str)
    (c : ascii) (r : str) (i : nat) (pv : option ascii) (res : mstate) :
  Forall (fun a => isblank a = true) ws -> isspace c = false ->
  kf (MState (k + i) (prev_after pv (repeat nl k)) (nl :: ws ++ c :: r) g) = Some res ->
  rep true space (fun st => if at_eol st then kf st else None) g 0 i pv
      (repeat nl k ++ nl :: ws ++ c :: r)
  = Some res.
Proof.
  intros Hws Hc K.
  apply rep_greedy_prefix.
  - apply Forall_forall. intros a Ia. apply repeat_spec in Ia. subst. reflexivity.
  - rewrite repeat_length, rep_greedy_cons. change (space nl) with true. cbv iota.
    rewrite rep_greedy_none.
    + cbn [orelse at_eol rest]. rewrite eqc_refl. exact K.
    + exact Hc.
    + intros st x2 [x1 E] R. unfold at_eol. rewrite R.
      destruct x2 as [|a x2]; cbn [app].
      * replace (eqc c nl) with false; [reflexivity|].
        symmetry. apply eqc_neq, not_nl_neq, nonspace_not_nl, Hc.
      * assert (Ia : In a ws) by (rewrite E; apply in_or_app; right; left; reflexivity).
        rewrite Forall_forall in Hws. specialize (Hws a Ia).
        unfold isblank, not_nl in Hws. apply andb_true_iff in Hws as [_ Hn].
        apply negb_true_iff in Hn. rewrite Hn. reflexivity.
Qed.

Lemma attempt_indented_import_last i c0 m' k ws c r :
  isspace c0 = false -> Forall (fun a => not_nl a = true) m' ->
  Forall (fun a => isblank a = true) ws -> isspace c = false ->
  attempt import_pattern false i (Some nl)
    (py "    import " ++ c0 :: m' ++ repeat nl k ++ nl :: ws ++ c :: r)
  = Some (Found i (i + 4 + List.length (import_line (c0 :: m')) + k)
            (Some (i + 4, i + 4 + List.length (import_line (c0 :: m'))))).
Proof.
  intros H0 Hm Hws Hc.
  eassert (E : run import_pattern
                 (MState i (Some nl)
                    (py "    import " ++ c0 :: m' ++ repeat nl k ++ nl :: ws ++ c :: r) None)
                 (fun st => if false && (pos st =? i) then None else Some st) = Some _).
  { unfold import_pattern. cbn [seq lit unescape run plus star lazy_star app].
    change (at_bol _) with true. cbv iota. cbn [pos prev rest grp].
    apply (@rep_greedy_all space _ None (py "    ") _ _);
      [repeat constructor | reflexivity | cbn; lia |].
    cbn beta. cbn [unescape List.length Nat.add prev_after fold_left].
    apply orelse_left. do 6 hit.
    apply (@rep_greedy_all space _ None [" "%char]
             (c0 :: m' ++ repeat nl k ++ nl :: ws ++ c :: r));
      [repeat constructor | exact H0 | cbn; lia |].
    cbn beta. cbn [List.length Nat.add prev_after fold_left pos prev rest grp].
    apply (@rep_greedy_all not_nl _ None (c0 :: m') (repeat nl k ++ nl :: ws ++ c :: r));
      [constructor; [apply nonspace_not_nl; exact H0 | exact Hm]
      | destruct k; reflexivity | cbn; lia |].
    cbn beta. cbn [pos prev rest grp].
    apply (@rep_space_eol (fun st => if false && (pos st =? i) then None else Some st));
      [exact Hws | exact Hc |].
    cbn [andb]. reflexivity. }
  unfold attempt. rewrite E. cbn [pos grp]. unfold import_line.
  cbn [unescape app List.length].
  f_equal. f_equal; [lia|]. f_equal. f_equal; lia.
Qed.

(** ** The import relocator on a relocated text *)

Lemma starts_with_text_inv (body : str) :
  starts_with_text body = true ->
  exists ws c r, body = ws ++ c :: r /\ Forall (fun a => isblank a = true) ws
                 /\ isspace c = false.
Proof.
  unfold starts_with_text. induction body as [|a body IH]; [discriminate|].
  cbn [dropWhile]. destruct (isblank a) eqn:E.
  - intro H. destruct (IH H) as (ws & c & r & -> & F & Hc).
    exists (a :: ws), c, r. repeat split; [constructor; assumption|exact Hc].
  - intro H. apply negb_true_iff in H. exists [], a, body.
    repeat split; [constructor|exact H].
Qed.

Lemma ends_with_text_inv (body : str) :
  ends_with_text body = true -> exists y c, body = y ++ [c] /\ isspace c = false.
Proof.
  unfold ends_with_text. destruct (rev body) as [|c y] eqn:E; [discriminate|].
  intro H. apply negb_true_iff in H. exists (rev y), c. split; [|exact H].
  rewrite <- (rev_involutive body), E. reflexivity.
Qed.

Lemma blank_lines_repeat (modules : list str) :
  blank_lines modules = repeat nl (List.length modules).
Proof. induction modules as [|m t IH]; [reflexivity|]. cbn. rewrite <- IH. reflexivity. Qed.

Section Relocated.

Variables name params body : str.
Hypothesis Hname : is_name name = true.
Hypothesis Hparams : forallb is_param_char params = true.
Hypothesis Hbody : contains (py "import") body = false.
Hypothesis Hfirst : starts_with_text body = true.
Hypothesis Hlast : ends_with_text body = true.

Local Abbreviation sig := (signature name params).

Lemma scan_after_imports (i : nat) (pv : option ascii) :
  scan import_pattern 0 i pv (nl :: body) = [].
Proof.
  apply scan_import_none. cbn [contains starts_with]. rewrite Hbody. reflexivity.
Qed.

Lemma target_last_text (m : str) (k : nat) :
  target_lines [m] ++ repeat nl k ++ nl :: body
  = nl :: " "%char :: (py "   " ++ import_line m ++ repeat nl k) ++ nl :: body.
Proof.
  unfold target_lines, indent. cbn [map List.concat unescape app].
  rewrite app_nil_r, <- !app_assoc. reflexivity.
Qed.

Lemma target_more_text (m m2 : str) (t : list str) (tl : str) :
  target_lines (m :: m2 :: t) ++ tl
  = nl :: " "%char :: (py "   " ++ import_line m) ++ (target_lines (m2 :: t) ++ tl).
Proof.
  rewrite target_lines_cons. cbn [unescape app]. rewrite <- !app_assoc. reflexivity.
Qed.

Lemma target_more_head (m2 : str) (t : list str) (tl : str) :
  exists r, target_lines (m2 :: t) ++ tl = py "\n    i" ++ r.
Proof.
  rewrite target_lines_cons. unfold import_line. cbn [unescape app].
  eexists. reflexivity.
Qed.

Lemma scan_target_last (k : nat) (t : list str) :
  forall (m : str) (i : nat) (c : ascii),
    forallb is_module_text (m :: t) = true -> c <> nl ->
    scan import_pattern 0 i (Some c) (target_lines (m :: t) ++ repeat nl k ++ nl :: body)
    = target_founds_last k i m t.
Proof.
  induction t as [|m2 t IH]; intros m i c Hm Nc;
    cbn [forallb] in Hm; apply andb_true_iff in Hm as [Hm Ht];
    destruct (module_text_inv _ Hm) as (c0 & m' & -> & H0 & Hm').
  - destruct (starts_with_text_inv _ Hfirst) as (ws & cb & r & Eb & Hws & Hcb).
    rewrite target_last_text, scan_at, attempt_not_bol by exact Nc.
    assert (A := @attempt_indented_import_last (S i) c0 m' k ws cb r H0 Hm' Hws Hcb).
    rewrite <- Eb in A.
    replace (py "    import " ++ c0 :: m' ++ repeat nl k ++ nl :: body)
      with (" "%char :: (py "   " ++ import_line (c0 :: m') ++ repeat nl k) ++ nl :: body)
      in A by (unfold import_line; cbn [unescape app]; rewrite <- !app_assoc; reflexivity).
    rewrite (@scan_found import_pattern (S i) (Some nl) " "%char _ _ _ A)
      by (cbn [m_end]; rewrite !length_app, repeat_length;
          cbn [unescape List.length]; lia).
    rewrite scan_after_imports. cbn [target_founds_last].
    f_equal. f_equal; [lia|]. f_equal. f_equal; lia.
  - destruct (target_more_head m2 t (repeat nl k ++ nl :: body)) as [r Er].
    rewrite target_more_text, scan_at, attempt_not_bol by exact Nc.
    assert (A := @attempt_indented_import (S i) c0 m'
                   (target_lines (m2 :: t) ++ repeat nl k ++ nl :: body) H0 Hm'
                   (or_intror (ex_intro _ r Er))).
    replace (py "    import " ++ c0 :: m' ++ target_lines (m2 :: t) ++ repeat nl k ++ nl :: body)
      with (" "%char :: (py "   " ++ import_line (c0 :: m'))
              ++ target_lines (m2 :: t) ++ repeat nl k ++ nl :: body)
      in A by (unfold import_line; cbn [unescape app]; rewrite <- ?app_assoc; reflexivity).
    rewrite (@scan_found import_pattern (S i) (Some nl) " "%char _ _ _ A)
      by (cbn [m_end]; rewrite !length_app; cbn [unescape List.length]; lia).
    destruct (@prev_after_not_nl " "%char (py "   " ++ import_line (c0 :: m')))
      as (c' & Ec & Nc');
      [discriminate
      |unfold import_line; repeat constructor;
       [apply nonspace_not_nl; exact H0|exact Hm'] |].
    rewrite Ec, IH by assumption.
    cbn [target_founds_last].
    rewrite !length_app. cbn [unescape List.length].
    f_equal; [|f_equal; lia].
    f_equal; [lia|]. f_equal. f_equal; lia.
Qed.

Lemma cut_line (x w tl : str) (i j e : nat) :
  List.length x + j = i -> e = S i + List.length w ->
  upto (S i - j) (x ++ nl :: w ++ tl) = x ++ [nl]
  /\ from (e - j) (x ++ nl :: w ++ tl) = tl.
Proof.
  intros E Ee. unfold upto, from.
  replace (x ++ nl :: w ++ tl) with ((x ++ [nl]) ++ w ++ tl)
    by (rewrite <- app_assoc; reflexivity).
  split.
  - apply firstn_length_app. rewrite length_app. cbn [List.length]. lia.
  - rewrite (app_assoc (x ++ [nl]) w tl).
    apply skipn_length_app. rewrite !length_app. cbn [List.length]. lia.
Qed.

Lemma target_one_text (m : str) (k : nat) :
  target_lines [m] ++ repeat nl k ++ nl :: body
  = nl :: (py "    " ++ import_line m ++ repeat nl k) ++ nl :: body.
Proof.
  unfold target_lines, indent. cbn [map List.concat unescape app].
  rewrite app_nil_r, <- !app_assoc. reflexivity.
Qed.

Lemma target_cons_text (m : str) (t : list str) (tl : str) :
  target_lines (m :: t) ++ tl
  = nl :: (py "    " ++ import_line m) ++ target_lines t ++ tl.
Proof.
  rewrite target_lines_cons. cbn [app]. rewrite <- app_assoc. reflexivity.
Qed.

Lemma splice_target_last (k : nat) (t : list str) :
  forall (m : str) (i j : nat) (x : str),
    List.length x + j = i ->
    splice [] (target_founds_last k i m t) j
      (x ++ target_lines (m :: t) ++ repeat nl k ++ nl :: body)
    = x ++ blank_lines (m :: t) ++ nl :: body.
Proof.
  induction t as [|m2 t IH]; intros m i j x E.
  - cbn [target_founds_last splice m_start m_end blank_lines map app].
    rewrite target_one_text.
    destruct (@cut_line x (py "    " ++ import_line m ++ repeat nl k) (nl :: body)
                i j (i + 5 + List.length (import_line m) + k) E) as [-> ->];
      [rewrite !length_app, repeat_length; cbn [unescape List.length]; lia|].
    rewrite <- app_assoc. reflexivity.
  - cbn [target_founds_last splice m_start m_end app].
    rewrite target_cons_text.
    destruct (@cut_line x (py "    " ++ import_line m)
                (target_lines (m2 :: t) ++ repeat nl k ++ nl :: body)
                i j (i + 5 + List.length (import_line m)) E) as [-> ->];
      [rewrite !length_app; cbn [unescape List.length]; lia|].
    pose proof (IH m2 (i + 5 + List.length (import_line m))
                  (i + 5 + List.length (import_line m)) [] eq_refl) as Hs.
    cbn [app] in Hs. rewrite Hs.
    cbn [blank_lines map app]. rewrite <- app_assoc. reflexivity.
Qed.

Lemma findall_target_last (k : nat) (t : list str) :
  forall (m : str) (i : nat) (x : str),
    List.length x = i ->
    map (group1 (x ++ target_lines (m :: t) ++ repeat nl k ++ nl :: body))
      (target_founds_last k i m t)
    = map import_line (m :: t).
Proof.
  induction t as [|m2 t IH]; intros m i x E.
  - cbn [target_founds_last map]. f_equal.
    unfold group1. cbn [m_grp]. unfold upto, from.
    replace (x ++ target_lines [m] ++ repeat nl k ++ nl :: body)
      with ((x ++ indent) ++ import_line m ++ repeat nl k ++ nl :: body)
      by (unfold target_lines, indent; cbn [map List.concat unescape app];
          rewrite app_nil_r, <- !app_assoc; reflexivity).
    rewrite skipn_length_app
      by (rewrite length_app; unfold indent; cbn [unescape List.length]; lia).
    apply firstn_length_app. lia.
  - cbn [target_founds_last]. cbn [map]. rewrite target_cons_text.
    replace (x ++ nl :: (py "    " ++ import_line m)
               ++ target_lines (m2 :: t) ++ repeat nl k ++ nl :: body)
      with ((x ++ indent) ++ import_line m
               ++ target_lines (m2 :: t) ++ repeat nl k ++ nl :: body)
      by (unfold indent; cbn [unescape app]; rewrite <- !app_assoc; reflexivity).
    f_equal.
    + unfold group1. cbn [m_grp]. unfold upto, from.
      rewrite skipn_length_app
        by (rewrite length_app; unfold indent; cbn [unescape List.length]; lia).
      apply firstn_length_app. lia.
    + rewrite (app_assoc (x ++ indent)).
      apply IH. rewrite !length_app. unfold indent. cbn [unescape List.length]. lia.
Qed.

Lemma strip_relocated_text (n : nat) :
  strip (sig ++ repeat nl n ++ nl :: body) = sig ++ repeat nl n ++ nl :: body.
Proof.
  destruct (ends_with_text_inv _ Hlast) as (y & c & -> & Hc).
  destruct (@sig_shape name params) as (z & E). rewrite E.
  unfold strip, lstrip. cbn [app dropWhile]. change (isspace "d") with false. cbv iota.
  replace ("d"%char :: (z ++ [":"%char]) ++ repeat nl n ++ nl :: y ++ [c])
    with (("d"%char :: (z ++ [":"%char]) ++ repeat nl n ++ nl :: y) ++ [c])
    by (cbn [app]; rewrite <- !app_assoc; reflexivity).
  apply rstrip_nonspace. exact Hc.
Qed.

(** Relocating a relocated text: the imports stay where they are, and
    the body follows after as many empty lines as there are imports. *)
Lemma relocate_relocated (modules : list str) (k : nat) :
  forallb is_module_text modules = true -> modules <> [] ->
  relocate_imports_inside_function (relocated modules name params k body)
  = relocated modules name params (List.length modules) body.
Proof.
  intros Hm Hne. destruct modules as [|m t]; [contradiction|]. clear Hne.
  unfold relocated.
  rewrite (app_assoc indent), (@target_lines_join m t).
  assert (Hscan : finditer import_pattern
                    (sig ++ target_lines (m :: t) ++ repeat nl k ++ nl :: body)
                  = target_founds_last k (List.length sig + 0) m t).
  { unfold finditer.
    destruct (@scan_sig name params Hname Hparams
                (target_lines (m :: t) ++ repeat nl k ++ nl :: body) 0 None)
      as (c & Nc & ->).
    apply scan_target_last; assumption. }
  assert (Hcwi : code_without_imports
                   (sig ++ target_lines (m :: t) ++ repeat nl k ++ nl :: body)
                 = sig ++ repeat nl (List.length (m :: t)) ++ nl :: body).
  { unfold code_without_imports, sub. rewrite Hscan.
    rewrite splice_target_last by reflexivity.
    rewrite blank_lines_repeat. apply strip_relocated_text. }
  unfold relocate_imports_inside_function. rewrite Hcwi.
  rewrite (@search_sig name params Hname Hparams
             (repeat nl (List.length (m :: t)) ++ nl :: body)) by reflexivity.
  cbn [m_end]. unfold upto, from.
  rewrite firstn_length_app, skipn_length_app by reflexivity.
  unfold findall. rewrite Hscan.
  rewrite findall_target_last by lia.
  rewrite <- !app_assoc. reflexivity.
Qed.


End Relocated.


(** ** Repeated relocation *)

Lemma isblank_nonspace (c : ascii) : isspace c = false -> isblank c = false.
Proof. intro E. unfold isblank. rewrite E. reflexivity. Qed.

Lemma rstrip_text_body (body : str) :
  starts_with_text body = true ->
  rstrip (nl :: body) = nl :: rstrip body
  /\ starts_with_text (rstrip body) = true
  /\ ends_with_text (rstrip body) = true.
Proof.
  intro Hfirst.
  destruct (starts_with_text_inv _ Hfirst) as (ws & c & r & -> & Hws & Hc).
  assert (E : rstrip (ws ++ c :: r) = (ws ++ [c]) ++ rstrip r).
  { replace (ws ++ c :: r) with ((ws ++ [c]) ++ r)
      by (rewrite <- app_assoc; reflexivity).
    apply rstrip_after_nonspace. exact Hc. }
  split; [|split].
  - replace (nl :: ws ++ c :: r) with (((nl :: ws) ++ [c]) ++ r)
      by (cbn [app]; rewrite <- app_assoc; reflexivity).
    rewrite rstrip_after_nonspace by exact Hc. rewrite E. reflexivity.
  - rewrite E, <- app_assoc. cbn [app]. unfold starts_with_text.
    rewrite dropWhile_app_stop by (apply isblank_nonspace; exact Hc).
    rewrite dropWhile_all by exact Hws. cbn [app]. rewrite Hc. reflexivity.
  - rewrite E. unfold ends_with_text, rstrip.
    rewrite rev_app_distr, rev_involutive, rev_app_distr. cbn [rev app].
    destruct (dropWhile isspace (rev r)) as [|x d] eqn:D; cbn [app].
    + rewrite Hc. reflexivity.
    + rewrite (dropWhile_head _ _ D). reflexivity.
Qed.

Lemma rstrip_prefix (s : str) : exists b, s = rstrip s ++ b.
Proof.
  destruct (lstrip_parts (rev s)) as [a Ea]. exists (rev a).
  unfold rstrip. fold (lstrip (rev s)). rewrite <- rev_app_distr, <- Ea.
  symmetry. apply rev_involutive.
Qed.

Lemma relocated_length (modules : list str) (name params : str) (k : nat) (body : str) :
  List.length (relocated modules name params k body)
  = List.length (relocated modules name params 0 body) + k.
Proof.
  unfold relocated. rewrite !length_app, repeat_length. cbn [repeat List.length]. lia.
Qed.



(** ** The import pattern on one line *)

Lemma isblank_space (c : ascii) : isblank c = true -> isspace c = true.
Proof. unfold isblank. intro H. apply andb_true_iff in H as [H _]. exact H. Qed.

Lemma isblank_not_nl (c : ascii) : isblank c = true -> eqc c nl = false.
Proof.
  unfold isblank, not_nl. intro H. apply andb_true_iff in H as [_ H].
  apply negb_true_iff in H. exact H.
Qed.

Lemma blanks_inv (w : str) :
  is_blanks w = true ->
  w <> [] /\ Forall (fun c => isspace c = true) w /\ Forall (fun c => not_nl c = true) w.
Proof.
  unfold is_blanks. intro H. apply andb_true_iff in H as [H1 H2].
  split; [destruct w; [discriminate|discriminate]|].
  rewrite forallb_forall in H2.
  split; apply Forall_forall; intros c Hc; specialize (H2 c Hc).
  - apply isblank_space. exact H2.
  - unfold isblank in H2. apply andb_true_iff in H2 as [_ H2]. exact H2.
Qed.

Lemma token_inv (m : str) :
  is_token m = true -> m <> [] /\ Forall (fun c => nonspace c = true) m.
Proof.
  unfold is_token. intro H. apply andb_true_iff in H as [H1 H2].
  split; [destruct m; discriminate|].
  apply Forall_forall. rewrite forallb_forall in H2. exact H2.
Qed.

Lemma rep_space_line_end (kf : cont) (g : option (nat * nat)) (X tail : str)
    (i : nat) (pv : option ascii) (res : mstate) :
  Forall (fun a => isspace a = true) X -> line_end tail ->
  kf (MState (List.length X + i) (prev_after pv X) tail g) = Some res ->
  rep true space (fun st => if at_eol st then kf st else None) g 0 i pv (X ++ tail)
  = Some res.
Proof.
  intros HX Htail K. apply rep_greedy_prefix; [exact HX|].
  destruct Htail as [-> | (Y & c & r & -> & HY & Hc)].
  - rewrite rep_greedy_stop by exact I. cbn [at_eol rest]. exact K.
  - rewrite rep_greedy_cons. change (space nl) with true. cbv iota.
    rewrite rep_greedy_none.
    + cbn [orelse at_eol rest]. rewrite eqc_refl. exact K.
    + exact Hc.
    + intros st x2 [x1 E] R. unfold at_eol. rewrite R.
      destruct x2 as [|a x2]; cbn [app].
      * replace (eqc c nl) with false; [reflexivity|].
        symmetry. apply eqc_neq, not_nl_neq, nonspace_not_nl, Hc.
      * assert (Ia : In a Y) by (rewrite E; apply in_or_app; right; left; reflexivity).
        rewrite Forall_forall in HY. rewrite (@isblank_not_nl a (HY a Ia)). reflexivity.
Qed.

Lemma attempt_import_stmt (i : nat) (pv : option ascii) (G sp names X tail : str) :
  at_bol (MState i pv [] None) = true ->
  Forall (fun a => isspace a = true) G ->
  is_blanks sp = true -> is_module_text names = true ->
  Forall (fun a => isspace a = true) X ->
  match X ++ tail with [] => True | c :: _ => c = nl end ->
  line_end tail ->
  attempt import_pattern false i pv (G ++ (py "import" ++ sp ++ names) ++ X ++ tail)
  = Some (Found i
            (i + List.length G + List.length (py "import" ++ sp ++ names) + List.length X)
            (Some (i + List.length G,
                   i + List.length G + List.length (py "import" ++ sp ++ names)))).
Proof.
  intros Hb HG Hsp Hn HX Hstop Htail.
  destruct (blanks_inv _ Hsp) as (Nsp & Ssp & _).
  destruct (module_text_inv _ Hn) as (c0 & m' & -> & H0 & Hm').
  eassert (E : run import_pattern
                 (MState i pv (G ++ (py "import" ++ sp ++ c0 :: m') ++ X ++ tail) None)
                 (fun st => if false && (pos st =? i) then None else Some st) = Some _).
  { unfold import_pattern. cbn [seq lit unescape run plus star lazy_star].
    change (at_bol _) with (at_bol (MState i pv [] None)). rewrite Hb.
    cbn [pos prev rest grp].
    apply (@rep_greedy_all space _ None G _ _ HG); [reflexivity|cbn; lia|].
    cbn beta. cbn [pos prev rest grp app].
    apply orelse_left. do 6 hit.
    rewrite <- !app_assoc.
    apply (@rep_greedy_all space _ None sp ((c0 :: m') ++ X ++ tail) _ Ssp);
      [exact H0 | destruct sp; [contradiction|cbn; lia] |].
    cbn beta. cbn [pos prev rest grp].
    apply (@rep_greedy_all not_nl _ None (c0 :: m') (X ++ tail));
      [constructor; [apply nonspace_not_nl; exact H0 | exact Hm']
      | destruct (X ++ tail); [exact I|rewrite Hstop; reflexivity] | cbn; lia |].
    cbn beta. cbn [pos prev rest grp].
    apply (@rep_space_line_end
             (fun st => if false && (pos st =? i) then None else Some st));
      [exact HX | exact Htail |].
    cbn [andb]. reflexivity. }
  unfold attempt. rewrite E. cbn [pos grp].
  rewrite !length_app. cbn [unescape List.length].
  f_equal. f_equal; [lia|]. f_equal. f_equal; lia.
Qed.

Lemma attempt_from_stmt (i : nat) (pv : option ascii)
    (G sp1 module sp2 sp3 names X tail : str) :
  at_bol (MState i pv [] None) = true ->
  Forall (fun a => isspace a = true) G ->
  is_blanks sp1 = true -> is_token module = true -> is_blanks sp2 = true ->
  is_blanks sp3 = true -> is_module_text names = true ->
  Forall (fun a => isspace a = true) X ->
  match X ++ tail with [] => True | c :: _ => c = nl end ->
  line_end tail ->
  attempt import_pattern false i pv
    (G ++ (py "from" ++ sp1 ++ module ++ sp2 ++ py "import" ++ sp3 ++ names) ++ X ++ tail)
  = Some (Found i
            (i + List.length G
             + List.length (py "from" ++ sp1 ++ module ++ sp2 ++ py "import" ++ sp3 ++ names)
             + List.length X)
            (Some (i + List.length G,
                   i + List.length G
                   + List.length (py "from" ++ sp1 ++ module ++ sp2 ++ py "import"
                                  ++ sp3 ++ names)))).
Proof.
  intros Hb HG Hsp1 Hmod Hsp2 Hsp3 Hn HX Hstop Htail.
  destruct (blanks_inv _ Hsp1) as (N1 & S1 & _).
  destruct (blanks_inv _ Hsp2) as (N2 & S2 & _).
  destruct (blanks_inv _ Hsp3) as (N3 & S3 & _).
  destruct (token_inv _ Hmod) as (Nm & Sm).
  destruct (module_text_inv _ Hn) as (c0 & m' & -> & H0 & Hm').
  eassert (E : run import_pattern
                 (MState i pv
                    (G ++ (py "from" ++ sp1 ++ module ++ sp2 ++ py "import"
                           ++ sp3 ++ c0 :: m') ++ X ++ tail) None)
                 (fun st => if false && (pos st =? i) then None else Some st) = Some _).
  { unfold import_pattern. cbn [seq lit unescape run plus star lazy_star].
    change (at_bol _) with (at_bol (MState i pv [] None)). rewrite Hb.
    cbn [pos prev rest grp].
    apply (@rep_greedy_all space _ None G _ _ HG); [reflexivity|cbn; lia|].
    cbn beta. cbn [pos prev rest grp app].
    rewrite step_char_miss by reflexivity. cbn [orelse].
    do 4 hit.
    rewrite <- !app_assoc.
    apply (@rep_greedy_all space _ None sp1 _ _ S1);
      [destruct module as [|t0 tm]; [contradiction|];
       cbn [app]; inversion Sm as [|? ? Ht0 ?]; subst;
       unfold nonspace in Ht0; apply negb_true_iff in Ht0; exact Ht0
      | destruct sp1; [contradiction|cbn; lia] |].
    cbn beta. cbn [pos prev rest grp].
    apply (@rep_greedy_all nonspace _ None module _ _ Sm);
      [destruct sp2 as [|s0 s2]; [contradiction|];
       cbn [app]; inversion S2 as [|? ? Hs0 ?]; subst; unfold nonspace;
       rewrite Hs0; reflexivity
      | destruct module; [contradiction|cbn; lia] |].
    cbn beta. cbn [pos prev rest grp].
    apply (@rep_greedy_all space _ None sp2 _ _ S2);
      [reflexivity | destruct sp2; [contradiction|cbn; lia] |].
    cbn beta. cbn [pos prev rest grp app].
    do 6 hit.
    rewrite <- !app_assoc.
    apply (@rep_greedy_all space _ None sp3 ((c0 :: m') ++ X ++ tail) _ S3);
      [exact H0 | destruct sp3; [contradiction|cbn; lia] |].
    cbn beta. cbn [pos prev rest grp].
    apply (@rep_greedy_all not_nl _ None (c0 :: m') (X ++ tail));
      [constructor; [apply nonspace_not_nl; exact H0 | exact Hm']
      | destruct (X ++ tail); [exact I|rewrite Hstop; reflexivity] | cbn; lia |].
    cbn beta. cbn [pos prev rest grp].
    apply (@rep_space_line_end
             (fun st => if false && (pos st =? i) then None else Some st));
      [exact HX | exact Htail |].
    cbn [andb]. reflexivity. }
  unfold attempt. rewrite E. cbn [pos grp].
  rewrite !length_app. cbn [unescape List.length]. rewrite ?length_app.
  cbn [List.length].
  f_equal. f_equal; [lia|]. f_equal. f_equal; lia.
Qed.

(** A statement at the start of a line, after white space. *)
Lemma attempt_statement (i : nat) (pv : option ascii) (G : str) (l : line)
    (X tail : str) :
  at_bol (MState i pv [] None) = true ->
  Forall (fun a => isspace a = true) G ->
  line_ok l = true -> is_statement l = true ->
  Forall (fun a => isspace a = true) X ->
  match X ++ tail with [] => True | c :: _ => c = nl end ->
  line_end tail ->
  attempt import_pattern false i pv (G ++ line_text l ++ X ++ tail)
  = Some (Found i (i + List.length G + List.length (line_text l) + List.length X)
            (Some (i + List.length G, i + List.length G + List.length (line_text l)))).
Proof.
  intros Hb HG Hok Hst HX Hstop Htail.
  destruct l as [sp names|sp1 module sp2 sp3 names|text]; [| |discriminate Hst];
    cbn [line_ok] in Hok; cbn [line_text].
  - apply andb_true_iff in Hok as [Hsp Hn].
    apply attempt_import_stmt; assumption.
  - apply andb_true_iff in Hok as [Hok Hn].
    apply andb_true_iff in Hok as [Hok H3].
    apply andb_true_iff in Hok as [Hok H2].
    apply andb_true_iff in Hok as [H1 Hm].
    apply attempt_from_stmt; assumption.
Qed.

Lemma run_lit_hit (w : str) :
  w <> [] ->
  forall (i : nat) (pv : option ascii) (t : str) (g : option (nat * nat)) (k : cont),
    run (lit w) (MState i pv (w ++ t) g) k
    = k (MState (List.length w + i) (prev_after pv w) t g).
Proof.
  induction w as [|c w IH]; [contradiction|]. intros _ i pv t g k.
  destruct w as [|c' w'].
  - cbn [lit run app]. unfold step_char. cbn [rest pos grp]. rewrite eqc_refl.
    reflexivity.
  - change (lit (c :: c' :: w')) with (Cat (Lit c) (lit (c' :: w'))).
    change ((c :: c' :: w') ++ t) with (c :: ((c' :: w') ++ t)).
    cbn [run]. unfold step_char at 1. cbn [rest pos prev grp]. rewrite eqc_refl.
    rewrite IH by discriminate.
    cbn [List.length prev_after fold_left]. rewrite !Nat.add_succ_r. reflexivity.
Qed.

(** After a word that is no keyword here, [\s+] finds nothing. *)
Lemma run_lit_word_none (w : str) (st : mstate) (k : cont) :
  w <> [] -> no_word w (rest st) ->
  run (lit w) st (fun st' => run (plus space) st' k) = None.
Proof.
  intros N [H|(c & r & E & Hc)].
  - apply run_lit_none; assumption.
  - destruct st as [i pv s g]. cbn [rest] in E. subst s.
    rewrite run_lit_hit by exact N.
    unfold plus. cbn [run pos prev rest grp]. rewrite rep_greedy_cons.
    unfold space. rewrite Hc. reflexivity.
Qed.

(** Where no statement starts: after white space the text starts neither
    with the word [import] nor with the word [from]. *)
Lemma attempt_no_statement (adv : bool) (i : nat) (pv : option ascii) (G b : str) :
  Forall (fun a => isspace a = true) G ->
  match b with [] => True | c :: _ => isspace c = false end ->
  no_word (py "import") b -> no_word (py "from") b ->
  attempt import_pattern adv i pv (G ++ b) = None.
Proof.
  intros HG Hb Hi Hf. unfold attempt.
  replace (run import_pattern (MState i pv (G ++ b) None)
             (fun st => if adv && (pos st =? i) then None else Some st))
    with (@None mstate); [reflexivity|]. symmetry.
  unfold import_pattern. cbn [seq run star].
  destruct (at_bol _); [|reflexivity].
  cbn [pos prev rest grp].
  apply rep_greedy_none; [exact Hb|].
  intros st x2 [x1 E] R.
  assert (Hx2 : no_word (py "import") (x2 ++ b) /\ no_word (py "from") (x2 ++ b)).
  { destruct x2 as [|a x2]; [split; assumption|].
    assert (Ha : isspace a = true).
    { rewrite Forall_forall in HG. apply HG. rewrite E.
      apply in_or_app. right. left. reflexivity. }
    split; left; cbn [app unescape starts_with];
      apply andb_false_iff; left; apply eqc_neq; intros <-; discriminate Ha. }
  destruct Hx2 as [Hi2 Hf2].
  rewrite (@run_lit_word_none (py "import")) by (try discriminate; rewrite R; exact Hi2).
  cbn [orelse].
  apply (@run_lit_word_none (py "from")); [discriminate|]. rewrite R. exact Hf2.
Qed.

(** ** The scan of [re.finditer] and the text [re.sub] keeps, line by line *)

Lemma kept_at (r : re) (i : nat) (pv : option ascii) (c : ascii) (t : str) :
  kept r 0 i pv (c :: t)
  = match attempt r false i pv (c :: t) with
    | None => c :: kept r 0 (S i) (Some c) t
    | Some m =>
        if m_end m =? i
        then match attempt r true i pv (c :: t) with
             | Some m' => kept r (m_end m' - i - 1) (S i) (Some c) t
             | None => c :: kept r 0 (S i) (Some c) t
             end
        else kept r (m_end m - i - 1) (S i) (Some c) t
    end.
Proof. reflexivity. Qed.

Lemma kept_skip (r : re) (x after : str) (k i : nat) (pv : option ascii) :
  kept r (List.length x + k) i pv (x ++ after)
  = kept r k (List.length x + i) (prev_after pv x) after.
Proof.
  revert i pv. induction x as [|c x IH]; intros i pv; [reflexivity|].
  cbn [List.length Nat.add app kept]. rewrite IH, Nat.add_succ_r. reflexivity.
Qed.

Lemma kept_found (r : re) (i : nat) (pv : option ascii) (c : ascii) (x after : str)
    (F : found) :
  attempt r false i pv (c :: x ++ after) = Some F ->
  m_end F = i + S (List.length x) ->
  kept r 0 i pv (c :: x ++ after)
  = kept r 0 (List.length x + S i) (prev_after (Some c) x) after.
Proof.
  intros A E. rewrite kept_at, A.
  replace (m_end F =? i) with false by (symmetry; apply Nat.eqb_neq; lia).
  replace (m_end F - i - 1) with (List.length x + 0) by lia.
  rewrite kept_skip. reflexivity.
Qed.

Lemma kept_inside_line (x after : str) (i : nat) (c : ascii) :
  c <> nl -> Forall (fun a => not_nl a = true) x ->
  kept import_pattern 0 i (Some c) (x ++ after)
  = x ++ kept import_pattern 0 (List.length x + i) (prev_after (Some c) x) after.
Proof.
  intros N F. revert i c N. induction F as [|a x Ha F IH]; intros i c N; [reflexivity|].
  cbn [app]. rewrite kept_at, attempt_not_bol by exact N.
  rewrite IH by (apply not_nl_neq; exact Ha).
  cbn [List.length Nat.add prev_after fold_left]. rewrite Nat.add_succ_r. reflexivity.
Qed.

Lemma kept_import_none (s : str) :
  contains (py "import") s = false ->
  forall i pv, kept import_pattern 0 i pv s = s.
Proof.
  induction s as [|c t IH]; intros H i pv; [reflexivity|].
  rewrite kept_at, attempt_import_none by exact H.
  rewrite IH by exact (contains_false_suffix _ [c] _ H). reflexivity.
Qed.

Lemma contains_spaces (w s : str) :
  match w with [] => False | c :: _ => isspace c = false end ->
  Forall (fun a => isspace a = true) s -> contains w s = false.
Proof.
  intros Hw F. destruct w as [|c w]; [contradiction|].
  induction F as [|a s Ha F IH]; [reflexivity|].
  cbn [contains starts_with]. rewrite IH, orb_false_r.
  apply andb_false_iff. left. apply eqc_neq. intros ->. congruence.
Qed.

Lemma starts_with_line (w b z : str) :
  ~ In nl w -> starts_with w b = false -> starts_with w (b ++ nl :: z) = false.
Proof.
  revert w. induction b as [|c b IH]; intros w Hw H.
  - destruct w as [|a w]; [discriminate H|].
    cbn [app starts_with]. apply andb_false_iff. left. apply eqc_neq.
    intros ->. apply Hw. left. reflexivity.
  - destruct w as [|a w]; [discriminate H|].
    cbn [app starts_with] in *. apply andb_false_iff in H as [H|H].
    + rewrite H. reflexivity.
    + rewrite (IH w); [apply andb_false_r | | exact H].
      intro I. apply Hw. right. exact I.
Qed.

Lemma prev_after_last (pv : option ascii) (x : str) (c : ascii) :
  prev_after pv (x ++ [c]) = Some c.
Proof. rewrite prev_after_app. reflexivity. Qed.

Lemma prev_after_line (pv : option ascii) (G : str) (c0 : ascii) (b : str) :
  Forall (fun a => not_nl a = true) b -> isspace c0 = false ->
  exists c, prev_after pv (G ++ c0 :: b) = Some c /\ c <> nl.
Proof.
  intros Hb H0. rewrite prev_after_app.
  change (prev_after (prev_after pv G) (c0 :: b)) with (prev_after (Some c0) b).
  apply prev_after_not_nl; [|exact Hb].
  apply not_nl_neq, nonspace_not_nl, H0.
Qed.

(** A line on which no statement starts: nothing is found in it and all
    of it is kept, the white space in front of it too. *)
Lemma scan_no_statement (G b rest : str) :
  Forall (fun a => isspace a = true) G ->
  is_module_text b = true ->
  no_word (py "import") (b ++ rest) ->
  no_word (py "from") (b ++ rest) ->
  forall i pv,
    scan import_pattern 0 i pv (G ++ b ++ rest)
    = scan import_pattern 0 (List.length (G ++ b) + i) (prev_after pv (G ++ b)) rest
    /\ kept import_pattern 0 i pv (G ++ b ++ rest)
       = G ++ b ++ kept import_pattern 0 (List.length (G ++ b) + i)
                     (prev_after pv (G ++ b)) rest.
Proof.
  intros HG Hb Hi Hf.
  destruct (module_text_inv _ Hb) as (c0 & b' & -> & H0 & Hb').
  induction HG as [|a G Ha HG IH]; intros i pv.
  - cbn [app].
    assert (A : attempt import_pattern false i pv (c0 :: b' ++ rest) = None)
      by exact (@attempt_no_statement false i pv [] (c0 :: b' ++ rest)
                  (Forall_nil _) H0 Hi Hf).
    rewrite scan_at, kept_at, A.
    rewrite scan_inside_line, kept_inside_line
      by (try exact Hb'; apply not_nl_neq, nonspace_not_nl, H0).
    cbn [List.length prev_after fold_left]. rewrite !Nat.add_succ_r.
    split; reflexivity.
  - rewrite <- (app_comm_cons G ((c0 :: b') ++ rest) a).
    rewrite <- (app_comm_cons G (c0 :: b') a).
    assert (A : attempt import_pattern false i pv (a :: G ++ (c0 :: b') ++ rest) = None)
      by exact (@attempt_no_statement false i pv (a :: G) ((c0 :: b') ++ rest)
                  (Forall_cons _ Ha HG) H0 Hi Hf).
    rewrite scan_at, kept_at, A.
    destruct (IH (S i) (Some a)) as [-> ->].
    cbn [List.length prev_after fold_left]. rewrite !Nat.add_succ_r.
    split; reflexivity.
Qed.

(** A statement at the start of a line: one match, from the white space
    in front of it to the last end of a line in the white space after it,
    and none of that is kept. *)
Lemma scan_statement_bol (G : str) (l : line) (X tail : str) (i : nat)
    (pv : option ascii) :
  at_bol (MState i pv [] None) = true ->
  Forall (fun a => isspace a = true) G ->
  line_ok l = true -> is_statement l = true ->
  Forall (fun a => isspace a = true) X ->
  match X ++ tail with [] => True | c :: _ => c = nl end ->
  line_end tail ->
  scan import_pattern 0 i pv (G ++ line_text l ++ X ++ tail)
  = Found i (i + List.length G + List.length (line_text l) + List.length X)
      (Some (i + List.length G, i + List.length G + List.length (line_text l)))
    :: scan import_pattern 0 (i + List.length G + List.length (line_text l) + List.length X)
         (prev_after pv (G ++ line_text l ++ X)) tail
  /\ kept import_pattern 0 i pv (G ++ line_text l ++ X ++ tail)
     = kept import_pattern 0 (i + List.length G + List.length (line_text l) + List.length X)
         (prev_after pv (G ++ line_text l ++ X)) tail.
Proof.
  intros Hb HG Hok Hst HX Hstop Htail.
  pose proof (@attempt_statement i pv G l X tail Hb HG Hok Hst HX Hstop Htail) as A.
  assert (Hne : line_text l <> []) by (destruct l; [discriminate|discriminate|discriminate Hst]).
  destruct (G ++ line_text l ++ X) as [|c x] eqn:E.
  { exfalso. apply app_eq_nil in E as [_ E]. apply app_eq_nil in E as [E _].
    exact (Hne E). }
  assert (L : List.length G + List.length (line_text l) + List.length X
              = S (List.length x)).
  { rewrite <- !length_app, <- app_assoc, E. reflexivity. }
  replace (G ++ line_text l ++ X ++ tail) with (c :: x ++ tail) in *
    by (change (c :: x ++ tail) with ((c :: x) ++ tail); rewrite <- E, <- !app_assoc;
        reflexivity).
  rewrite (@scan_found import_pattern i pv c x tail _ A) by (cbn [m_end]; lia).
  rewrite (@kept_found import_pattern i pv c x tail _ A) by (cbn [m_end]; lia).
  replace (List.length x + S i)
    with (i + List.length G + List.length (line_text l) + List.length X) by lia.
  split; reflexivity.
Qed.

(** ** The lines of a single-function text *)

Lemma split_gap (g : str) :
  Forall (fun a => isspace a = true) g ->
  exists X Y, nl :: g = X ++ nl :: Y
              /\ Forall (fun a => isspace a = true) X
              /\ Forall (fun a => isblank a = true) Y
              /\ match X with [] => True | c :: _ => c = nl end.
Proof.
  intro Hg.
  assert (D : Forall (fun a => isblank a = true) g
              \/ exists X Y, g = X ++ nl :: Y
                             /\ Forall (fun a => isspace a = true) X
                             /\ Forall (fun a => isblank a = true) Y).
  { induction Hg as [|a g Ha Hg IH]; [left; constructor|].
    destruct IH as [B|(X & Y & -> & HX & HY)].
    - destruct (eqc a nl) eqn:E.
      + apply eqc_eq in E. subst a. right. exists [], g.
        split; [reflexivity|]. split; [constructor|exact B].
      + left. constructor; [|exact B]. unfold isblank, not_nl. rewrite Ha, E. reflexivity.
    - right. exists (a :: X), Y. split; [reflexivity|].
      split; [constructor; assumption|exact HY]. }
  destruct D as [B|(X & Y & -> & HX & HY)].
  - exists [], g. split; [reflexivity|]. split; [constructor|]. split; [exact B|exact I].
  - exists (nl :: X), Y. split; [reflexivity|].
    split; [constructor; [reflexivity|exact HX]|]. split; [exact HY|reflexivity].
Qed.

Lemma line_text_head (l : line) :
  line_ok l = true -> exists c r, line_text l = c :: r /\ isspace c = false.
Proof.
  destruct l as [sp names|sp1 module sp2 sp3 names|text]; cbn [line_ok line_text]; intro H.
  - exists "i"%char. eexists. split; reflexivity.
  - exists "f"%char. eexists. split; reflexivity.
  - apply andb_true_iff in H as [H _]. apply andb_true_iff in H as [H _].
    apply andb_true_iff in H as [H _].
    destruct (module_text_inv _ H) as (c & r & -> & Hc & _).
    exists c, r. split; [reflexivity|exact Hc].
Qed.

Lemma statement_last (l : line) (pv : option ascii) (G : str) :
  line_ok l = true -> is_statement l = true ->
  exists c, prev_after pv (G ++ line_text l) = Some c /\ c <> nl.
Proof.
  intros Hok Hst.
  assert (E : exists y names, line_text l = y ++ names /\ is_module_text names = true).
  { destruct l as [sp names|sp1 module sp2 sp3 names|text]; [| |discriminate Hst];
      cbn [line_ok line_text] in *.
    - apply andb_true_iff in Hok as [_ Hn].
      exists (py "import" ++ sp), names. rewrite <- app_assoc. split; [reflexivity|exact Hn].
    - apply andb_true_iff in Hok as [_ Hn].
      exists (py "from" ++ sp1 ++ module ++ sp2 ++ py "import" ++ sp3), names.
      rewrite <- !app_assoc. split; [reflexivity|exact Hn]. }
  destruct E as (y & names & -> & Hn).
  destruct (module_text_inv _ Hn) as (c0 & m' & -> & H0 & Hm').
  rewrite app_assoc. apply prev_after_line; assumption.
Qed.

Lemma plain_text_space (fin w t : str) :
  Forall (fun a => isspace a = true) w -> plain_text fin t -> plain_text fin (w ++ t).
Proof.
  intros Hw Ht. destruct Ht as [g Hg|g text t Hg Hok Ht].
  - rewrite app_assoc. apply plain_fin. apply Forall_app. split; assumption.
  - rewrite app_assoc. apply plain_line; [|exact Hok|exact Ht].
    apply Forall_app. split; assumption.
Qed.

Lemma not_bol_inv (i : nat) (pv : option ascii) :
  at_bol (MState i pv [] None) = false -> exists c, pv = Some c /\ c <> nl.
Proof.
  unfold at_bol. cbn [prev]. destruct pv as [c|]; [|discriminate].
  intro E. exists c. split; [reflexivity|]. apply eqc_neq. exact E.
Qed.

Section SingleFunction.

Variables name params tail : str.
Hypothesis Hname : is_name name = true.
Hypothesis Hparams : forallb is_param_char params = true.
Hypothesis Htail : Forall (fun a => isspace a = true) tail.

Local Abbreviation sig := (signature name params).
Local Abbreviation fin := (signature name params ++ tail).

Lemma sig_text : is_module_text sig = true.
Proof.
  destruct (@sig_head name params Hname Hparams) as (t & E & Ht). rewrite E.
  cbn [is_module_text]. apply andb_true_iff. split; [reflexivity|].
  apply forallb_forall. rewrite Forall_forall in Ht. exact Ht.
Qed.

Lemma sig_no_statement (r : str) :
  no_word (py "import") (sig ++ r) /\ no_word (py "from") (sig ++ r).
Proof.
  destruct (@sig_head name params Hname Hparams) as (t & E & _). rewrite E.
  split; left; reflexivity.
Qed.

Lemma tail_no_import : contains (py "import") tail = false.
Proof. apply contains_spaces; [reflexivity|exact Htail]. Qed.

Lemma chain_head (ls : list (line * str)) :
  lines_ok ls = true -> exists c r, chain ls fin = c :: r /\ isspace c = false.
Proof.
  destruct ls as [|[l g] t]; cbn [chain lines_ok forallb fst snd]; intro H.
  - destruct (@sig_head name params Hname Hparams) as (r & E & _). rewrite E.
    exists "d"%char. eexists. split; reflexivity.
  - apply andb_true_iff in H as [H _]. apply andb_true_iff in H as [H _].
    destruct (line_text_head _ H) as (c & r & -> & Hc).
    exists c. eexists. split; [reflexivity|exact Hc].
Qed.

(** What follows a statement: the white space up to the last newline
    before the next line is read with the statement. *)
Lemma after_statement (g : str) (t : list (line * str)) :
  Forall (fun a => isspace a = true) g -> lines_ok t = true ->
  exists X Y, nl :: g ++ chain t fin = X ++ nl :: Y ++ chain t fin
              /\ Forall (fun a => isspace a = true) X
              /\ Forall (fun a => isspace a = true) (nl :: Y)
              /\ match X ++ nl :: Y ++ chain t fin with [] => True | c :: _ => c = nl end
              /\ line_end (nl :: Y ++ chain t fin).
Proof.
  intros Hg Ht.
  destruct (split_gap Hg) as (X & Y & E & HX & HY & Hh).
  destruct (chain_head _ Ht) as (c & r & Ec & Hc).
  exists X, Y. split; [|split; [exact HX|split; [|split]]].
  - change (nl :: g ++ chain t fin) with ((nl :: g) ++ chain t fin).
    rewrite E, <- app_assoc. reflexivity.
  - constructor; [reflexivity|]. eapply Forall_impl; [|exact HY].
    intros a Ha. apply isblank_space. exact Ha.
  - destruct X as [|a X]; [reflexivity|exact Hh].
  - right. exists Y, c, r. rewrite Ec. split; [reflexivity|]. split; assumption.
Qed.

Lemma starts_with_split (w s : str) :
  starts_with w s = true -> s = w ++ skipn (List.length w) s.
Proof.
  revert s. induction w as [|a w IH]; intros s H; [reflexivity|].
  destruct s as [|c s]; [discriminate H|].
  cbn [starts_with] in H. apply andb_true_iff in H as [E H].
  apply eqc_eq in E. subst c. cbn [List.length skipn app]. f_equal. exact (IH s H).
Qed.

Lemma no_word_line (w text z : str) :
  ~ In nl w -> starts_word w text = false -> no_word w (text ++ nl :: z).
Proof.
  intros Hw H. unfold starts_word in H.
  destruct (starts_with w text) eqn:S.
  - cbn [andb] in H. right.
    rewrite (starts_with_split _ _ S).
    destruct (skipn (List.length w) text) as [|c r]; [discriminate H|].
    exists c, (r ++ nl :: z). rewrite <- app_assoc. split; [reflexivity|exact H].
  - left. apply starts_with_line; assumption.
Qed.

Lemma plain_inv (text : str) :
  line_ok (PlainLine text) = true ->
  is_module_text text = true
  /\ (forall z, no_word (py "import") (text ++ nl :: z))
  /\ (forall z, no_word (py "from") (text ++ nl :: z))
  /\ contains (py "def") text = false.
Proof.
  cbn [line_ok]. intro H.
  apply andb_true_iff in H as [H Hd]. apply andb_true_iff in H as [H Hf].
  apply andb_true_iff in H as [Ht Hi].
  apply negb_true_iff in Hd, Hf, Hi.
  split; [exact Ht|]. split; [|split; [|exact Hd]]; intro z;
    apply no_word_line; try assumption;
    intro I; vm_compute in I; repeat (destruct I as [I|I]; [discriminate I|]); exact I.
Qed.

Lemma group1_at (x G b after : str) (e : nat) :
  group1 (x ++ G ++ b ++ after)
    (Found (List.length x) e
       (Some (List.length x + List.length G,
              List.length x + List.length G + List.length b)))
  = b.
Proof.
  unfold group1. cbn [m_grp]. unfold upto, from.
  rewrite (app_assoc x G (b ++ after)).
  rewrite skipn_length_app by (rewrite length_app; lia).
  apply firstn_length_app. lia.
Qed.

(** The groups found in the lines are the statements, in their order. *)
Lemma findall_chain (ls : list (line * str)) :
  lines_ok ls = true ->
  forall (S x : str) (pv : option ascii),
    Forall (fun a => isspace a = true) S ->
    (at_bol (MState 0 pv [] None) = true \/ exists S', S = nl :: S') ->
    map (group1 (x ++ S ++ chain ls fin))
      (scan import_pattern 0 (List.length x) pv (S ++ chain ls fin))
    = statements ls.
Proof.
  induction ls as [|[l g] t IH]; intros Hok S x pv HS Hready.
  - cbn [chain]. destruct (sig_no_statement tail) as [Hi Hf].
    destruct (@scan_no_statement S sig tail HS sig_text Hi Hf (List.length x) pv)
      as [-> _].
    rewrite scan_import_none by exact tail_no_import. reflexivity.
  - cbn [lines_ok forallb fst snd] in Hok. apply andb_true_iff in Hok as [Hl Ht].
    apply andb_true_iff in Hl as [Hl Hg].
    assert (Hg' : Forall (fun a => isspace a = true) g)
      by (apply Forall_forall; rewrite forallb_forall in Hg; exact Hg).
    change (lines_ok t = true) in Ht.
    cbn [chain].
    destruct (is_statement l) eqn:Hst.
    + destruct (@after_statement g t Hg' Ht) as (X & Y & E & HX & HY & Hstop & Hend).
      rewrite E.
      assert (Hbol : forall S0 x0 pv0,
                 Forall (fun a => isspace a = true) S0 ->
                 at_bol (MState 0 pv0 [] None) = true ->
                 map (group1 (x0 ++ S0 ++ line_text l ++ X ++ nl :: Y ++ chain t fin))
                   (scan import_pattern 0 (List.length x0) pv0
                      (S0 ++ line_text l ++ X ++ nl :: Y ++ chain t fin))
                 = statements ((l, g) :: t)).
      { intros S0 x0 pv0 HS0 Hb.
        destruct (@scan_statement_bol S0 l X (nl :: Y ++ chain t fin) (List.length x0)
                    pv0 Hb HS0 Hl Hst HX Hstop Hend) as [-> _].
        unfold statements. cbn [filter fst]. rewrite Hst. cbn [map fst]. f_equal.
        - apply group1_at.
        - replace (x0 ++ S0 ++ line_text l ++ X ++ nl :: Y ++ chain t fin)
            with ((x0 ++ S0 ++ line_text l ++ X) ++ (nl :: Y) ++ chain t fin)
            by (rewrite <- !app_assoc; reflexivity).
          replace (List.length x0 + List.length S0 + List.length (line_text l)
                   + List.length X)
            with (List.length (x0 ++ S0 ++ line_text l ++ X))
            by (rewrite !length_app; lia).
          change (nl :: Y ++ chain t fin) with ((nl :: Y) ++ chain t fin).
          apply IH; [exact Ht | exact HY | right; eexists; reflexivity]. }
      destruct (at_bol (MState 0 pv [] None)) eqn:Hb.
      * apply Hbol; assumption.
      * destruct Hready as [Hr|[S' ->]]; [discriminate Hr|].
        destruct (@not_bol_inv 0 pv Hb) as (c & -> & Nc).
        rewrite <- (app_comm_cons S' _ nl).
        rewrite scan_at, attempt_not_bol by exact Nc.
        specialize (Hbol S' (x ++ [nl]) (Some nl)).
        rewrite length_app in Hbol. cbn [List.length] in Hbol.
        rewrite Nat.add_1_r, <- app_assoc in Hbol.
        apply Hbol; [inversion HS; assumption | reflexivity].
    + destruct l as [sp names|sp1 module sp2 sp3 names|text];
        [discriminate Hst|discriminate Hst|].
      cbn [line_text].
      destruct (@plain_inv text Hl) as (Htext & Hi & Hf & _).
      destruct (@scan_no_statement S text (nl :: g ++ chain t fin) HS Htext
                  (Hi _) (Hf _) (List.length x) pv) as [-> _].
      unfold statements. cbn [filter fst is_statement].
      replace (x ++ S ++ text ++ nl :: g ++ chain t fin)
        with ((x ++ S ++ text) ++ (nl :: g) ++ chain t fin)
        by (rewrite <- !app_assoc; reflexivity).
      replace (List.length (S ++ text) + List.length x)
        with (List.length (x ++ S ++ text)) by (rewrite !length_app; lia).
      change (nl :: g ++ chain t fin) with ((nl :: g) ++ chain t fin).
      apply IH; [exact Ht | constructor; [reflexivity|exact Hg']
                | right; eexists; reflexivity].
Qed.

(** What [re.sub] keeps of the lines is a text of plain lines.  When the
    scan starts inside a line, the newline that ends this line is kept. *)
Lemma kept_chain (ls : list (line * str)) :
  lines_ok ls = true ->
  forall (S : str) (pv : option ascii) (i : nat),
    Forall (fun a => isspace a = true) S ->
    (at_bol (MState 0 pv [] None) = true ->
     plain_text fin (kept import_pattern 0 i pv (S ++ chain ls fin)))
    /\ (at_bol (MState 0 pv [] None) = false ->
        forall S', S = nl :: S' ->
        exists t, kept import_pattern 0 i pv (S ++ chain ls fin) = nl :: t
                  /\ plain_text fin t).
Proof.
  induction ls as [|[l g] t IH]; intros Hok S pv i HS.
  - cbn [chain]. destruct (sig_no_statement tail) as [Hi Hf].
    destruct (@scan_no_statement S sig tail HS sig_text Hi Hf i pv) as [_ ->].
    rewrite kept_import_none by exact tail_no_import.
    split.
    + intros _. apply plain_fin. exact HS.
    + intros _ S' ->. exists (S' ++ fin). split; [reflexivity|].
      apply plain_fin. inversion HS; assumption.
  - cbn [lines_ok forallb fst snd] in Hok. apply andb_true_iff in Hok as [Hl Ht].
    apply andb_true_iff in Hl as [Hl Hg].
    assert (Hg' : Forall (fun a => isspace a = true) g)
      by (apply Forall_forall; rewrite forallb_forall in Hg; exact Hg).
    change (lines_ok t = true) in Ht.
    cbn [chain].
    destruct (is_statement l) eqn:Hst.
    + destruct (@after_statement g t Hg' Ht) as (X & Y & E & HX & HY & Hstop & Hend).
      rewrite E.
      assert (Kbol : forall S0 pv0 i0,
                 Forall (fun a => isspace a = true) S0 ->
                 at_bol (MState 0 pv0 [] None) = true ->
                 plain_text fin
                   (kept import_pattern 0 i0 pv0
                      (S0 ++ line_text l ++ X ++ nl :: Y ++ chain t fin))).
      { intros S0 pv0 i0 HS0 Hb.
        destruct (@scan_statement_bol S0 l X (nl :: Y ++ chain t fin) i0
                    pv0 Hb HS0 Hl Hst HX Hstop Hend) as [_ ->].
        change (nl :: Y ++ chain t fin) with ((nl :: Y) ++ chain t fin).
        destruct (IH Ht (nl :: Y) (prev_after pv0 (S0 ++ line_text l ++ X))
                    (i0 + List.length S0 + List.length (line_text l) + List.length X) HY)
          as [K1 K2].
        destruct (at_bol (MState 0 (prev_after pv0 (S0 ++ line_text l ++ X)) [] None))
          eqn:Hb'.
        - apply K1. reflexivity.
        - destruct (K2 eq_refl Y eq_refl) as (t' & -> & Pt').
          apply (@plain_text_space fin [nl] t'); [repeat constructor|exact Pt']. }
      split.
      * intro Hb. apply Kbol; assumption.
      * intros Hb S' ->.
        destruct (@not_bol_inv 0 pv Hb) as (c & -> & Nc).
        rewrite <- (app_comm_cons S' _ nl).
        rewrite kept_at, attempt_not_bol by exact Nc.
        eexists. split; [reflexivity|].
        apply Kbol; [inversion HS; assumption|reflexivity].
    + destruct l as [sp names|sp1 module sp2 sp3 names|text];
        [discriminate Hst|discriminate Hst|].
      cbn [line_text].
      destruct (@plain_inv text Hl) as (Htext & Hi & Hf & _).
      destruct (@scan_no_statement S text (nl :: g ++ chain t fin) HS Htext
                  (Hi _) (Hf _) i pv) as [_ ->].
      destruct (module_text_inv _ Htext) as (c0 & b' & Eb & H0 & Hb').
      assert (Hpv : at_bol (MState 0 (prev_after pv (S ++ text)) [] None) = false).
      { rewrite Eb. destruct (@prev_after_line pv S c0 b' Hb' H0) as (c & -> & Nc).
        apply eqc_neq. exact Nc. }
      change (nl :: g ++ chain t fin) with ((nl :: g) ++ chain t fin).
      destruct (IH Ht (nl :: g) (prev_after pv (S ++ text))
                  (List.length (S ++ text) + i)
                  (Forall_cons _ (eq_refl : isspace nl = true) Hg')) as [_ K2].
      destruct (K2 Hpv g eq_refl) as (t' & -> & Pt').
      split.
      * intros _. apply plain_line; assumption.
      * intros _ S' ->. exists (S' ++ text ++ nl :: t'). split; [reflexivity|].
        apply plain_line; [inversion HS; assumption|exact Hl|exact Pt'].
Qed.

(** The signature pattern on the signature line, wherever it stands. *)
Lemma attempt_sig (i : nat) (pv : option ascii) (after : str) :
  attempt function_pattern false i pv (sig ++ after)
  = Some (Found i (i + List.length sig) (Some (i, i + List.length sig))).
Proof.
  destruct (@name_inv name Hname) as (c0 & n' & En & Hn).
  destruct (@params_inv params Hparams) as [Hp Hclose].
  eassert (E : run function_pattern (MState i pv (sig ++ after) None)
                 (fun st => if false && (pos st =? i) then None else Some st) = Some _).
  { rewrite (@sig_app name params after). unfold function_pattern.
    cbn [seq lit unescape run plus star lazy_star app pos prev rest grp].
    do 3 hit.
    apply (@rep_greedy_all space _ None [" "%char]
             (name ++ "("%char :: params ++ ")"%char :: ":"%char :: after));
      [repeat constructor
      | rewrite En in Hn |- *; apply word_nonspace; inversion Hn; assumption
      | cbn; lia |].
    cbn beta. cbn [List.length Nat.add prev_after fold_left pos prev rest grp].
    apply (@rep_greedy_all word _ None name
             ("("%char :: params ++ ")"%char :: ":"%char :: after));
      [exact Hn | reflexivity | rewrite En; cbn; lia |].
    cbn beta. cbn [pos prev rest grp].
    rewrite rep_greedy_stop by reflexivity. cbn beta. hit.
    apply (@rep_lazy_all not_nl _ None params (")"%char :: ":"%char :: after));
      [exact Hp | |].
    - intros st c t Est Hc. unfold step_char. rewrite Est.
      rewrite (Hclose c Hc). reflexivity.
    - cbn beta. do 2 hit. cbn [andb]. reflexivity. }
  unfold attempt. rewrite E. cbn [pos grp].
  replace (i + List.length sig)
    with (S (S (List.length params + S (List.length name + S (S (S (S i))))))).
  - reflexivity.
  - unfold signature. rewrite !length_app. cbn [unescape List.length]. lia.
Qed.

Lemma search_no_def (x after : str) :
  (forall x1 x2, x = x1 ++ x2 -> x2 <> [] ->
     starts_with (py "def") (x2 ++ after) = false) ->
  forall i pv,
    search_from function_pattern i pv (x ++ after)
    = search_from function_pattern (List.length x + i) (prev_after pv x) after.
Proof.
  induction x as [|c x IH]; intros H i pv; [reflexivity|].
  cbn [app search_from].
  rewrite attempt_def_none by (apply (H [] (c :: x)); [reflexivity|discriminate]).
  rewrite IH.
  - cbn [List.length prev_after fold_left]. rewrite Nat.add_succ_r. reflexivity.
  - intros x1 x2 E N. apply (H (c :: x1) x2); [rewrite E; reflexivity|exact N].
Qed.

Lemma search_spaces (g after : str) (i : nat) (pv : option ascii) :
  Forall (fun a => isspace a = true) g ->
  search_from function_pattern i pv (g ++ after)
  = search_from function_pattern (List.length g + i) (prev_after pv g) after.
Proof.
  intro Hg. apply search_no_def. intros x1 x2 E N.
  destruct x2 as [|a x2]; [contradiction|].
  assert (Ha : isspace a = true).
  { rewrite Forall_forall in Hg. apply Hg. rewrite E.
    apply in_or_app. right. left. reflexivity. }
  cbn [app unescape starts_with]. apply andb_false_iff. left.
  apply eqc_neq. intros <-. discriminate Ha.
Qed.

Lemma search_plain_line (text after : str) (i : nat) (pv : option ascii) :
  contains (py "def") text = false ->
  search_from function_pattern i pv (text ++ nl :: after)
  = search_from function_pattern (S (List.length text + i))
      (Some nl) after.
Proof.
  intro Hd.
  rewrite search_no_def.
  - cbn [search_from]. rewrite attempt_def_none by reflexivity. reflexivity.
  - intros x1 x2 E N. apply starts_with_line.
    + intro I. vm_compute in I. repeat (destruct I as [I|I]; [discriminate I|]). exact I.
    + apply contains_false_head. rewrite E in Hd.
      exact (contains_false_suffix _ _ _ Hd).
Qed.

(** In a text of plain lines that ends with the signature, the signature
    is the first one found, and it ends the text. *)
Lemma search_plain_text (c : str) :
  plain_text sig c ->
  forall i pv, exists m,
    search_from function_pattern i pv c = Some m /\ m_end m = i + List.length c.
Proof.
  induction 1 as [g Hg|g text t Hg Hok Ht IH]; intros i pv.
  - rewrite search_spaces by exact Hg.
    eexists. split.
    + apply search_hit. rewrite <- (app_nil_r sig) at 1. apply attempt_sig.
    + cbn [m_end]. rewrite length_app. lia.
  - destruct (@plain_inv text Hok) as (_ & _ & _ & Hd).
    rewrite search_spaces by exact Hg.
    rewrite search_plain_line by exact Hd.
    destruct (IH (S (List.length text + (List.length g + i))) (Some nl)) as (m & -> & E).
    exists m. split; [reflexivity|]. rewrite E, !length_app. cbn [List.length]. lia.
Qed.

(** Nothing is found in a text of plain lines, whatever follows it, and
    all of it is kept. *)
Lemma scan_plain_text (c : str) :
  plain_text sig c ->
  forall after i pv, exists c',
    c' <> nl
    /\ scan import_pattern 0 i pv (c ++ after)
       = scan import_pattern 0 (List.length c + i) (Some c') after
    /\ kept import_pattern 0 i pv (c ++ after)
       = c ++ kept import_pattern 0 (List.length c + i) (Some c') after.
Proof.
  induction 1 as [g Hg|g text t Hg Hok Ht IH]; intros after i pv.
  - destruct (sig_no_statement after) as [Hi Hf].
    destruct (@scan_no_statement g sig after Hg sig_text Hi Hf i pv) as [Es Ek].
    destruct (@sig_head name params Hname Hparams) as (y & Ey & Hy).
    destruct (@prev_after_line pv g "d"%char y Hy eq_refl) as (c' & Ec & Nc).
    rewrite <- Ey in Ec. rewrite Ec in Es, Ek.
    exists c'. split; [exact Nc|]. rewrite <- !app_assoc. split; assumption.
  - destruct (@plain_inv text Hok) as (Htext & Hi & Hf & _).
    destruct (@scan_no_statement g text (nl :: t ++ after) Hg Htext (Hi _) (Hf _) i pv)
      as [Es Ek].
    destruct (module_text_inv _ Htext) as (c0 & b' & Eb & H0 & Hb').
    destruct (@prev_after_line pv g c0 b' Hb' H0) as (c1 & Ec & Nc).
    rewrite <- Eb in Ec. rewrite Ec in Es, Ek.
    rewrite scan_at, attempt_not_bol in Es by exact Nc.
    rewrite kept_at, attempt_not_bol in Ek by exact Nc.
    destruct (IH after (S (List.length (g ++ text) + i)) (Some nl)) as (c' & Nc' & Es' & Ek').
    exists c'. split; [exact Nc'|].
    replace ((g ++ text ++ nl :: t) ++ after) with (g ++ text ++ nl :: t ++ after)
      by (rewrite <- !app_assoc; reflexivity).
    replace (List.length (g ++ text ++ nl :: t) + i)
      with (List.length t + S (List.length (g ++ text) + i))
      by (rewrite !length_app; cbn [List.length]; lia).
    rewrite Es, Ek, Es', Ek'. rewrite <- !app_assoc. split; reflexivity.
Qed.

(** ** Trimming a text of plain lines *)

Lemma plain_text_tail (u : str) :
  plain_text fin u -> exists c, u = c ++ tail /\ plain_text sig c.
Proof.
  induction 1 as [g Hg|g text t Hg Hok Ht (c & -> & Pc)].
  - exists (g ++ sig). rewrite <- app_assoc. split; [reflexivity|].
    apply plain_fin. exact Hg.
  - exists (g ++ text ++ nl :: c). rewrite <- !app_assoc. split; [reflexivity|].
    apply plain_line; assumption.
Qed.

Lemma plain_text_last (c : str) : plain_text sig c -> exists y, c = y ++ [":"%char].
Proof.
  induction 1 as [g Hg|g text t Hg Hok Ht (y & ->)].
  - destruct (@sig_last name params) as (y & ->). exists (g ++ y).
    rewrite <- app_assoc. reflexivity.
  - exists (g ++ text ++ nl :: y). rewrite <- !app_assoc. reflexivity.
Qed.

(** A text of plain lines is white space and then a text of plain lines
    that starts and ends with a character that is no white space. *)
Lemma plain_text_core (u : str) :
  plain_text sig u ->
  exists g c0 y, u = g ++ c0 :: y ++ [":"%char]
                 /\ Forall (fun a => isspace a = true) g
                 /\ isspace c0 = false
                 /\ plain_text sig (c0 :: y ++ [":"%char]).
Proof.
  destruct 1 as [g Hg|g text t Hg Hok Ht].
  - destruct (@sig_shape name params) as (y & E).
    exists g, "d"%char, y. rewrite <- E. split; [reflexivity|]. split; [exact Hg|].
    split; [reflexivity|]. apply (@plain_fin sig []). constructor.
  - destruct (@plain_inv text Hok) as (Htext & _).
    destruct (module_text_inv _ Htext) as (c0 & b' & Eb & H0 & _).
    destruct (plain_text_last Ht) as (y & Ey).
    exists g, c0, (b' ++ nl :: y). split; [|split; [exact Hg|split; [exact H0|]]].
    + rewrite Eb, Ey. cbn [app]. rewrite <- !app_assoc. reflexivity.
    + replace (c0 :: (b' ++ nl :: y) ++ [":"%char]) with ([] ++ text ++ nl :: t)
        by (rewrite Eb, Ey; cbn [app]; rewrite <- !app_assoc; reflexivity).
      apply plain_line; [constructor|exact Hok|exact Ht].
Qed.

(** ** The statements after the signature *)

Lemma statements_lines (ls : list (line * str)) :
  lines_ok ls = true ->
  exists sts, statements ls = map line_text sts /\ Forall statement_ok sts.
Proof.
  intro Hok.
  exists (map fst (filter (fun p => is_statement (fst p)) ls)).
  split; [unfold statements; rewrite map_map; reflexivity|].
  induction ls as [|[l g] t IH]; [constructor|].
  cbn [lines_ok forallb fst snd] in Hok. apply andb_true_iff in Hok as [Hl Ht].
  apply andb_true_iff in Hl as [Hl _].
  cbn [filter fst]. destruct (is_statement l) eqn:Hst; [|exact (IH Ht)].
  cbn [map fst]. constructor; [split; assumption|exact (IH Ht)].
Qed.

Lemma indented_line_end (sts : list line) :
  Forall statement_ok sts ->
  line_end (List.concat (map (fun l => indent ++ line_text l) sts)).
Proof.
  intro H. destruct H as [|l t [Hl _] _]; [left; reflexivity|].
  right. destruct (line_text_head _ Hl) as (c & r & E & Hc).
  exists (py "    "), c, (r ++ List.concat (map (fun l => indent ++ line_text l) t)).
  split; [|split; [repeat constructor|exact Hc]].
  cbn [map List.concat]. unfold indent. rewrite E. cbn [unescape app].
  rewrite <- ?app_assoc. reflexivity.
Qed.

(** The second application finds each statement again, on its own line
    after the signature, and keeps the newline in front of it. *)
Lemma scan_indented (sts : list line) :
  Forall statement_ok sts ->
  forall (x : str) (c' : ascii), c' <> nl ->
    map (group1 (x ++ List.concat (map (fun l => indent ++ line_text l) sts)))
      (scan import_pattern 0 (List.length x) (Some c')
         (List.concat (map (fun l => indent ++ line_text l) sts)))
    = map line_text sts
    /\ kept import_pattern 0 (List.length x) (Some c')
         (List.concat (map (fun l => indent ++ line_text l) sts))
       = repeat nl (List.length sts).
Proof.
  induction 1 as [|l t [Hl Hst] Ht IH]; intros x c' Nc.
  - cbn [map List.concat repeat List.length].
    rewrite scan_end_not_bol by exact Nc. split; reflexivity.
  - pose proof (indented_line_end Ht) as Hend.
    cbn [map List.concat].
    set (after := List.concat (map (fun l => indent ++ line_text l) t)) in *.
    replace ((indent ++ line_text l) ++ after)
      with (nl :: py "    " ++ line_text l ++ [] ++ after)
      by (unfold indent; cbn [unescape app]; rewrite <- ?app_assoc; reflexivity).
    rewrite scan_at, kept_at, attempt_not_bol by exact Nc.
    assert (Hstop : match [] ++ after with [] => True | c :: _ => c = nl end).
    { destruct Hend as [->|(Y & c & r & -> & _)]; reflexivity. }
    destruct (@scan_statement_bol (py "    ") l [] after (S (List.length x)) (Some nl)
                eq_refl (ltac:(repeat constructor)) Hl Hst (Forall_nil _) Hstop Hend)
      as [-> ->].
    destruct (@statement_last l (Some nl) (py "    ") Hl Hst) as (c1 & Ec & Nc1).
    rewrite app_nil_r. rewrite Ec.
    replace (S (List.length x) + List.length (py "    ") + List.length (line_text l)
             + List.length (@nil ascii))
      with (List.length (x ++ nl :: py "    " ++ line_text l))
      by (rewrite !length_app; cbn [unescape List.length]; rewrite !length_app;
          cbn [List.length]; lia).
    destruct (IH (x ++ nl :: py "    " ++ line_text l) c1 Nc1) as [Eg Ek].
    cbn [map List.length repeat]. split.
    + f_equal.
      * replace (x ++ nl :: py "    " ++ line_text l ++ [] ++ after)
          with ((x ++ [nl]) ++ py "    " ++ line_text l ++ after)
          by (cbn [unescape app]; rewrite <- !app_assoc; reflexivity).
        replace (S (List.length x)) with (List.length (x ++ [nl]))
          by (rewrite length_app; cbn [List.length]; lia).
        replace (List.length (x ++ [nl]) + List.length (py "    ")
                 + List.length (line_text l) + List.length (@nil ascii))
          with (List.length (x ++ [nl]) + List.length (py "    ")
                + List.length (line_text l)) by (cbn [List.length]; lia).
        apply group1_at.
      * replace (x ++ nl :: py "    " ++ line_text l ++ [] ++ after)
          with ((x ++ nl :: py "    " ++ line_text l) ++ after)
          by (cbn [unescape app]; rewrite <- !app_assoc; reflexivity).
        exact Eg.
    + f_equal. exact Ek.
Qed.

(** ** Both applications *)

(** The first application: the statements are collected in their order,
    and what is left is a text of plain lines that ends with the
    signature, without white space around it. *)
Lemma first_pass (g0 : str) (ls : list (line * str)) :
  Forall (fun a => isspace a = true) g0 -> lines_ok ls = true ->
  findall import_pattern (g0 ++ chain ls fin) = statements ls
  /\ exists c0 y,
       code_without_imports (g0 ++ chain ls fin) = c0 :: y ++ [":"%char]
       /\ isspace c0 = false
       /\ plain_text sig (c0 :: y ++ [":"%char]).
Proof.
  intros Hg0 Hls. split.
  - exact (@findall_chain ls Hls g0 [] None Hg0 (or_introl eq_refl)).
  - unfold code_without_imports. rewrite sub_kept.
    destruct (@kept_chain ls Hls g0 None 0 Hg0) as [K _].
    destruct (plain_text_tail (K eq_refl)) as (u & -> & Pu).
    destruct (plain_text_core Pu) as (g & c0 & y & -> & Hg & H0 & Pc).
    exists c0, y. split; [|split; assumption].
    rewrite <- app_assoc.
    apply (@strip_core g c0 y ":"%char tail Hg Htail H0 eq_refl).
Qed.

(** The second application, on what the first one returns. *)
Lemma second_pass (c0 : ascii) (y : str) (sts : list line) :
  isspace c0 = false -> plain_text sig (c0 :: y ++ [":"%char]) ->
  Forall statement_ok sts ->
  findall import_pattern
    ((c0 :: y ++ [":"%char]) ++ indent ++ join indent (map line_text sts))
  = map line_text sts
  /\ code_without_imports
       ((c0 :: y ++ [":"%char]) ++ indent ++ join indent (map line_text sts))
     = c0 :: y ++ [":"%char].
Proof.
  intros H0 Pc Hsts.
  set (c := c0 :: y ++ [":"%char]) in *.
  destruct (@scan_plain_text c Pc (indent ++ join indent (map line_text sts)) 0 None)
    as (c' & Nc & Es & Ek).
  unfold findall, finditer, code_without_imports. rewrite sub_kept, Es, Ek.
  rewrite Nat.add_0_r.
  destruct sts as [|l t].
  - cbn [map join]. rewrite app_nil_r.
    rewrite scan_blank_indent by exact Nc.
    rewrite kept_import_none by reflexivity.
    split; [reflexivity|].
    apply (@strip_core [] c0 y ":"%char indent (Forall_nil _) indent_spaces H0 eq_refl).
  - rewrite join_indent by discriminate. rewrite map_map.
    destruct (@scan_indented (l :: t) Hsts c c' Nc) as [Eg Ek2].
    rewrite Eg, Ek2. split; [reflexivity|].
    apply (@strip_core [] c0 y ":"%char (repeat nl (List.length (l :: t)))
             (Forall_nil _)); [|exact H0|reflexivity].
    apply Forall_forall. intros a Ha. apply repeat_spec in Ha. subst a. reflexivity.
Qed.

(** The result, once the imports and the remaining text are known. *)
Lemma relocate_known (s c : str) (gs : list str) :
  findall import_pattern s = gs -> code_without_imports s = c ->
  plain_text sig c ->
  relocate_imports_inside_function s = c ++ indent ++ join indent gs.
Proof.
  intros Eg Ec Pc. unfold relocate_imports_inside_function. rewrite Eg, Ec.
  unfold search. destruct (@search_plain_text c Pc 0 None) as (m & -> & Em).
  rewrite Em. cbn [Nat.add]. unfold upto, from.
  rewrite firstn_all, skipn_all, app_nil_r. reflexivity.
Qed.

Lemma relocate_single_function_twice (g0 : str) (ls : list (line * str)) :
  Forall (fun a => isspace a = true) g0 -> lines_ok ls = true ->
  relocate_imports_inside_function
    (relocate_imports_inside_function (g0 ++ chain ls fin))
  = relocate_imports_inside_function (g0 ++ chain ls fin).
Proof.
  intros Hg0 Hls.
  destruct (@first_pass g0 ls Hg0 Hls) as (Eg & c0 & y & Ec & H0 & Pc).
  destruct (@statements_lines ls Hls) as (sts & Est & Hsts).
  rewrite (@relocate_known _ _ _ Eg Ec Pc). rewrite Est.
  destruct (@second_pass c0 y sts H0 Pc Hsts) as [Eg2 Ec2].
  exact (@relocate_known _ _ _ Eg2 Ec2 Pc).
Qed.

End SingleFunction.

Lemma forallb_Forall_space (s : str) :
  forallb isspace s = true -> Forall (fun a => isspace a = true) s.
Proof. intro H. apply Forall_forall. rewrite forallb_forall in H. exact H. Qed.

(** With nothing after the signature and import statements before it, a
    second application can still change the text when a line that starts
    with [from] is no statement: the first application leaves that line
    in front of a line that holds [import], and the second one reads the
    two as one statement. *)
Lemma relocate_twice_differs_bodyless :
  relocate_imports_inside_function (py "from\nimport os\nx import y\ndef f():")
  = py "from\n\nx import y\ndef f():\n    import os"
  /\ relocate_imports_inside_function
       (relocate_imports_inside_function (py "from\nimport os\nx import y\ndef f():"))
     = py "def f():\n    from\n\nx import y\n    import os".
Proof. split; vm_compute; reflexivity. Qed.


